(** * maas-operator: a shallow embedding of the two controllers

    The development follows [internal/controller/maasplatform_controller.go]
    (the embedded-manifest version of the MaasPlatform reconciler) and the
    Tier reconciler (Tier aggregation into the tier ConfigMap, the
    RateLimitPolicy and the TokenRateLimitPolicy).

    Layout: Go library functions the controllers call ([bytes], [strings]),
    the API types, the cluster client as explicit state passing, the two
    controllers, and then the theorems. *)

From Stdlib Require Import ZArith Lia DecimalString.
From Stdlib Require OrderedTypeEx.
From Stdlib.Sorting Require Import Sorted.
From Stdlib.Strings Require Import Byte.
From stdpp Require Import gmap strings list fin_maps.

Set Warnings "-register-all".
Local Open Scope string_scope.
Local Open Scope list_scope.

(** ** Go's [bytes] package, as far as the controllers use it *)

Module GoBytes.

(** A Go [[]byte]. *)
Abbreviation bytes := (list byte).

Definition nl : byte := x0a.

(** [[]byte(s)] for a Go string literal [s]. *)
Definition lit (s : string) : bytes := String.list_byte_of_string s.

Definition isAsciiSpace (b : byte) : bool :=
  match b with
  | x09 | x0a | x0b | x0c | x0d | x20 => true
  | _ => false
  end.

(** The two-byte UTF-8 encodings of white space: U+0085 and U+00A0. *)
Definition isSpace2 (b1 b2 : byte) : bool :=
  Byte.eqb b1 xc2 && (Byte.eqb b2 x85 || Byte.eqb b2 xa0).

(** The three-byte ones: U+1680, U+2000..U+200A, U+2028, U+2029, U+202F,
    U+205F and U+3000. *)
Definition isSpace3 (b1 b2 b3 : byte) : bool :=
  (Byte.eqb b1 xe1 && Byte.eqb b2 x9a && Byte.eqb b3 x80)
  || (Byte.eqb b1 xe2 && Byte.eqb b2 x80
      && ((N.leb 128 (Byte.to_N b3) && N.leb (Byte.to_N b3) 138)
          || Byte.eqb b3 xa8 || Byte.eqb b3 xa9 || Byte.eqb b3 xaf))
  || (Byte.eqb b1 xe2 && Byte.eqb b2 x81 && Byte.eqb b3 x9f)
  || (Byte.eqb b1 xe3 && Byte.eqb b2 x80 && Byte.eqb b3 x80).

(** Width in bytes of the white-space rune [s] starts with ([unicode.IsSpace]
    of the rune [utf8.DecodeRune] reads), [0] when it starts with none. *)
Definition leadingSpace (s : bytes) : nat :=
  match s with
  | [] => 0
  | b1 :: r =>
      if isAsciiSpace b1 then 1
      else match r with
           | [] => 0
           | b2 :: r2 =>
               if isSpace2 b1 b2 then 2
               else match r2 with
                    | [] => 0
                    | b3 :: _ => if isSpace3 b1 b2 b3 then 3 else 0
                    end
           end
  end%nat.

(** The same for the rune [utf8.DecodeLastRune] reads; [rs] is the slice
    reversed, last byte first. *)
Definition trailingSpace (rs : bytes) : nat :=
  match rs with
  | [] => 0
  | b :: r =>
      if isAsciiSpace b then 1
      else match r with
           | [] => 0
           | p :: r2 =>
               if isSpace2 p b then 2
               else match r2 with
                    | [] => 0
                    | pp :: _ => if isSpace3 pp p b then 3 else 0
                    end
           end
  end%nat.

(** Strip white-space runes while there is one; [fuel] bounds the number
    of runes, the length of the slice is always enough. *)
Fixpoint trimWhile (width : bytes -> nat) (fuel : nat) (s : bytes) : bytes :=
  match fuel with
  | O => s
  | S fuel' =>
      match width s with
      | O => s
      | k => trimWhile width fuel' (drop k s)
      end
  end.

Definition TrimLeftSpace (s : bytes) : bytes :=
  trimWhile leadingSpace (length s) s.

Definition TrimRightSpace (s : bytes) : bytes :=
  rev (trimWhile trailingSpace (length s) (rev s)).

(** [bytes.TrimSpace]. *)
Definition TrimSpace (s : bytes) : bytes :=
  TrimRightSpace (TrimLeftSpace s).

(** [bytes.HasPrefix]. *)
Fixpoint HasPrefix (s prefix : bytes) : bool :=
  match prefix, s with
  | [], _ => true
  | _ :: _, [] => false
  | p :: prefix', b :: s' => Byte.eqb b p && HasPrefix s' prefix'
  end.

(** [bytes.Split(s, sep)] for a one-byte separator [sep]: the slices
    between the separators, a single empty slice for the empty input. *)
Fixpoint Split (s : bytes) (sep : byte) : list bytes :=
  match s with
  | [] => [[]]
  | b :: r =>
      if Byte.eqb b sep then [] :: Split r sep
      else match Split r sep with
           | [] => [[b]]
           | l :: ls => (b :: l) :: ls
           end
  end.

(** [bytes.Join(lines, sep)] for a one-byte separator. *)
Fixpoint Join (lines : list bytes) (sep : byte) : bytes :=
  match lines with
  | [] => []
  | [l] => l
  | l :: ls => l ++ sep :: Join ls sep
  end.

End GoBytes.
Import GoBytes.

(** Go's [error] values, as far as the controllers tell them apart: the
    API server's not-found, already-exists and conflict answers, any other
    failure of a call, and the errors the controllers build themselves
    ([fmt.Errorf] with or without a wrapped cause). *)
Inductive error :=
| NotFound
| AlreadyExists
| Conflict
| Failure (msg : string)
| Wrapped (msg : string) (cause : error).

(** ** The document splitter *)

(** The test of the loop: [bytes.HasPrefix(bytes.TrimSpace(line), []byte("---"))]. *)
Definition isSeparator (line : bytes) : bool :=
  HasPrefix (TrimSpace line) (lit "---").

(** The [for i, line := range lines] loop of [splitYAMLDocuments]; the test
    [i < len(lines)-1] is "there is a line after this one". *)
Fixpoint splitLoop (lines : list bytes) (currentDoc : bytes) (documents : list bytes)
  : list bytes * bytes :=
  match lines with
  | [] => (documents, currentDoc)
  | line :: rest =>
      if isSeparator line && (0 <? length currentDoc)%nat
      then splitLoop rest [] (documents ++ [currentDoc])
      else
        let currentDoc := currentDoc ++ line in
        let currentDoc :=
          match rest with
          | [] => currentDoc
          | _ :: _ => currentDoc ++ [nl]
          end in
        splitLoop rest currentDoc documents
  end.

Definition splitYAMLDocuments (data : bytes) : list bytes * option error :=
  let lines := Split data nl in
  let '(documents, currentDoc) := splitLoop lines [] [] in
  let documents :=
    if (0 <? length currentDoc)%nat then documents ++ [currentDoc] else documents in
  (documents, None).

(** *** What the splitter is expected to return

    A document is a non-empty block none of whose lines, the first apart,
    is a separator line. *)
Definition wellFormedDoc (d : bytes) : Prop :=
  (d ≠ []) ∧ Forall (λ l, isSeparator l = false) (tail (Split d nl)).

Definition separatorLine (s : bytes) : Prop :=
  (nl ∉ s) ∧ isSeparator s = true.

Definition endsLine (d : bytes) : Prop := ∃ d', d = d' ++ [nl].

(** [Documents data docs]: [data] is the documents [docs], in order, with one
    whole separator line (and its newline) removed after each document but
    possibly the last. *)
Inductive Documents : bytes → list bytes → Prop :=
| Documents_empty : Documents [] []
| Documents_last d :
    wellFormedDoc d → Documents d [d]
| Documents_trailing d s :
    wellFormedDoc d → endsLine d → separatorLine s → Documents (d ++ s) [d]
| Documents_sep d s rest docs :
    wellFormedDoc d → endsLine d → separatorLine s → Documents rest docs →
    Documents (d ++ s ++ nl :: rest) (d :: docs).

(** The result of the function from the state the loop ends in. *)
Definition finish (st : list bytes * bytes) : list bytes :=
  if (0 <? length st.2)%nat then st.1 ++ [st.2] else st.1.

(** The loop's invariant on the document under construction: it is empty,
    or it is whole lines none of which, the first apart, is a separator. *)
Definition pendingDoc (cur : bytes) : Prop :=
  cur = [] ∨ (endsLine cur ∧ wellFormedDoc cur).

(** ** Go's [strings] package *)

Module GoStrings.

(** [strings.HasPrefix]. *)
Fixpoint HasPrefix (s prefix : string) : bool :=
  match prefix, s with
  | EmptyString, _ => true
  | String _ _, EmptyString => false
  | String p prefix', String c s' => Ascii.eqb c p && HasPrefix s' prefix'
  end.

(** The scan of [strings.ReplaceAll(s, old, new)] for a non-empty [old]:
    [skip] counts the bytes of a matched [old] still to be passed over. *)
Fixpoint replaceFrom (old new : string) (skip : nat) (s : string) : string :=
  match s with
  | EmptyString => EmptyString
  | String c rest =>
      match skip with
      | S skip' => replaceFrom old new skip' rest
      | O =>
          if HasPrefix s old
          then new +:+ replaceFrom old new (String.length old - 1) rest
          else String c (replaceFrom old new 0 rest)
      end
  end.

(** [strings.ReplaceAll]; the controllers call it with non-empty [old]
    only, an empty [old] (where Go inserts [new] around every rune) is
    returned unchanged here. *)
Definition ReplaceAll (s old new : string) : string :=
  match old with
  | EmptyString => s
  | String _ _ => replaceFrom old new 0 s
  end.

(** [strings.Contains]. *)
Fixpoint Contains (s substr : string) : bool :=
  HasPrefix s substr
  || match s with
     | EmptyString => false
     | String _ rest => Contains rest substr
     end.

(** [strings.ToLower] on the ASCII letters. *)
Definition lowerAscii (c : Ascii.ascii) : Ascii.ascii :=
  let n := Ascii.nat_of_ascii c in
  if (65 <=? n)%nat && (n <=? 90)%nat then Ascii.ascii_of_nat (n + 32) else c.

Fixpoint ToLower (s : string) : string :=
  match s with
  | EmptyString => EmptyString
  | String c rest => String (lowerAscii c) (ToLower rest)
  end.

End GoStrings.

(** ** API types *)

(** The content of an unstructured object: what [encoding/json] and the
    YAML decoder produce, and what the controllers build by hand
    ([map[string]interface{}], slices, strings, integers). *)
Inductive Value :=
| VString (s : string)
| VInt (z : Z)
| VBool (b : bool)
| VList (l : list Value)
| VMap (m : gmap string Value).

Record OwnerReference := mkOwnerReference {
  ownerAPIVersion : string;
  ownerKind : string;
  ownerName : string;
  ownerUID : string;
  ownerController : bool;
  ownerBlockOwnerDeletion : bool
}.

(** [unstructured.Unstructured], with the metadata the controllers read and
    write as fields; [content] holds the other top-level fields ([spec],
    [data], [status], ...). A [resourceVersion] of [0] stands for the empty
    string of an object that was never stored. The typed [corev1.ConfigMap]
    is read through the same record, its [Data] under ["data"]. *)
Record Unstructured := mkUnstructured {
  apiVersion : string;
  kind : string;
  namespace : string;
  name : string;
  labels : gmap string string;
  ownerReferences : list OwnerReference;
  resourceVersion : nat;
  content : gmap string Value
}.

(** [&unstructured.Unstructured{}] after [SetGroupVersionKind] (or
    [SetAPIVersion] and [SetKind]). *)
Definition newObject (apiVersion kind : string) : Unstructured :=
  mkUnstructured apiVersion kind "" "" ∅ [] 0 ∅.

Definition SetName (n : string) (o : Unstructured) : Unstructured :=
  mkUnstructured (apiVersion o) (kind o) (namespace o) n (labels o)
    (ownerReferences o) (resourceVersion o) (content o).

Definition SetNamespace (ns : string) (o : Unstructured) : Unstructured :=
  mkUnstructured (apiVersion o) (kind o) ns (name o) (labels o)
    (ownerReferences o) (resourceVersion o) (content o).

Definition SetLabels (l : gmap string string) (o : Unstructured) : Unstructured :=
  mkUnstructured (apiVersion o) (kind o) (namespace o) (name o) l
    (ownerReferences o) (resourceVersion o) (content o).

Definition SetOwnerReferences (refs : list OwnerReference) (o : Unstructured) : Unstructured :=
  mkUnstructured (apiVersion o) (kind o) (namespace o) (name o) (labels o)
    refs (resourceVersion o) (content o).

Definition SetResourceVersion (rv : nat) (o : Unstructured) : Unstructured :=
  mkUnstructured (apiVersion o) (kind o) (namespace o) (name o) (labels o)
    (ownerReferences o) rv (content o).

Definition SetContent (c : gmap string Value) (o : Unstructured) : Unstructured :=
  mkUnstructured (apiVersion o) (kind o) (namespace o) (name o) (labels o)
    (ownerReferences o) (resourceVersion o) c.

(** [unstructured.SetNestedMap(obj.Object, value, field)] for a top-level
    [field]: the field is replaced by [value], whatever it held, and no
    error is returned (there is no level above [field] that could fail to be
    a map). The map the caller built is taken as the JSON value it denotes:
    the deep copy the call makes is assumed to go through for the Go types
    the callers put in ([int32], [[]string], [[]map[string]interface{}]). *)
Definition SetNestedMap (value : gmap string Value) (field : string)
    (o : Unstructured) : Unstructured :=
  SetContent (<[field := VMap value]> (content o)) o.

(** [unstructured.NestedString(obj, fields...)]: the string and [found].
    [found] is false when a field is missing, when a level is not a map and
    when the value is not a string (the accompanying error is dropped by the
    only caller). *)
Fixpoint nestedString (fields : list string) (v : Value) : option string :=
  match fields with
  | [] => match v with VString s => Some s | _ => None end
  | f :: fields' =>
      match v with
      | VMap m => match m !! f with
                  | Some v' => nestedString fields' v'
                  | None => None
                  end
      | _ => None
      end
  end.

Definition NestedString (o : Unstructured) (fields : list string) : option string :=
  nestedString fields (VMap (content o)).

(** [api/v1alpha1]: MaasPlatform; its Spec and Status are empty structs. *)
Record MaasPlatform := mkMaasPlatform {
  platformName : string;
  platformNamespace : string;
  platformUID : string
}.

Record MaasPlatformTargetRef := mkTargetRef {
  targetName : string;
  targetNamespace : string
}.

(** [TierRateLimitConfig]; [Limit] is an [int32]. *)
Record TierRateLimitConfig := mkRateLimit {
  rateLimit : Z;
  rateWindow : string;
  rateCounters : list string
}.

(** [TierTokenRateLimitConfig]. *)
Record TierTokenRateLimitConfig := mkTokenRateLimit {
  tokenLimit : Z;
  tokenWindow : string;
  tokenCounters : list string
}.

Record TierSpec := mkTierSpec {
  TargetRef : MaasPlatformTargetRef;
  RateLimits : option TierRateLimitConfig;
  TokenRateLimits : option TierTokenRateLimitConfig;
  Models : list string
}.

Record Tier := mkTier {
  tierName : string;
  tierNamespace : string;
  tierGenerateName : string;
  Spec : TierSpec
}.

(** ** The cluster and the client *)

(** Identity of a stored object: apiVersion, kind, namespace, name. *)
Abbreviation ObjectKey := (string * string * string * string)%type.

Definition keyOf (o : Unstructured) : ObjectKey :=
  (apiVersion o, kind o, namespace o, name o).

Record Cluster := mkCluster {
  platforms : list MaasPlatform;
  tiers : list Tier;
  objects : gmap ObjectKey Unstructured
}.

(** What a reconcile call does that can be observed from outside: the calls
    it makes on the client, failed ones included, and the lines it logs. *)
Inductive Event :=
| EGetTier (ns n : string)
| EGetPlatform (ns n : string)
| EListTiers
| EListPlatforms
| EGet (key : ObjectKey)
| ECreate (o : Unstructured)
| EUpdate (o : Unstructured)
| EStatusUpdate (p : MaasPlatform)
| ELogInfo (msg : string)
| ELogDebug (msg : string)
| ELogError (err : error) (msg : string).

(** The state a call runs in: the cluster, the calls and log lines so far
    (oldest first), and for each coming client call whether it fails for a
    reason of its own (network, admission, ...); a call past the end of
    [faults] does not. *)
Record World := mkWorld {
  cluster : Cluster;
  faults : list bool;
  trace : list Event
}.

Definition M (A : Type) : Type := World → A * World.

Definition ret {A} (a : A) : M A := λ w, (a, w).

Definition bind {A B} (m : M A) (k : A → M B) : M B :=
  λ w, let '(a, w') := m w in k a w'.

Notation "'let!' x := m 'in' k" := (bind m (λ x, k))
  (at level 10, x pattern, m at level 100, k at level 200).
Notation "'do!' m 'in' k" := (bind m (λ _, k))
  (at level 10, m at level 100, k at level 200).

Definition emit (e : Event) : M unit :=
  λ w, (tt, mkWorld (cluster w) (faults w) (trace w ++ [e])).

Definition logInfo (msg : string) : M unit := emit (ELogInfo msg).
Definition logDebug (msg : string) : M unit := emit (ELogDebug msg).
Definition logError (err : error) (msg : string) : M unit := emit (ELogError err msg).

(** Whether the coming client call fails for a reason of its own. *)
Definition fault : M bool :=
  λ w, match faults w with
       | [] => (false, w)
       | f :: fs => (f, mkWorld (cluster w) fs (trace w))
       end.

Definition getCluster : M Cluster := λ w, (cluster w, w).

Definition setObjects (objs : gmap ObjectKey Unstructured) : M unit :=
  λ w, (tt, mkWorld (mkCluster (platforms (cluster w)) (tiers (cluster w)) objs)
              (faults w) (trace w)).

Definition unavailable : error := Failure "the server could not complete the request".

(** [errors.IsNotFound]; it sees through [fmt.Errorf]'s [%w]. *)
Fixpoint IsNotFound (e : error) : bool :=
  match e with
  | NotFound => true
  | Wrapped _ cause => IsNotFound cause
  | _ => false
  end.

(** An object read back under [key] has the identity it was asked for by. *)
Definition withIdentity (key : ObjectKey) (o : Unstructured) : Unstructured :=
  let '(apiVersion, kind, namespace, name) := key in
  mkUnstructured apiVersion kind namespace name (labels o) (ownerReferences o)
    (resourceVersion o) (content o).

(** [r.Get(ctx, key, obj)]: the error, and [obj] after the call. A
    successful call overwrites [obj] with the stored object; a failed one
    leaves it as it was. *)
Definition Get (key : ObjectKey) (obj : Unstructured) : M (option error * Unstructured) :=
  do! emit (EGet key) in
  let! f := fault in
  if (f : bool) then ret (Some unavailable, obj)
  else
    let! c := getCluster in
    match objects c !! key with
    | Some stored => ret (None, withIdentity key stored)
    | None => ret (Some NotFound, obj)
    end.

(** [r.Create(ctx, obj)]: rejected when an object of this identity exists. *)
Definition Create (obj : Unstructured) : M (option error) :=
  do! emit (ECreate obj) in
  let! f := fault in
  if (f : bool) then ret (Some unavailable)
  else
    let! c := getCluster in
    match objects c !! keyOf obj with
    | Some _ => ret (Some AlreadyExists)
    | None =>
        do! setObjects (<[keyOf obj := SetResourceVersion 1 obj]> (objects c)) in
        ret None
    end.

(** [r.Update(ctx, obj)]: a whole-object replace, rejected when the object is
    not there or when [obj] carries a resource version other than the stored
    one. *)
Definition Update (obj : Unstructured) : M (option error) :=
  do! emit (EUpdate obj) in
  let! f := fault in
  if (f : bool) then ret (Some unavailable)
  else
    let! c := getCluster in
    match objects c !! keyOf obj with
    | None => ret (Some NotFound)
    | Some stored =>
        if negb (resourceVersion obj =? 0)%nat
           && negb (resourceVersion obj =? resourceVersion stored)%nat
        then ret (Some Conflict)
        else
          do! setObjects (<[keyOf obj :=
                 SetResourceVersion (S (resourceVersion stored)) obj]> (objects c)) in
          ret None
    end.

(** [r.Get] of a Tier by namespace and name. *)
Definition GetTier (ns n : string) : M (error + Tier) :=
  do! emit (EGetTier ns n) in
  let! f := fault in
  if (f : bool) then ret (inl unavailable)
  else
    let! c := getCluster in
    match List.find (λ t, String.eqb (tierNamespace t) ns && String.eqb (tierName t) n)
            (tiers c) with
    | Some t => ret (inr t)
    | None => ret (inl NotFound)
    end.

(** [r.Get] of a MaasPlatform by namespace and name. *)
Definition GetPlatform (ns n : string) : M (error + MaasPlatform) :=
  do! emit (EGetPlatform ns n) in
  let! f := fault in
  if (f : bool) then ret (inl unavailable)
  else
    let! c := getCluster in
    match List.find (λ p, String.eqb (platformNamespace p) ns
                          && String.eqb (platformName p) n) (platforms c) with
    | Some p => ret (inr p)
    | None => ret (inl NotFound)
    end.

(** [r.List(ctx, tierList)] and [r.List(ctx, maasPlatformList)]. *)
Definition ListTiers : M (error + list Tier) :=
  do! emit EListTiers in
  let! f := fault in
  if (f : bool) then ret (inl unavailable)
  else let! c := getCluster in ret (inr (tiers c)).

Definition ListPlatforms : M (error + list MaasPlatform) :=
  do! emit EListPlatforms in
  let! f := fault in
  if (f : bool) then ret (inl unavailable)
  else let! c := getCluster in ret (inr (platforms c)).

(** [r.Status().Update(ctx, maasPlatform)]; the status is an empty struct,
    the call changes nothing in the cluster. *)
Definition StatusUpdate (p : MaasPlatform) : M (option error) :=
  do! emit (EStatusUpdate p) in
  let! f := fault in
  if (f : bool) then ret (Some unavailable)
  else
    let! c := getCluster in
    match List.find (λ q, String.eqb (platformNamespace q) (platformNamespace p)
                          && String.eqb (platformName q) (platformName p)) (platforms c) with
    | Some _ => ret None
    | None => ret (Some NotFound)
    end.

(** ** The Tier controller *)

Definition LF : string := String (Ascii.ascii_of_nat 10) "".
Definition DQUOTE : string := String (Ascii.ascii_of_nat 34) "".

(** The name a tier goes by in the derived artifacts:
    [tierName := tier.Name; if tierName == "" { tierName = tier.GetGenerateName() + "-tier" }]. *)
Definition tierNameOf (tier : Tier) : string :=
  if String.eqb (tierName tier) "" then tierGenerateName tier +:+ "-tier"
  else tierName tier.

(** [fmt.Sprintf(`auth.identity.tier == "%s"`, tierName)]. *)
Definition tierPredicate (tierName : string) : string :=
  "auth.identity.tier == " +:+ DQUOTE +:+ tierName +:+ DQUOTE.

(** [counters]: the configured ones, [auth.identity.userid] when there is none. *)
Definition countersOrDefault (counters : list string) : list string :=
  match counters with
  | [] => ["auth.identity.userid"]
  | _ :: _ => counters
  end.

(** The [tierLimit] map of one tier. *)
Definition tierLimit (limit : Z) (window : string) (counters : list string)
    (tierName : string) : Value :=
  VMap (<["counters" := VList (VString <$> countersOrDefault counters)]>
          {[ "rates" := VList [VMap {[ "limit" := VInt limit;
                                       "window" := VString window ]}];
             "when" := VList [VMap {[ "predicate" := VString (tierPredicate tierName) ]}] ]}).

(** The [limits] map [updateRateLimitPolicy] builds: the loop over [tiers],
    each tier with [RateLimits] writing its entry under its name. *)
Definition rateLimits (tiers : list Tier) : gmap string Value :=
  foldl (λ limits tier,
           match RateLimits (Spec tier) with
           | None => limits
           | Some cfg =>
               <[tierNameOf tier :=
                   tierLimit (rateLimit cfg) (rateWindow cfg) (rateCounters cfg)
                     (tierNameOf tier)]> limits
           end) ∅ tiers.

(** The [limits] map [updateTokenRateLimitPolicy] builds, keyed
    [fmt.Sprintf("%s-user-tokens", tierName)]. *)
Definition tokenRateLimits (tiers : list Tier) : gmap string Value :=
  foldl (λ limits tier,
           match TokenRateLimits (Spec tier) with
           | None => limits
           | Some cfg =>
               <[tierNameOf tier +:+ "-user-tokens" :=
                   tierLimit (tokenLimit cfg) (tokenWindow cfg) (tokenCounters cfg)
                     (tierNameOf tier)]> limits
           end) ∅ tiers.

(** The [spec] both policy functions set: the fixed gateway and the limits. *)
Definition policySpec (limits : gmap string Value) : gmap string Value :=
  {[ "targetRef" := VMap {[ "group" := VString "gateway.networking.k8s.io";
                            "kind" := VString "Gateway";
                            "name" := VString "maas-default-gateway" ]};
     "limits" := VMap limits ]}.

(** [sort.Slice(sortedTiers, func(i, j) bool { return sortedTiers[i].Name < sortedTiers[j].Name })],
    as an insertion sort (tiers of one name stay in list order; Go leaves
    their order open). *)
Fixpoint insertTier (t : Tier) (sorted : list Tier) : list Tier :=
  match sorted with
  | [] => [t]
  | u :: rest =>
      if String.ltb (tierName t) (tierName u) then t :: sorted
      else u :: insertTier t rest
  end.

Definition sortTiers (tiers : list Tier) : list Tier :=
  foldr insertTier [] tiers.

(** [fmt.Sprintf("%d", level)]. *)
Definition formatLevel (level : nat) : string :=
  DecimalString.NilEmpty.string_of_uint (Nat.to_uint level).

Definition tierLevel (tierName : string) : nat :=
  if GoStrings.Contains (GoStrings.ToLower tierName) "premium" then 1
  else if GoStrings.Contains (GoStrings.ToLower tierName) "enterprise" then 2
  else 0.

(** The block [updateTierConfigMap] writes for one tier. *)
Definition tierMappingBlock (tier : Tier) : string :=
  let tierName := tierNameOf tier in
  "  # Tier: " +:+ tierName +:+ LF
  +:+ "  - name: " +:+ tierName +:+ LF
  +:+ "    level: " +:+ formatLevel (tierLevel tierName) +:+ LF
  +:+ "    groups:" +:+ LF
  +:+ "      - tier-" +:+ tierName +:+ "-users" +:+ LF
  +:+ "      - system:authenticated" +:+ LF
  +:+ LF.

Definition tierMappings (tiers : list Tier) : string :=
  foldl (λ acc tier, acc +:+ tierMappingBlock tier) ("tiers: |" +:+ LF) (sortTiers tiers).

Definition configMapKey : ObjectKey := ("v1", "ConfigMap", "maas-api", "tier-to-group-mapping").
Definition rateLimitPolicyKey : ObjectKey :=
  ("kuadrant.io/v1", "RateLimitPolicy", "openshift-ingress", "gateway-rate-limits").
Definition tokenRateLimitPolicyKey : ObjectKey :=
  ("kuadrant.io/v1alpha1", "TokenRateLimitPolicy", "openshift-ingress", "gateway-token-rate-limits").

(** The labels [updateTierConfigMap] sets; [fmt.Sprintf("%s.%s", name, namespace)]. *)
Definition tierConfigMapLabels (maasPlatform : MaasPlatform)
    (l : gmap string string) : gmap string string :=
  <["maas-platform" := platformName maasPlatform +:+ "." +:+ platformNamespace maasPlatform]>
    (<["app.kubernetes.io/managed-by" := "maas-operator"]> l).

Definition updateTierConfigMap (tiers : list Tier) (maasPlatform : MaasPlatform)
  : M (option error) :=
  let configMapName := "tier-to-group-mapping" in
  let configMapNamespace := "maas-api" in
  let configMap := newObject "v1" "ConfigMap" in
  let! (err, configMap) := Get configMapKey configMap in
  match
    match err with
    | Some e =>
        if IsNotFound e
        then inr (SetNamespace configMapNamespace (SetName configMapName (newObject "v1" "ConfigMap")))
        else inl (Wrapped "failed to get ConfigMap" e)
    | None => inr configMap
    end
  with
  | inl e => ret (Some e)
  | inr configMap =>
      let configMap :=
        SetContent (<["data" := VMap {[ "tiers" := VString (tierMappings tiers) ]}]>
                      (content configMap)) configMap in
      let configMap :=
        if (0 <? length tiers)%nat
        then SetLabels (tierConfigMapLabels maasPlatform (labels configMap)) configMap
        else configMap in
      let! (err, configMap) := Get configMapKey configMap in
      if match err with Some e => IsNotFound e | None => false end
      then
        let! err := Create configMap in
        match err with
        | Some e => ret (Some (Wrapped "failed to create ConfigMap" e))
        | None => do! logInfo "Created tier ConfigMap" in ret None
        end
      else
        let! err := Update configMap in
        match err with
        | Some e => ret (Some (Wrapped "failed to update ConfigMap" e))
        | None => do! logInfo "Updated tier ConfigMap" in ret None
        end
  end.

(** The common shape of [updateRateLimitPolicy] and
    [updateTokenRateLimitPolicy], which differ in the policy's identity, the
    limits and the wording of messages only. *)
Definition updatePolicy (key : ObjectKey) (what : string)
    (limits : gmap string Value) : M (option error) :=
  let '(apiVersion, kind, policyNamespace, policyName) := key in
  let policy := newObject apiVersion kind in
  let! (err, policy) := Get key policy in
  match
    match err with
    | Some e =>
        if IsNotFound e
        then inr (SetNamespace policyNamespace (SetName policyName policy))
        else inl (Wrapped ("failed to get " +:+ what) e)
    | None => inr policy
    end
  with
  | inl e => ret (Some e)
  | inr policy =>
      let policy := SetNestedMap (policySpec limits) "spec" policy in
      let! (err, policy) := Get key policy in
      if match err with Some e => IsNotFound e | None => false end
      then
        let! err := Create policy in
        match err with
        | Some e => ret (Some (Wrapped ("failed to create " +:+ what) e))
        | None => do! logInfo ("Created " +:+ what) in ret None
        end
      else
        let! err := Update policy in
        match err with
        | Some e => ret (Some (Wrapped ("failed to update " +:+ what) e))
        | None => do! logInfo ("Updated " +:+ what) in ret None
        end
  end.

Definition updateRateLimitPolicy (tiers : list Tier) (maasPlatform : MaasPlatform)
  : M (option error) :=
  updatePolicy rateLimitPolicyKey "RateLimitPolicy" (rateLimits tiers).

Definition updateTokenRateLimitPolicy (tiers : list Tier) (maasPlatform : MaasPlatform)
  : M (option error) :=
  updatePolicy tokenRateLimitPolicyKey "TokenRateLimitPolicy" (tokenRateLimits tiers).

(** The filter of [reconcileMaasPlatformTiers]: the tiers whose target, with
    the tier's own namespace for an empty target namespace, is the platform. *)
Definition targets (maasPlatform : MaasPlatform) (tier : Tier) : bool :=
  let tierNamespace :=
    if String.eqb (targetNamespace (TargetRef (Spec tier))) "" then tierNamespace tier
    else targetNamespace (TargetRef (Spec tier)) in
  String.eqb (targetName (TargetRef (Spec tier))) (platformName maasPlatform)
  && String.eqb tierNamespace (platformNamespace maasPlatform).

Definition reconcileMaasPlatformTiers (maasPlatform : MaasPlatform) : M (option error) :=
  let! tierList := ListTiers in
  match tierList with
  | inl err => do! logError err "Failed to list Tiers" in ret (Some err)
  | inr items =>
      let targetTiers := List.filter (targets maasPlatform) items in
      if (length targetTiers =? 0)%nat
      then do! logInfo "No Tiers found targeting this MaasPlatform" in ret None
      else
        let! err := updateTierConfigMap targetTiers maasPlatform in
        match err with
        | Some err => do! logError err "Failed to update tier ConfigMap" in ret (Some err)
        | None =>
            let! err := updateRateLimitPolicy targetTiers maasPlatform in
            match err with
            | Some err => do! logError err "Failed to update RateLimitPolicy" in ret (Some err)
            | None =>
                let! err := updateTokenRateLimitPolicy targetTiers maasPlatform in
                match err with
                | Some err =>
                    do! logError err "Failed to update TokenRateLimitPolicy" in ret (Some err)
                | None => ret None
                end
            end
        end
  end.

(** The [for _, mp := range maasPlatformList.Items] loop of
    [reconcileAllMaasPlatforms]. *)
Fixpoint reconcileEach (items : list MaasPlatform) : M unit :=
  match items with
  | [] => ret tt
  | mp :: rest =>
      let! err := reconcileMaasPlatformTiers mp in
      do! match err with
          | Some err => logError err "Failed to reconcile Tiers for MaasPlatform"
          | None => ret tt
          end in
      reconcileEach rest
  end.

Definition reconcileAllMaasPlatforms : M (option error) :=
  let! maasPlatformList := ListPlatforms in
  match maasPlatformList with
  | inl err => do! logError err "Failed to list MaasPlatforms" in ret (Some err)
  | inr items => do! reconcileEach items in ret None
  end.

(** [TierReconciler.Reconcile] for the request [(ns, n)]; the [ctrl.Result]
    it returns is always the zero value and is left out. *)
Definition TierReconcile (ns n : string) : M (option error) :=
  let! tier := GetTier ns n in
  match tier with
  | inl err =>
      if IsNotFound err
      then do! logInfo "Tier was deleted, reconciling all MaasPlatforms" in
           reconcileAllMaasPlatforms
      else do! logError err "Failed to get Tier" in ret (Some err)
  | inr tier =>
      let maasPlatformNamespace :=
        if String.eqb (targetNamespace (TargetRef (Spec tier))) "" then tierNamespace tier
        else targetNamespace (TargetRef (Spec tier)) in
      let! maasPlatform := GetPlatform maasPlatformNamespace (targetName (TargetRef (Spec tier))) in
      match maasPlatform with
      | inl err => do! logError err "Failed to get target MaasPlatform" in ret (Some err)
      | inr maasPlatform => reconcileMaasPlatformTiers maasPlatform
      end
  end.

(** ** The MaasPlatform controller *)

(** What the reconciler is given besides the client: the embedded manifests
    ([manifestsFS.ReadFile], [None] for a read error), the environment
    variable [CLUSTER_DOMAIN] ([os.Getenv], empty when unset), the YAML
    decoder ([yaml.Unmarshal] into an unstructured object, [None] for an
    error) and [r.Scheme]'s apiVersion and kind for a MaasPlatform ([None]
    when the type is not registered). *)
Record Host := mkHost {
  manifestsFS : string → option bytes;
  CLUSTER_DOMAIN : string;
  yamlUnmarshal : bytes → option Unstructured;
  schemeGVK : option (string * string)
}.

(** [schema.ParseGroupVersion(apiVersion).Group], [None] when it does not parse. *)
Fixpoint splitSlash (s : string) : list string :=
  match s with
  | EmptyString => [""]
  | String c rest =>
      if Ascii.eqb c (Ascii.ascii_of_nat 47) then "" :: splitSlash rest
      else match splitSlash rest with
           | [] => [String c ""]
           | p :: ps => String c p :: ps
           end
  end.

Definition groupOf (apiVersion : string) : option string :=
  match splitSlash apiVersion with
  | [_] => Some ""
  | [g; _] => Some g
  | _ => None
  end.

(** controller-runtime's [referSameObject]: same group, kind and name. *)
Definition referSameObject (a b : OwnerReference) : bool :=
  match groupOf (ownerAPIVersion a), groupOf (ownerAPIVersion b) with
  | Some ga, Some gb =>
      String.eqb ga gb && String.eqb (ownerKind a) (ownerKind b)
      && String.eqb (ownerName a) (ownerName b)
  | _, _ => false
  end.

(** [upsertOwnerRef]: replace the reference to the same object, else append. *)
Fixpoint upsertOwnerRef (ref : OwnerReference) (owners : list OwnerReference)
  : list OwnerReference :=
  match owners with
  | [] => [ref]
  | r :: rest =>
      if referSameObject r ref then ref :: rest else r :: upsertOwnerRef ref rest
  end.

(** [ctrl.SetControllerReference(maasPlatform, obj, r.Scheme)]: the error, or
    the object with the platform as its controller. It refuses an owner in
    another namespace, an owner type the scheme does not know and an object
    that has another controller already. *)
Definition SetControllerReference (h : Host) (owner : MaasPlatform) (obj : Unstructured)
  : error + Unstructured :=
  if negb (String.eqb (platformNamespace owner) "")
     && (String.eqb (namespace obj) ""
         || negb (String.eqb (platformNamespace owner) (namespace obj)))
  then inl (Failure "cross-namespace owner references are disallowed")
  else
    match schemeGVK h with
    | None => inl (Failure "no kind is registered for the type MaasPlatform")
    | Some (ownerAPIVersion, ownerKind) =>
        let ref := mkOwnerReference ownerAPIVersion ownerKind (platformName owner)
                     (platformUID owner) true true in
        match List.find ownerController (ownerReferences obj) with
        | Some existing =>
            if referSameObject existing ref
            then inr (SetOwnerReferences (upsertOwnerRef ref (ownerReferences obj)) obj)
            else inl (Failure "object is already owned by another controller")
        | None => inr (SetOwnerReferences (upsertOwnerRef ref (ownerReferences obj)) obj)
        end
    end.

Definition ingressKey : ObjectKey := ("config.openshift.io/v1", "Ingress", "", "cluster").

(** The first half of [substituteEnvVars]: the value of [clusterDomain]. *)
Definition clusterDomain (h : Host) : M string :=
  let clusterDomain := CLUSTER_DOMAIN h in
  if String.eqb clusterDomain "" then
    let ingressConfig := newObject "config.openshift.io/v1" "Ingress" in
    let! (err, ingressConfig) := Get ingressKey ingressConfig in
    let! clusterDomain :=
      match err with
      | None =>
          match NestedString ingressConfig ["spec"; "domain"] with
          | Some domain => do! logInfo "Detected cluster domain" in ret domain
          | None => ret clusterDomain
          end
      | Some _ => ret clusterDomain
      end in
    if String.eqb clusterDomain "" then
      do! logInfo "Using default cluster domain" in ret "apps.example.com"
    else ret clusterDomain
  else ret clusterDomain.

(** The second half: the two [strings.ReplaceAll] calls. *)
Definition replaceClusterDomain (content clusterDomain : string) : string :=
  let content := GoStrings.ReplaceAll content "${CLUSTER_DOMAIN}" clusterDomain in
  GoStrings.ReplaceAll content "$CLUSTER_DOMAIN" clusterDomain.

Definition substituteEnvVars (h : Host) (content : string) : M string :=
  let! clusterDomain := clusterDomain h in
  ret (replaceClusterDomain content clusterDomain).

Definition namespaceObject (ns : string) : Unstructured :=
  SetName ns (newObject "v1" "Namespace").

(** The loop of [ensureNamespaces]. *)
Fixpoint ensureEach (requiredNamespaces : list string) : M (option error) :=
  match requiredNamespaces with
  | [] => ret None
  | ns :: rest =>
      let namespace := namespaceObject ns in
      let! (err, namespace) := Get ("v1", "Namespace", "", ns) namespace in
      match err with
      | None => ensureEach rest
      | Some e =>
          if IsNotFound e then
            let! err := Create namespace in
            match err with
            | Some e => ret (Some (Wrapped ("failed to create namespace " +:+ ns) e))
            | None => do! logInfo "Created namespace" in ensureEach rest
            end
          else ret (Some (Wrapped ("failed to check namespace " +:+ ns) e))
      end
  end.

Definition ensureNamespaces : M (option error) :=
  ensureEach ["maas-api"; "kuadrant-system"].

Definition applyUnstructured (obj : Unstructured) : M (option error) :=
  let current := newObject (apiVersion obj) (kind obj) in
  let key := keyOf obj in
  let! (err, current) := Get key current in
  match err with
  | Some e => if IsNotFound e then Create obj else ret (Some e)
  | None => Update (SetResourceVersion (resourceVersion current) obj)
  end.

(** The owner-reference step of [deployEmbeddedManifest]: the object as it
    goes on to [applyUnstructured]. *)
Definition setOwner (h : Host) (maasPlatform : MaasPlatform) (obj : Unstructured)
  : M Unstructured :=
  if negb (String.eqb (namespace obj) "")
     && String.eqb (namespace obj) (platformNamespace maasPlatform)
  then
    match SetControllerReference h maasPlatform obj with
    | inl _ => do! logInfo "Failed to set owner reference, continuing anyway" in ret obj
    | inr obj => ret obj
    end
  else if negb (String.eqb (namespace obj) "")
  then do! logDebug "Skipping owner reference for cross-namespace resource" in ret obj
  else ret obj.

(** The [for _, doc := range documents] loop of [deployEmbeddedManifest]. *)
Fixpoint deployDocuments (h : Host) (maasPlatform : MaasPlatform) (skipConfigMap : bool)
    (documents : list bytes) : M (option error) :=
  match documents with
  | [] => ret None
  | doc :: rest =>
      let continue := deployDocuments h maasPlatform skipConfigMap rest in
      if (length doc =? 0)%nat then continue
      else
        match yamlUnmarshal h doc with
        | None =>
            do! logInfo "Skipping non-Kubernetes resource (failed to unmarshal)" in continue
        | Some obj =>
            if skipConfigMap && String.eqb (kind obj) "ConfigMap"
               && String.eqb (name obj) "tier-to-group-mapping"
            then
              do! logInfo "Skipping tier-to-group-mapping ConfigMap (managed by Tier controller)" in
              continue
            else
              let apply :=
                let! obj := setOwner h maasPlatform obj in
                let! err := applyUnstructured obj in
                match err with
                | Some e =>
                    ret (Some (Wrapped ("failed to apply resource " +:+ kind obj +:+ "/"
                                        +:+ name obj) e))
                | None => do! logInfo "Successfully deployed resource" in continue
                end in
              if String.eqb (kind obj) "PersistentVolumeClaim" then
                let existing := newObject (apiVersion obj) (kind obj) in
                let! (err, existing) := Get (keyOf obj) existing in
                match err with
                | None =>
                    do! logInfo "PersistentVolumeClaim already exists, skipping update (PVCs are immutable)" in
                    continue
                | Some e =>
                    if IsNotFound e then apply
                    else ret (Some (Wrapped ("failed to check existing PVC "
                                             +:+ namespace obj +:+ "/" +:+ name obj) e))
                end
              else apply
        end
  end.

Definition deployEmbeddedManifest (h : Host) (path : string) (maasPlatform : MaasPlatform)
    (skipConfigMap : bool) : M (option error) :=
  match manifestsFS h path with
  | None =>
      ret (Some (Wrapped ("failed to read embedded manifest " +:+ path)
                   (Failure "file does not exist")))
  | Some data =>
      let dataStr := String.string_of_list_byte data in
      let! dataStr := substituteEnvVars h dataStr in
      let data := String.list_byte_of_string dataStr in
      match splitYAMLDocuments data with
      | (_, Some err) => ret (Some (Wrapped "failed to parse YAML" err))
      | (documents, None) => deployDocuments h maasPlatform skipConfigMap documents
      end
  end.

Definition updateStatus (maasPlatform : MaasPlatform) : M (option error) :=
  StatusUpdate maasPlatform.

(** [MaasPlatformReconciler.Reconcile] for the request [(ns, n)]. *)
Definition MaasPlatformReconcile (h : Host) (ns n : string) : M (option error) :=
  let! maasPlatform := GetPlatform ns n in
  match maasPlatform with
  | inl err =>
      if IsNotFound err then
        do! logInfo "MaasPlatform resource not found. Ignoring since object must be deleted" in
        ret None
      else do! logError err "Failed to get MaasPlatform" in ret (Some err)
  | inr maasPlatform =>
      do! logInfo "Ensuring required namespaces exist" in
      let! err := ensureNamespaces in
      match err with
      | Some err => do! logError err "Failed to create required namespaces" in ret (Some err)
      | None =>
      do! logInfo "Deploying maas-api resources" in
      let! err := deployEmbeddedManifest h "manifests/maas-api/resources.yaml" maasPlatform true in
      match err with
      | Some err => do! logError err "Failed to deploy maas-api resources" in ret (Some err)
      | None =>
      do! logInfo "Deploying networking resources" in
      let! err := deployEmbeddedManifest h "manifests/networking/resources.yaml" maasPlatform false in
      match err with
      | Some err => do! logError err "Failed to deploy networking resources" in ret (Some err)
      | None =>
      do! logInfo "Deploying gateway-auth-policy" in
      let! err := deployEmbeddedManifest h "manifests/policies/gateway-auth-policy.yaml" maasPlatform false in
      match err with
      | Some err => do! logError err "Failed to deploy gateway-auth-policy" in ret (Some err)
      | None =>
      let! err := updateStatus maasPlatform in
      match err with
      | Some err => do! logError err "Failed to update status" in ret (Some err)
      | None => ret None
      end end end end end
  end.

(** ** Specification vocabulary *)

(** [touches key e]: the event is a client call on the object [key]. *)
Definition touches (key : ObjectKey) (e : Event) : Prop :=
  match e with
  | EGet k => k = key
  | ECreate o | EUpdate o => keyOf o = key
  | _ => False
  end.

(** [writes key e]: the event is a create or update call on the object [key]. *)
Definition writes (key : ObjectKey) (e : Event) : Prop :=
  match e with
  | ECreate o | EUpdate o => keyOf o = key
  | _ => False
  end.

Definition isLog (e : Event) : Prop :=
  match e with
  | ELogInfo _ | ELogDebug _ | ELogError _ _ => True
  | _ => False
  end.

(** [extends P w w']: [w'] has the trace of [w] followed by events that all
    satisfy [P]. *)
Definition extends (P : Event → Prop) (w w' : World) : Prop :=
  ∃ evs, trace w' = trace w ++ evs ∧ Forall P evs.

(** [emits P Q m]: from every world, the events [m] adds all satisfy [P],
    and its result satisfies [Q]. *)
Definition emits {A} (P : Event → Prop) (Q : A → Prop) (m : M A) : Prop :=
  ∀ w, extends P w (snd (m w)) ∧ Q (fst (m w)).

Definition any {A} : A → Prop := λ _, True.

(** [hoare Pre m Post]: from a world satisfying [Pre], the result of [m] and
    the world it leaves satisfy [Post]. *)
Definition hoare {A} (Pre : World → Prop) (m : M A) (Post : A → World → Prop) : Prop :=
  ∀ w, Pre w → Post (fst (m w)) (snd (m w)).

(** Steps run in order up to the first one that returns an error, which is
    the result; the steps after it are not run. *)
Fixpoint runUntilFailure (steps : list (M (option error))) : M (option error) :=
  match steps with
  | [] => ret None
  | step :: rest =>
      let! err := step in
      match err with
      | Some err => ret (Some err)
      | None => runUntilFailure rest
      end
  end.

(** A step with the error line the caller logs when it fails. *)
Definition logged (msg : string) (step : M (option error)) : M (option error) :=
  let! err := step in
  match err with
  | Some err => do! logError err msg in ret (Some err)
  | None => ret None
  end.

(** The pass of [reconcileMaasPlatformTiers] over a non-empty set of matching
    tiers: the three updates, each with the line logged when it fails. *)
Definition tierSteps (targetTiers : list Tier) (maasPlatform : MaasPlatform)
  : list (M (option error)) :=
  [ logged "Failed to update tier ConfigMap" (updateTierConfigMap targetTiers maasPlatform);
    logged "Failed to update RateLimitPolicy" (updateRateLimitPolicy targetTiers maasPlatform);
    logged "Failed to update TokenRateLimitPolicy"
      (updateTokenRateLimitPolicy targetTiers maasPlatform) ].

(** [RecomputedEach items w w']: from [w], the pass of
    [reconcileMaasPlatformTiers] was run for every platform of [items] in
    turn, the pass for the next one after a failed pass too, and left [w']. *)
Inductive RecomputedEach : list MaasPlatform → World → World → Prop :=
| RecomputedEach_nil w : RecomputedEach [] w w
| RecomputedEach_ok mp rest w w1 w' :
    reconcileMaasPlatformTiers mp w = (None, w1) →
    RecomputedEach rest w1 w' →
    RecomputedEach (mp :: rest) w w'
| RecomputedEach_failed mp rest w err w1 w' :
    reconcileMaasPlatformTiers mp w = (Some err, w1) →
    RecomputedEach rest (logError err "Failed to reconcile Tiers for MaasPlatform" w1).2 w' →
    RecomputedEach (mp :: rest) w w'.

(** The tier of name [k] that has the last word on the entry [k] of a
    limits map: the last one in list order among those with a config. *)
Definition lastNamed (hasConfig : Tier → bool) (k : string) (tiers : list Tier) : option Tier :=
  List.find (λ t, String.eqb (tierNameOf t) k && hasConfig t) (rev tiers).

Definition hasRateLimits (t : Tier) : bool :=
  match RateLimits (Spec t) with Some _ => true | None => false end.

Definition hasTokenRateLimits (t : Tier) : bool :=
  match TokenRateLimits (Spec t) with Some _ => true | None => false end.

(** The entries of one tier, as the two loops compute them. *)
Definition rateLimitOf (t : Tier) : option Value :=
  match RateLimits (Spec t) with
  | Some cfg => Some (tierLimit (rateLimit cfg) (rateWindow cfg) (rateCounters cfg) (tierNameOf t))
  | None => None
  end.

Definition tokenRateLimitOf (t : Tier) : option Value :=
  match TokenRateLimits (Spec t) with
  | Some cfg => Some (tierLimit (tokenLimit cfg) (tokenWindow cfg) (tokenCounters cfg) (tierNameOf t))
  | None => None
  end.

(** *** The substitution the renderer is expected to make

    One pass over the template, left to right: a [${CLUSTER_DOMAIN}] or a
    bare [$CLUSTER_DOMAIN] met is replaced by the value, any other byte is
    copied. [skip] counts the bytes of a token still to be passed over. *)
Fixpoint expandFrom (value : string) (skip : nat) (s : string) : string :=
  match s with
  | EmptyString => EmptyString
  | String c rest =>
      match skip with
      | S skip' => expandFrom value skip' rest
      | O =>
          if GoStrings.HasPrefix s "${CLUSTER_DOMAIN}"
          then value +:+ expandFrom value 16 rest
          else if GoStrings.HasPrefix s "$CLUSTER_DOMAIN"
          then value +:+ expandFrom value 14 rest
          else String c (expandFrom value 0 rest)
      end
  end.

Definition expandClusterDomain (content value : string) : string :=
  expandFrom value 0 content.

Definition isDollar (c : Ascii.ascii) : bool := Ascii.eqb c (Ascii.ascii_of_nat 36).

Fixpoint allChars (p : Ascii.ascii → bool) (s : string) : bool :=
  match s with
  | EmptyString => true
  | String c rest => p c && allChars p rest
  end.

Fixpoint hasChar (c : Ascii.ascii) (s : string) : bool :=
  match s with
  | EmptyString => false
  | String d rest => Ascii.eqb c d || hasChar c rest
  end.

(** A value that cannot be taken for part of a token: it holds no [$], and
    it starts with a byte that does not occur in [CLUSTER_DOMAIN] (so it is
    not empty). Domain names in lower case are of this kind. *)
Definition plainValue (value : string) : bool :=
  allChars (λ c, negb (isDollar c)) value
  && match value with
     | EmptyString => false
     | String c _ => negb (hasChar c "CLUSTER_DOMAIN")
     end.

(** What the lookup of the cluster's ingress configuration gives for the
    domain: nothing when the call fails, when the object is not there and
    when it has no string at [spec.domain]. *)
Definition ingressDomain (w : World) : option string :=
  if hd false (faults w) then None
  else match objects (cluster w) !! ingressKey with
       | Some ingressConfig => NestedString ingressConfig ["spec"; "domain"]
       | None => None
       end.

(** The three manifest groups of [Reconcile], in the order it deploys
    them: each with the line logged before it and the line logged when it
    fails. *)
Definition groupSteps (h : Host) (maasPlatform : MaasPlatform) : list (M (option error)) :=
  [ logged "Failed to deploy maas-api resources"
      (do! logInfo "Deploying maas-api resources" in
       deployEmbeddedManifest h "manifests/maas-api/resources.yaml" maasPlatform true);
    logged "Failed to deploy networking resources"
      (do! logInfo "Deploying networking resources" in
       deployEmbeddedManifest h "manifests/networking/resources.yaml" maasPlatform false);
    logged "Failed to deploy gateway-auth-policy"
      (do! logInfo "Deploying gateway-auth-policy" in
       deployEmbeddedManifest h "manifests/policies/gateway-auth-policy.yaml" maasPlatform false) ].

(** The step before the groups and the step after them. *)
Definition namespacesStep : M (option error) :=
  logged "Failed to create required namespaces"
    (do! logInfo "Ensuring required namespaces exist" in ensureNamespaces).

Definition statusStep (maasPlatform : MaasPlatform) : M (option error) :=
  logged "Failed to update status" (updateStatus maasPlatform).

Definition isStatusUpdate (e : Event) : Prop :=
  match e with EStatusUpdate _ => True | _ => False end.

(** The object [setOwner] hands on, which does not depend on the cluster. *)
Definition ownedObject (h : Host) (maasPlatform : MaasPlatform) (obj : Unstructured)
  : Unstructured :=
  if negb (String.eqb (namespace obj) "")
     && String.eqb (namespace obj) (platformNamespace maasPlatform)
  then match SetControllerReference h maasPlatform obj with
       | inl _ => obj
       | inr owned => owned
       end
  else obj.

(** The owner reference [SetControllerReference] builds for a platform. *)
Definition controllerRef (apiVersion kind : string) (maasPlatform : MaasPlatform)
  : OwnerReference :=
  mkOwnerReference apiVersion kind (platformName maasPlatform) (platformUID maasPlatform)
    true true.

(** [rendered h maasPlatform o]: the object [o] of a create or update call
    is an object the YAML decoder gave for some document, with what the
    owner step and the carried-over resource version changed. Its identity,
    its labels and its content are the rendered ones. Its owner references
    are the rendered ones too, unless the object is in the platform's
    namespace and [SetControllerReference] went through, in which case they
    are the rendered ones with the platform's controller reference put in. *)
Definition rendered (h : Host) (maasPlatform : MaasPlatform) (o : Unstructured) : Prop :=
  ∃ doc obj,
    yamlUnmarshal h doc = Some obj
    ∧ keyOf o = keyOf obj
    ∧ labels o = labels obj
    ∧ content o = content obj
    ∧ (namespace obj = "" ∨ namespace obj ≠ platformNamespace maasPlatform →
       ownerReferences o = ownerReferences obj)
    ∧ (namespace obj ≠ "" → namespace obj = platformNamespace maasPlatform →
       match SetControllerReference h maasPlatform obj, schemeGVK h with
       | inr _, Some (apiVersion, kind) =>
           ownerReferences o
           = upsertOwnerRef (controllerRef apiVersion kind maasPlatform) (ownerReferences obj)
           ∧ controllerRef apiVersion kind maasPlatform ∈ ownerReferences o
       | _, _ => ownerReferences o = ownerReferences obj
       end).

Definition writesRendered (h : Host) (maasPlatform : MaasPlatform) (e : Event) : Prop :=
  match e with
  | ECreate o | EUpdate o => rendered h maasPlatform o
  | _ => True
  end.

(** The invariant of a render pass for a claim [key] found as [stored] in
    the world [w0]: the claim is in the cluster as it was found, and no
    create or update call was made on it. *)
Definition claimKept (key : ObjectKey) (stored : Unstructured) (w0 w : World) : Prop :=
  objects (cluster w) !! key = Some stored ∧ extends (λ e, ¬ writes key e) w0 w.

Fixpoint dropString (n : nat) (s : string) : string :=
  match n, s with
  | O, _ => s
  | S n', String _ rest => dropString n' rest
  | S _, EmptyString => EmptyString
  end.

(** ** Example clusters *)

Module Examples.

Definition platform : MaasPlatform := mkMaasPlatform "maas" "maas-system" "uid-1".
Definition otherPlatform : MaasPlatform := mkMaasPlatform "other" "team-b" "uid-2".

(** The tiers of the aggregation scenario: A with a request limit, B with
    a request and a token limit. *)
Definition tierA : Tier :=
  mkTier "A" "maas-system" ""
    (mkTierSpec (mkTargetRef "maas" "") (Some (mkRateLimit 5 "2m" [])) None []).
Definition tierB : Tier :=
  mkTier "B" "maas-system" ""
    (mkTierSpec (mkTargetRef "maas" "") (Some (mkRateLimit 20 "2m" []))
       (Some (mkTokenRateLimit 50000 "1m" [])) []).

(** Two tiers of one name in two namespaces, both targeting [platform]. *)
Definition goldHere : Tier :=
  mkTier "gold" "maas-system" ""
    (mkTierSpec (mkTargetRef "maas" "") (Some (mkRateLimit 10 "1m" [])) None []).
Definition goldThere : Tier :=
  mkTier "gold" "team-b" ""
    (mkTierSpec (mkTargetRef "maas" "maas-system") (Some (mkRateLimit 99 "1h" [])) None []).

Definition clusterAB : Cluster := mkCluster [platform; otherPlatform] [tierA; tierB] ∅.

(** The call that lists the tiers goes through, the next one (the read of
    the tier ConfigMap) fails. *)
Definition worldConfigMapDown : World := mkWorld clusterAB [false; true] [].

(** Tier [gone] was deleted; of the calls that follow, the read of the
    tier ConfigMap in the pass for the first platform fails. *)
Definition worldTierDeleted : World :=
  mkWorld clusterAB [false; false; false; true] [].

(** Rendered objects: a Service and a PersistentVolumeClaim in the
    namespace [maas-api], a ConfigMap in the platform's own namespace. *)
Definition service : Unstructured :=
  mkUnstructured "v1" "Service" "maas-api" "maas-api" ∅ [] 0 ∅.
Definition claim : Unstructured :=
  mkUnstructured "v1" "PersistentVolumeClaim" "maas-api" "model-cache" ∅ [] 0 ∅.
Definition settings : Unstructured :=
  mkUnstructured "v1" "ConfigMap" "maas-system" "settings" ∅ [] 0 ∅.

Definition serviceDoc : string := "kind: Service" +:+ LF.
Definition claimDoc : string := "kind: PersistentVolumeClaim" +:+ LF.
Definition settingsDoc : string := "kind: ConfigMap" +:+ LF.

Fixpoint eqBytes (a b : bytes) : bool :=
  match a, b with
  | [], [] => true
  | x :: a', y :: b' => Byte.eqb x y && eqBytes a' b'
  | _, _ => false
  end.

(** A YAML decoder that knows the three documents. *)
Definition decode (doc : bytes) : option Unstructured :=
  if eqBytes doc (lit serviceDoc) then Some service
  else if eqBytes doc (lit claimDoc) then Some claim
  else if eqBytes doc (lit settingsDoc) then Some settings
  else None.

(** The embedded manifests: the Service and the claim in the first group,
    the ConfigMap in the second, nothing in the third. *)
Definition manifests (path : string) : option bytes :=
  if String.eqb path "manifests/maas-api/resources.yaml"
  then Some (lit (serviceDoc +:+ "---" +:+ LF +:+ claimDoc))
  else if String.eqb path "manifests/networking/resources.yaml"
  then Some (lit settingsDoc)
  else if String.eqb path "manifests/policies/gateway-auth-policy.yaml"
  then Some []
  else None.

Definition host : Host :=
  mkHost manifests "" decode (Some ("myapp.io.odh.maas/v1alpha1", "MaasPlatform")).

(** A cluster with the platform, in which the claim exists already. *)
Definition storedClaim : Unstructured :=
  mkUnstructured "v1" "PersistentVolumeClaim" "maas-api" "model-cache"
    {[ "bound" := "yes" ]} [] 7 ∅.

Definition clusterWithClaim : Cluster :=
  mkCluster [platform] [] {[ keyOf claim := storedClaim ]}.

(** A host without manifests whose [CLUSTER_DOMAIN] is [domain]. *)
Definition hostWithDomain (domain : string) : Host :=
  mkHost (λ _, None) domain (λ _, None) (Some ("myapp.io.odh.maas/v1alpha1", "MaasPlatform")).

Definition emptyWorld : World := mkWorld (mkCluster [] [] ∅) [] [].

End Examples.

(** ** What a call changes *)

(** [journaled m]: whatever the world, [m] leaves the platforms and the
    tiers of the cluster alone, removes no object, and changes an object
    only by create or update calls on its key, which the trace records. *)
Definition journaled {A} (m : M A) : Prop :=
  ∀ w, ∃ evs,
    trace (m w).2 = trace w ++ evs
    ∧ platforms (cluster (m w).2) = platforms (cluster w)
    ∧ tiers (cluster (m w).2) = tiers (cluster w)
    ∧ (∀ k, Forall (λ e, ¬ writes k e) evs →
            objects (cluster (m w).2) !! k = objects (cluster w) !! k)
    ∧ (∀ k, is_Some (objects (cluster w) !! k) →
            is_Some (objects (cluster (m w).2) !! k)).

(** The three artifacts of the Tier controller. *)
Definition isArtifact (k : ObjectKey) : Prop :=
  k = configMapKey ∨ k = rateLimitPolicyKey ∨ k = tokenRateLimitPolicyKey.

(** The calls and log lines of the Tier controller: reads of tiers and
    platforms, and calls on the three artifacts. *)
Definition tierEvent (e : Event) : Prop :=
  match e with
  | EGet k => isArtifact k
  | ECreate o | EUpdate o => isArtifact (keyOf o)
  | EStatusUpdate _ => False
  | _ => True
  end.


(** ** The order of the tier mapping *)

(** [nameLe t u]: the name of [t] is not after the name of [u], in the
    order [<] has on Go strings (byte by byte). *)
Definition nameLe (t u : Tier) : Prop := String.ltb (tierName u) (tierName t) = false.

(** ** The artifacts a pass leaves *)

(** The tier ConfigMap [updateTierConfigMap] builds when there is none. *)
Definition newTierConfigMap (tiers : list Tier) (maasPlatform : MaasPlatform) : Unstructured :=
  mkUnstructured "v1" "ConfigMap" "maas-api" "tier-to-group-mapping"
    (if (0 <? length tiers)%nat then tierConfigMapLabels maasPlatform ∅ else ∅) [] 0
    {[ "data" := VMap {[ "tiers" := VString (tierMappings tiers) ]} ]}.

(** The policy the two policy functions build when there is none. *)
Definition newPolicy (key : ObjectKey) (limits : gmap string Value) : Unstructured :=
  let '(apiVersion, kind, namespace, name) := key in
  mkUnstructured apiVersion kind namespace name ∅ [] 0 {[ "spec" := VMap (policySpec limits) ]}.

(** What a pass in which all calls go through leaves of an artifact for
    which it built [desired]: [desired] when [found] is nothing, and
    otherwise the object found, under the next resource version. *)
Definition artifactLeft (key : ObjectKey) (desired : Unstructured)
    (found : option Unstructured) : Unstructured :=
  match found with
  | None => SetResourceVersion 1 desired
  | Some stored => SetResourceVersion (S (resourceVersion stored)) (withIdentity key stored)
  end.

(** The world after the two reads of an artifact and the create or update
    that follows, all going through. *)
Definition artifactWritten (key : ObjectKey) (desired : Unstructured) (what : string)
    (w : World) : World :=
  mkWorld
    (mkCluster (platforms (cluster w)) (tiers (cluster w))
       (<[key := artifactLeft key desired (objects (cluster w) !! key)]> (objects (cluster w))))
    []
    (trace w
     ++ [EGet key; EGet key;
         match objects (cluster w) !! key with
         | None => ECreate desired
         | Some stored => EUpdate (withIdentity key stored)
         end;
         ELogInfo ((match objects (cluster w) !! key with
                    | None => "Created "
                    | Some _ => "Updated "
                    end) +:+ what)]).


(** ** The MaasPlatform controller: what it writes *)

Definition namespaceKey (ns : string) : ObjectKey := ("v1", "Namespace", "", ns).

(** The ConfigMap the Tier controller keeps, in whatever namespace. *)
Definition isTierConfigMap (o : Unstructured) : Prop :=
  kind o = "ConfigMap" ∧ name o = "tier-to-group-mapping".

Definition sparesTierConfigMap (e : Event) : Prop :=
  match e with
  | ECreate o | EUpdate o => ¬ isTierConfigMap o
  | _ => True
  end.

Definition present (k : ObjectKey) (w : World) : Prop :=
  is_Some (objects (cluster w) !! k).

(** A document the loop of [deployEmbeddedManifest] deploys as [obj]: one
    that is not empty, decodes to [obj], and is not the ConfigMap left
    out. *)
Definition deploys (h : Host) (skipConfigMap : bool) (doc : bytes) (obj : Unstructured) : Prop :=
  doc ≠ [] ∧ yamlUnmarshal h doc = Some obj ∧ ¬ (skipConfigMap = true ∧ isTierConfigMap obj).

(** The documents of a manifest group as they come to the loop: the
    manifest with the cluster domain put in, split. *)
Definition documentsOf (data : bytes) (clusterDomain : string) : list bytes :=
  fst (splitYAMLDocuments
         (String.list_byte_of_string
            (replaceClusterDomain (String.string_of_list_byte data) clusterDomain))).

(** The objects [Reconcile] of the MaasPlatform controller writes: the
    rendered ones and the two namespaces. *)
Definition reconcileWrite (h : Host) (o : Unstructured) : Prop :=
  (∃ maasPlatform, rendered h maasPlatform o)
  ∨ o = namespaceObject "maas-api" ∨ o = namespaceObject "kuadrant-system".

Definition reconcileEvent (h : Host) (e : Event) : Prop :=
  match e with
  | ECreate o | EUpdate o => reconcileWrite h o
  | _ => True
  end.


(** ** Manifests written as documents *)

(** Documents put together into one manifest, a line [---] between them. *)
Fixpoint joinDocuments (docs : list bytes) : bytes :=
  match docs with
  | [] => []
  | [d] => d
  | d :: rest => d ++ lit "---" ++ nl :: joinDocuments rest
  end.

(** Documents that can be put together: each is well formed, and each but
    the last ends its last line. *)
Fixpoint joinable (docs : list bytes) : Prop :=
  match docs with
  | [] => True
  | [d] => wellFormedDoc d
  | d :: rest => wellFormedDoc d ∧ endsLine d ∧ joinable rest
  end.


(** ** The MaasPlatform controller that deploys from files on disk

    The earlier version of [maasplatform_controller.go] reads its manifests
    from a directory tree instead of the embedded file system. *)

Module OnDisk.

(** What this version is given besides the client and the [Host]: the
    environment variable [MAAS_DEPLOYMENT_BASE], the file system as [os.Stat]
    (the error, or whether the path is a directory), [os.ReadFile] and
    [os.ReadDir] (the name of each entry and whether it is a directory) see
    it, [filepath.Join], and [yaml.Unmarshal] into the struct with the
    [resources] of a kustomization. *)
Record Disk := mkDisk {
  MAAS_DEPLOYMENT_BASE : string;
  Stat : string → error + bool;
  ReadFile : string → error + bytes;
  ReadDir : string → error + list (string * bool);
  Join : list string → string;
  kustomizationResources : bytes → error + list string
}.

(** What a call gives: what it returns, or no return at all when the
    recursion through the directories does not end within the fuel. *)
Inductive Outcome :=
| Returned (err : option error)
| OutOfFuel.

(** The bytes of a path, last first. *)
Fixpoint reversed (s : string) (acc : list Ascii.ascii) : list Ascii.ascii :=
  match s with
  | EmptyString => acc
  | String c rest => reversed rest (c :: acc)
  end.

(** The loop of [filepath.Ext], from the last byte down: it stops at a path
    separator with nothing, at a dot with the dot and what is after it. *)
Fixpoint extScan (before : list Ascii.ascii) (after : string) : string :=
  match before with
  | [] => ""
  | c :: before' =>
      if Ascii.eqb c (Ascii.ascii_of_nat 47) then ""
      else if Ascii.eqb c (Ascii.ascii_of_nat 46) then String c after
      else extScan before' (String c after)
  end.

(** [filepath.Ext]. *)
Definition Ext (path : string) : string := extScan (reversed path []) "".

(** The path a position of the scan stands for: the bytes before it, which
    are held last first, and the bytes after it. *)
Fixpoint unreversed (before : list Ascii.ascii) (after : string) : string :=
  match before with
  | [] => after
  | c :: before' => unreversed before' (String c after)
  end.

(** The loop of [deploySingleResource] over the documents of a file. *)
Fixpoint deployDocuments (h : Host) (maasPlatform : MaasPlatform) (skipCM : bool)
    (documents : list bytes) : M (option error) :=
  match documents with
  | [] => ret None
  | doc :: rest =>
      let continue := deployDocuments h maasPlatform skipCM rest in
      if (length doc =? 0)%nat then continue
      else
        match yamlUnmarshal h doc with
        | None =>
            do! logInfo "Skipping non-Kubernetes resource (failed to unmarshal)" in continue
        | Some obj =>
            if skipCM && String.eqb (kind obj) "ConfigMap"
               && String.eqb (name obj) "tier-to-group-mapping"
            then
              do! logInfo "Skipping tier-to-group-mapping ConfigMap (managed by Tier controller)" in
              continue
            else
              let! obj :=
                match SetControllerReference h maasPlatform obj with
                | inl _ =>
                    do! logInfo "Failed to set owner reference, continuing anyway" in ret obj
                | inr obj => ret obj
                end in
              let! err := applyUnstructured obj in
              match err with
              | Some e =>
                  ret (Some (Wrapped ("failed to apply resource " +:+ kind obj +:+ "/"
                                      +:+ name obj) e))
              | None => do! logInfo "Successfully deployed resource" in continue
              end
        end
  end.

(** [deploySingleResource]; [skipConfigMap] is the variadic argument. *)
Definition deploySingleResource (d : Disk) (h : Host) (filePath : string)
    (maasPlatform : MaasPlatform) (skipConfigMap : list bool) : M (option error) :=
  match ReadFile d filePath with
  | inl err => ret (Some (Wrapped "failed to read file" err))
  | inr data =>
      match splitYAMLDocuments data with
      | (_, Some err) => ret (Some (Wrapped "failed to parse YAML" err))
      | (documents, None) =>
          let skipCM := (0 <? length skipConfigMap)%nat && hd false skipConfigMap in
          deployDocuments h maasPlatform skipCM documents
      end
  end.

(** The loop of [deployDirectoryYAMLs] over the entries of a directory. *)
Fixpoint deployEntries (d : Disk) (h : Host) (dir : string) (maasPlatform : MaasPlatform)
    (skipConfigMap : bool) (entries : list (string * bool)) : M unit :=
  match entries with
  | [] => ret tt
  | (entryName, entryIsDir) :: rest =>
      let continue := deployEntries d h dir maasPlatform skipConfigMap rest in
      if entryIsDir || negb (String.eqb (Ext entryName) ".yaml") then continue
      else
        let filePath := Join d [dir; entryName] in
        let! err := deploySingleResource d h filePath maasPlatform [skipConfigMap] in
        do! match err with
            | Some err => logError err "Failed to deploy YAML file"
            | None => ret tt
            end in
        continue
  end.

Definition deployDirectoryYAMLs (d : Disk) (h : Host) (dir : string)
    (maasPlatform : MaasPlatform) (skipConfigMap : bool) : M (option error) :=
  match ReadDir d dir with
  | inl err => ret (Some (Wrapped "failed to read directory" err))
  | inr entries => do! deployEntries d h dir maasPlatform skipConfigMap entries in ret None
  end.

(** The loop of [deployKustomizeDirectory] over the resources of the
    kustomization; [deployResourcesFromPath] is the function it calls for a
    resource that is a directory. *)
Fixpoint deployEachResource (deployResourcesFromPath : string → M Outcome)
    (d : Disk) (h : Host) (path : string) (maasPlatform : MaasPlatform)
    (skipConfigMap : bool) (resources : list string) : M Outcome :=
  match resources with
  | [] => ret (Returned None)
  | resource :: rest =>
      let continue :=
        deployEachResource deployResourcesFromPath d h path maasPlatform skipConfigMap rest in
      let resourcePath := Join d [path; resource] in
      match Stat d resourcePath with
      | inl _ => do! logInfo "Resource path does not exist, skipping" in continue
      | inr isDir =>
          if (isDir : bool) then
            let! outcome := deployResourcesFromPath resourcePath in
            match outcome with
            | OutOfFuel => ret OutOfFuel
            | Returned (Some err) => do! logError err "Failed to deploy resource" in continue
            | Returned None => continue
            end
          else
            let! err := deploySingleResource d h resourcePath maasPlatform [skipConfigMap] in
            do! match err with
                | Some err => logError err "Failed to deploy resource"
                | None => ret tt
                end in
            continue
      end
  end.

Definition deployKustomizeDirectory (deployResourcesFromPath : string → M Outcome)
    (d : Disk) (h : Host) (path : string) (maasPlatform : MaasPlatform)
    (skipConfigMap : bool) : M Outcome :=
  let kustomizationPath := Join d [path; "kustomization.yaml"] in
  match ReadFile d kustomizationPath with
  | inl err => ret (Returned (Some (Wrapped "failed to read kustomization.yaml" err)))
  | inr data =>
      match kustomizationResources d data with
      | inl err => ret (Returned (Some (Wrapped "failed to parse kustomization.yaml" err)))
      | inr resources =>
          deployEachResource deployResourcesFromPath d h path maasPlatform skipConfigMap
            resources
      end
  end.

(** [deployResourcesFromPath], which calls [deployKustomizeDirectory], which
    calls it again for the directories among the resources; [fuel] bounds
    the depth of these calls. *)
Fixpoint deployResourcesFromPath (fuel : nat) (d : Disk) (h : Host) (path : string)
    (maasPlatform : MaasPlatform) (skipConfigMap : bool) : M Outcome :=
  match fuel with
  | O => ret OutOfFuel
  | S fuel' =>
      match Stat d path with
      | inl err => ret (Returned (Some (Wrapped "path does not exist" err)))
      | inr isDir =>
          if negb isDir then
            let! err := deploySingleResource d h path maasPlatform [skipConfigMap] in
            ret (Returned err)
          else
            let kustomizationPath := Join d [path; "kustomization.yaml"] in
            match Stat d kustomizationPath with
            | inr _ =>
                deployKustomizeDirectory
                  (λ path, deployResourcesFromPath fuel' d h path maasPlatform skipConfigMap)
                  d h path maasPlatform skipConfigMap
            | inl _ =>
                let! err := deployDirectoryYAMLs d h path maasPlatform skipConfigMap in
                ret (Returned err)
            end
      end
  end.

(** The directory [Reconcile] deploys from: [MAAS_DEPLOYMENT_BASE] when it
    is set, else the first of three places that is a directory, else the
    empty string. *)
Definition possiblePaths (d : Disk) : list string :=
  [ Join d [".."; "maas-billing"; "deployment"; "base"];
    Join d [".."; ".."; ".."; "maas-billing"; "deployment"; "base"];
    Join d ["."; "maas-billing"; "deployment"; "base"] ].

Fixpoint firstDirectory (d : Disk) (paths : list string) : string :=
  match paths with
  | [] => ""
  | path :: rest =>
      match Stat d path with
      | inr true => path
      | _ => firstDirectory d rest
      end
  end.

Definition deploymentBase (d : Disk) : string :=
  if String.eqb (MAAS_DEPLOYMENT_BASE d) "" then firstDirectory d (possiblePaths d)
  else MAAS_DEPLOYMENT_BASE d.

Definition noDeploymentBase : error :=
  Failure "cannot find deployment base directory. Set MAAS_DEPLOYMENT_BASE environment variable or ensure maas-billing/deployment/base exists relative to operator".

(** [MaasPlatformReconciler.Reconcile] of this version. *)
Definition Reconcile (fuel : nat) (d : Disk) (h : Host) (ns n : string) : M Outcome :=
  let! maasPlatform := GetPlatform ns n in
  match maasPlatform with
  | inl err =>
      if IsNotFound err then
        do! logInfo "MaasPlatform resource not found. Ignoring since object must be deleted" in
        ret (Returned None)
      else do! logError err "Failed to get MaasPlatform" in ret (Returned (Some err))
  | inr maasPlatform =>
      let deploymentBase := deploymentBase d in
      if String.eqb deploymentBase "" then
        ret (Returned (Some noDeploymentBase))
      else
      do! logInfo "Deploying maas-api resources" in
      let maasApiPath := Join d [deploymentBase; "maas-api"] in
      let! outcome := deployResourcesFromPath fuel d h maasApiPath maasPlatform true in
      match outcome with
      | OutOfFuel => ret OutOfFuel
      | Returned (Some err) =>
          do! logError err "Failed to deploy maas-api resources" in ret (Returned (Some err))
      | Returned None =>
      do! logInfo "Deploying networking resources" in
      let networkingPath := Join d [deploymentBase; "networking"] in
      let! outcome := deployResourcesFromPath fuel d h networkingPath maasPlatform false in
      match outcome with
      | OutOfFuel => ret OutOfFuel
      | Returned (Some err) =>
          do! logError err "Failed to deploy networking resources" in ret (Returned (Some err))
      | Returned None =>
      do! logInfo "Deploying gateway-auth-policy" in
      let policyPath := Join d [deploymentBase; "policies"; "gateway-auth-policy.yaml"] in
      let! err := deploySingleResource d h policyPath maasPlatform [] in
      match err with
      | Some err =>
          do! logError err "Failed to deploy gateway-auth-policy" in ret (Returned (Some err))
      | None =>
      let! err := updateStatus maasPlatform in
      match err with
      | Some err => do! logError err "Failed to update status" in ret (Returned (Some err))
      | None => ret (Returned None)
      end end end end
  end.

End OnDisk.

(** ** An example disk *)

Module DiskExamples.

(** A directory [base] whose kustomization lists the directory itself. *)
Definition selfListed : OnDisk.Disk :=
  OnDisk.mkDisk "base"
    (λ path, if String.eqb path "base" then inr true
             else if String.eqb path "base/kustomization.yaml" then inr false
             else inl NotFound)
    (λ path, if String.eqb path "base/kustomization.yaml" then inr (lit "resources: [.]")
             else inl NotFound)
    (λ _, inl NotFound)
    (λ elems, match elems with
              | [dir; entry] => if String.eqb entry "." then dir else dir +:+ "/" +:+ entry
              | _ => ""
              end)
    (λ _, inr ["."]).

End DiskExamples.

(** * Theorems *)

(** ** The document splitter *)

Lemma splitLoop_documents lines cur docs :
  fst (splitLoop lines cur docs) = docs ++ fst (splitLoop lines cur [])
  ∧ snd (splitLoop lines cur docs) = snd (splitLoop lines cur []).
Proof.
  revert cur docs. induction lines as [|line rest IH]; intros cur docs; simpl.
  - by rewrite app_nil_r.
  - destruct (isSeparator line && (0 <? length cur)%nat).
    + destruct (IH [] (docs ++ [cur])) as [-> ->].
      destruct (IH [] [cur]) as [-> ->].
      by rewrite app_assoc.
    + apply IH.
Qed.

Lemma splitLoop_nonempty lines cur docs :
  Forall (λ d, d ≠ []) docs →
  Forall (λ d, d ≠ []) (fst (splitLoop lines cur docs)).
Proof.
  revert cur docs. induction lines as [|line rest IH]; intros cur docs Hd; simpl.
  - done.
  - destruct (isSeparator line && (0 <? length cur)%nat) eqn:E.
    + apply IH. apply Forall_app; split; [done|].
      apply Forall_singleton. apply andb_true_iff in E as [_ E].
      apply Nat.ltb_lt in E. intros ->. simpl in E. lia.
    + by apply IH.
Qed.

(** C10: [splitYAMLDocuments] returns a nil error on every input, and no
    block of its result is empty. *)
Theorem splitYAMLDocuments_total_nonempty (data : bytes) :
  snd (splitYAMLDocuments data) = None
  ∧ Forall (λ doc, doc ≠ []) (fst (splitYAMLDocuments data)).
Proof.
  unfold splitYAMLDocuments.
  pose proof (splitLoop_nonempty (Split data nl) [] [] (Forall_nil_2 _)) as H.
  destruct (splitLoop (Split data nl) [] []) as [docs cur]; simpl in *.
  split; [done|].
  destruct (0 <? length cur)%nat eqn:E; [|done].
  apply Forall_app; split; [done|]. apply Forall_singleton.
  apply Nat.ltb_lt in E. intros ->. simpl in E. lia.
Qed.

(** *** The splitter against [Documents] *)

Lemma byte_eqb_refl (b : byte) : Byte.eqb b b = true.
Proof. by apply Byte.byte_dec_lb. Qed.

Lemma Split_not_nil s sep : Split s sep ≠ [].
Proof.
  destruct s as [|b r]; simpl; [done|].
  destruct (Byte.eqb b sep); [done|]. by destruct (Split r sep).
Qed.

Lemma Split_app_sep a b sep :
  Split (a ++ sep :: b) sep = Split a sep ++ Split b sep.
Proof.
  induction a as [|x a IH]; simpl.
  - by rewrite (byte_eqb_refl sep).
  - rewrite IH. destruct (Byte.eqb x sep); [done|].
    pose proof (Split_not_nil a sep). by destruct (Split a sep).
Qed.

Lemma Split_no_sep l sep : sep ∉ l → Split l sep = [l].
Proof.
  induction l as [|x l IH]; intros H; simpl; [done|].
  apply not_elem_of_cons in H as [Hx Hl].
  destruct (Byte.eqb x sep) eqn:E.
  - apply Byte.byte_dec_bl in E. congruence.
  - by rewrite IH.
Qed.

Lemma Split_lines_no_sep s sep : Forall (λ l, sep ∉ l) (Split s sep).
Proof.
  induction s as [|x s IH]; simpl.
  - apply Forall_singleton. apply not_elem_of_nil.
  - destruct (Byte.eqb x sep) eqn:E.
    + apply Forall_cons; split; [apply not_elem_of_nil|done].
    + destruct (Split s sep) as [|l ls]; [apply Forall_singleton|].
      * apply not_elem_of_cons; split; [|apply not_elem_of_nil].
        intros Hx; subst. by rewrite byte_eqb_refl in E.
      * apply Forall_cons in IH as [Hl Hls]. apply Forall_cons; split; [|done].
        apply not_elem_of_cons; split; [|done].
        intros Hx; subst. by rewrite byte_eqb_refl in E.
Qed.

Lemma Join_Split s sep : Join (Split s sep) sep = s.
Proof.
  induction s as [|x s IH]; simpl; [done|].
  destruct (Byte.eqb x sep) eqn:E.
  - apply Byte.byte_dec_bl in E as ->.
    pose proof (Split_not_nil s sep). destruct (Split s sep) eqn:Es; [done|].
    by rewrite <- IH.
  - pose proof (Split_not_nil s sep). destruct (Split s sep) as [|l ls] eqn:Es; [done|].
    rewrite <- IH. by destruct ls.
Qed.

Lemma splitYAMLDocuments_finish data :
  fst (splitYAMLDocuments data) = finish (splitLoop (Split data nl) [] []).
Proof.
  unfold splitYAMLDocuments, finish.
  by destruct (splitLoop (Split data nl) [] []).
Qed.

Lemma finish_documents lines cur docs :
  finish (splitLoop lines cur docs) = docs ++ finish (splitLoop lines cur []).
Proof.
  unfold finish. destruct (splitLoop_documents lines cur docs) as [-> ->].
  destruct (0 <? _)%nat; by rewrite ?app_assoc, ?app_nil_r.
Qed.

Lemma wellFormedDoc_line l : l ≠ [] → nl ∉ l → wellFormedDoc l.
Proof. intros Hl Hnl. split; [done|]. by rewrite Split_no_sep. Qed.

Lemma wellFormedDoc_first_line l : nl ∉ l → wellFormedDoc (l ++ [nl]).
Proof.
  intros Hnl. split; [by destruct l|].
  rewrite Split_app_sep, Split_no_sep by done. simpl.
  by apply Forall_singleton.
Qed.

Lemma wellFormedDoc_snoc_line cur l :
  endsLine cur → wellFormedDoc cur → nl ∉ l → isSeparator l = false →
  wellFormedDoc (cur ++ l) ∧ wellFormedDoc ((cur ++ l) ++ [nl]).
Proof.
  intros [c ->] [_ Hwf] Hnl Hsep.
  rewrite Split_app_sep in Hwf. simpl in Hwf.
  pose proof (Split_not_nil c nl) as Hc.
  destruct (Split c nl) as [|l0 ls] eqn:Ec; [done|]. simpl in Hwf.
  apply Forall_app in Hwf as [Hls _].
  split; (split; [by destruct c|]).
  - rewrite <- app_assoc. simpl. rewrite Split_app_sep, Ec, Split_no_sep by done.
    simpl. apply Forall_app; split; [done|]. by apply Forall_singleton.
  - rewrite <- !app_assoc. simpl.
    rewrite Split_app_sep, Ec, Split_app_sep, Split_no_sep by done.
    simpl. apply Forall_app; split; [done|].
    apply Forall_cons; split; [done|]. by apply Forall_singleton.
Qed.

Lemma splitLoop_Documents lines cur :
  lines ≠ [] → Forall (λ l, nl ∉ l) lines → pendingDoc cur →
  Documents (cur ++ Join lines nl) (finish (splitLoop lines cur [])).
Proof.
  revert cur. induction lines as [|l rest IH]; intros cur Hne Hnl Hcur; [done|].
  apply Forall_cons in Hnl as [Hl Hrest].
  cbn [splitLoop].
  destruct (isSeparator l && (0 <? length cur)%nat) eqn:E.
  - apply andb_true_iff in E as [Hsep Hlen]. apply Nat.ltb_lt in Hlen.
    destruct Hcur as [->|[Hend Hwf]]; [simpl in Hlen; lia|].
    rewrite finish_documents. simpl.
    destruct rest as [|l2 rest'].
    + simpl. by apply Documents_trailing.
    + change (Join (l :: l2 :: rest') nl) with (l ++ nl :: Join (l2 :: rest') nl).
      apply Documents_sep; [done..|].
      apply (IH []); [done|done|by left].
  - assert (cur = [] ∨ (cur ≠ [] ∧ isSeparator l = false)) as Hcase.
    { destruct cur; [by left|right]. split; [done|].
      apply andb_false_iff in E as [E|E]; [done|]. simpl in E. done. }
    destruct rest as [|l2 rest'].
    + simpl. unfold finish. simpl.
      destruct (0 <? length (cur ++ l))%nat eqn:Elen.
      * apply Documents_last.
        destruct Hcase as [->|[Hc Hs]].
        -- simpl in *. apply wellFormedDoc_line; [|done].
           intros ->. simpl in Elen. done.
        -- destruct Hcur as [->|[Hend Hwf]]; [done|].
           by apply wellFormedDoc_snoc_line.
      * apply Nat.ltb_ge in Elen.
        assert (cur ++ l = []) as -> by (destruct (cur ++ l); [done|simpl in Elen; lia]).
        constructor.
    + change (Join (l :: l2 :: rest') nl) with (l ++ nl :: Join (l2 :: rest') nl).
      replace (cur ++ l ++ nl :: Join (l2 :: rest') nl)
        with (((cur ++ l) ++ [nl]) ++ Join (l2 :: rest') nl)
        by (by rewrite <- !app_assoc).
      apply IH; [done|done|]. right. split; [by eexists|].
      destruct Hcase as [->|[Hc Hs]].
      * simpl. by apply wellFormedDoc_first_line.
      * destruct Hcur as [->|[Hend Hwf]]; [done|].
        by apply wellFormedDoc_snoc_line.
Qed.

(** *** [Documents] determines the result *)

(** A line met while no document is under construction, or one that is no
    separator, is appended. *)
Lemma splitLoop_append l rest cur docs :
  cur = [] ∨ isSeparator l = false →
  splitLoop (l :: rest) cur docs
  = splitLoop rest (cur ++ l ++ match rest with [] => [] | _ :: _ => [nl] end) docs.
Proof.
  intros H. cbn [splitLoop].
  replace (isSeparator l && (0 <? length cur)%nat) with false.
  - destruct rest; by rewrite ?app_nil_r, <- ?app_assoc.
  - destruct H as [->| ->]; [by rewrite andb_false_r|done].
Qed.

(** A run of lines that are no separators, with lines after it. *)
Lemma splitLoop_lines ls more cur docs :
  Forall (λ l, isSeparator l = false) ls → more ≠ [] →
  splitLoop (ls ++ more) cur docs
  = splitLoop more (cur ++ flat_map (λ l, l ++ [nl]) ls) docs.
Proof.
  revert cur. induction ls as [|l ls IH]; intros cur Hls Hmore.
  - simpl. by rewrite app_nil_r.
  - apply Forall_cons in Hls as [Hl Hls].
    change ((l :: ls) ++ more) with (l :: (ls ++ more)).
    rewrite splitLoop_append by (by right).
    assert (match ls ++ more with [] => [] | _ :: _ => [nl] end = [nl]) as ->
      by (by destruct ls, more).
    rewrite IH by done. simpl. by rewrite <- !app_assoc.
Qed.

(** The same at the end of the input. *)
Lemma splitLoop_last_lines ls cur docs :
  Forall (λ l, isSeparator l = false) ls →
  splitLoop ls cur docs = (docs, cur ++ Join ls nl).
Proof.
  revert cur. induction ls as [|l ls IH]; intros cur Hls.
  - simpl. by rewrite app_nil_r.
  - apply Forall_cons in Hls as [Hl Hls].
    rewrite splitLoop_append by (by right).
    rewrite IH by done. destruct ls as [|l2 ls]; simpl.
    + by rewrite !app_nil_r.
    + by rewrite <- !app_assoc.
Qed.

Lemma Join_lines ls :
  ls ≠ [] → Join ls nl ++ [nl] = flat_map (λ l, l ++ [nl]) ls.
Proof.
  induction ls as [|l ls IH]; intros Hne; [done|].
  destruct ls as [|l2 ls].
  - simpl. by rewrite app_nil_r.
  - change (Join (l :: l2 :: ls) nl) with (l ++ nl :: Join (l2 :: ls) nl).
    change (flat_map (λ l, l ++ [nl]) (l :: l2 :: ls))
      with ((l ++ [nl]) ++ flat_map (λ l, l ++ [nl]) (l2 :: ls)).
    rewrite <- IH by done. by rewrite <- !app_assoc.
Qed.

(** The lines of a document that ends its last line bring the loop from no
    document under construction to this document. *)
Lemma splitLoop_document d0 more docs :
  wellFormedDoc (d0 ++ [nl]) → more ≠ [] →
  splitLoop (Split d0 nl ++ more) [] docs = splitLoop more (d0 ++ [nl]) docs.
Proof.
  intros [_ Hwf] Hmore.
  rewrite Split_app_sep in Hwf. rewrite <- (Join_Split d0 nl) at 2.
  pose proof (Split_not_nil d0 nl) as Hne.
  destruct (Split d0 nl) as [|l0 ls]; [done|].
  simpl in Hwf. apply Forall_app in Hwf as [Hls _].
  change ((l0 :: ls) ++ more) with (l0 :: (ls ++ more)).
  rewrite splitLoop_append by (by left).
  assert (match ls ++ more with [] => [] | _ :: _ => [nl] end = [nl]) as ->
    by (by destruct ls, more).
  rewrite splitLoop_lines by done.
  rewrite Join_lines by done. done.
Qed.

Lemma Documents_finish data docs :
  Documents data docs → finish (splitLoop (Split data nl) [] []) = docs.
Proof.
  induction 1 as [|d Hwf|d s Hwf [d0 ->] [Hnl Hsep]|d s rest docs Hwf [d0 ->] [Hnl Hsep] _ IH].
  - reflexivity.
  - pose proof Hwf as [Hne Hls]. rewrite <- (Join_Split d nl) at 2.
    pose proof (Split_not_nil d nl) as Hsplit.
    assert (Join (Split d nl) nl ≠ []) as Hjoin by (by rewrite Join_Split).
    destruct (Split d nl) as [|l0 ls]; [done|]. simpl in Hls.
    rewrite splitLoop_append by (by left).
    rewrite splitLoop_last_lines by done. unfold finish. cbn [fst snd].
    assert (([] ++ l0 ++ match ls with [] => [] | _ :: _ => [nl] end) ++ Join ls nl
            = Join (l0 :: ls) nl) as ->.
    { destruct ls; simpl; by rewrite ?app_nil_r, <- ?app_assoc. }
    destruct (Join (l0 :: ls) nl); done.
  - rewrite <- app_assoc. simpl.
    rewrite Split_app_sep, (Split_no_sep s) by done.
    rewrite splitLoop_document by done.
    cbn [splitLoop]. rewrite Hsep, length_app. simpl.
    replace (0 <? length d0 + 1)%nat with true by (symmetry; apply Nat.ltb_lt; lia).
    reflexivity.
  - rewrite <- app_assoc. simpl.
    rewrite Split_app_sep, Split_app_sep, (Split_no_sep s) by done.
    pose proof (Split_not_nil rest nl) as Hrest.
    rewrite splitLoop_document by done.
    change ([s] ++ Split rest nl) with (s :: Split rest nl).
    cbn [splitLoop]. rewrite Hsep, length_app. simpl.
    replace (0 <? length d0 + 1)%nat with true by (symmetry; apply Nat.ltb_lt; lia).
    rewrite finish_documents, IH. reflexivity.
Qed.

(** C6: the blocks [splitYAMLDocuments] returns are the documents of the
    input in input order, and nothing else is: the input is these blocks with
    one whole separator line removed after each block (but possibly the
    last), no block has a separator line after its first line, and no block
    is empty, so an input that begins with a separator line yields no empty
    leading document. *)
Theorem splitYAMLDocuments_Documents (data : bytes) (docs : list bytes) :
  fst (splitYAMLDocuments data) = docs ↔ Documents data docs.
Proof.
  rewrite splitYAMLDocuments_finish. split.
  - intros <-. rewrite <- (Join_Split data nl) at 1.
    apply (splitLoop_Documents (Split data nl) []).
    + apply Split_not_nil.
    + apply Split_lines_no_sep.
    + by left.
  - apply Documents_finish.
Qed.

(** [Documents] relates an input to one list of documents only. *)
Lemma Documents_functional data docs1 docs2 :
  Documents data docs1 → Documents data docs2 → docs1 = docs2.
Proof.
  intros H1 H2. apply Documents_finish in H1, H2. congruence.
Qed.

Example splitYAMLDocuments_two_documents :
  fst (splitYAMLDocuments (lit ("a: 1" +:+ LF +:+ "---" +:+ LF +:+ "b: 2" +:+ LF)))
  = [lit ("a: 1" +:+ LF); lit ("b: 2" +:+ LF)].
Proof. vm_compute. reflexivity. Qed.

(** A separator line at the start of the input opens the first document. *)
Example splitYAMLDocuments_leading_separator :
  fst (splitYAMLDocuments (lit ("---" +:+ LF +:+ "a: 1" +:+ LF)))
  = [lit ("---" +:+ LF +:+ "a: 1" +:+ LF)].
Proof. vm_compute. reflexivity. Qed.

(** Of two separator lines in a row the first ends a document and the
    second opens the next one. *)
Example splitYAMLDocuments_adjacent_separators :
  fst (splitYAMLDocuments
         (lit ("a: 1" +:+ LF +:+ "---" +:+ LF +:+ " --- # next" +:+ LF +:+ "b: 2")))
  = [lit ("a: 1" +:+ LF); lit (" --- # next" +:+ LF +:+ "b: 2")].
Proof. vm_compute. reflexivity. Qed.

(** ** The monad and the client *)

Lemma keyOf_withIdentity key o : keyOf (withIdentity key o) = key.
Proof. by destruct key as [[[? ?] ?] ?]. Qed.

Lemma bind_eq {A B} (m : M A) (k : A → M B) w :
  bind m k w = k (m w).1 (m w).2.
Proof. unfold bind. by destruct (m w). Qed.

Lemma extends_same_trace P w w' : trace w' = trace w → extends P w w'.
Proof. intros H. exists []. by rewrite app_nil_r. Qed.

Lemma extends_refl P w : extends P w w.
Proof. by apply extends_same_trace. Qed.

Lemma extends_trans P w1 w2 w3 :
  extends P w1 w2 → extends P w2 w3 → extends P w1 w3.
Proof.
  intros (e1 & H1 & F1) (e2 & H2 & F2). exists (e1 ++ e2).
  rewrite H2, H1, app_assoc. split; [done|]. by apply Forall_app.
Qed.

Lemma extends_weaken (P Q : Event → Prop) w w' :
  (∀ e, P e → Q e) → extends P w w' → extends Q w w'.
Proof.
  intros HPQ (evs & H & F). exists evs. split; [done|].
  eapply Forall_impl; eauto.
Qed.

Lemma emits_weaken {A} (P P' : Event → Prop) (Q Q' : A → Prop) (m : M A) :
  (∀ e, P e → P' e) → (∀ a, Q a → Q' a) → emits P Q m → emits P' Q' m.
Proof.
  intros HP HQ Hm w. destruct (Hm w) as [He Hr].
  split; [eapply extends_weaken; eauto|auto].
Qed.

Lemma emits_any {A} (P : Event → Prop) (Q : A → Prop) (m : M A) :
  emits P Q m → emits P any m.
Proof. apply emits_weaken; [auto|done]. Qed.

Lemma emits_ret {A} P (Q : A → Prop) (a : A) : Q a → emits P Q (ret a).
Proof. intros Ha w. split; [apply extends_refl|done]. Qed.

Lemma emits_bind {A B} P (Q : A → Prop) (R : B → Prop) (m : M A) (k : A → M B) :
  emits P Q m → (∀ a, Q a → emits P R (k a)) → emits P R (bind m k).
Proof.
  intros Hm Hk w. rewrite bind_eq. destruct (Hm w) as [He Hr].
  destruct (Hk _ Hr (m w).2) as [He' Hr'].
  split; [eapply extends_trans; eauto|done].
Qed.

Lemma emits_emit (P : Event → Prop) e : P e → emits P any (emit e).
Proof.
  intros He w. split; [|done]. exists [e]. split; [done|]. by apply Forall_singleton.
Qed.

Lemma emits_fault P : emits P any fault.
Proof.
  intros w. split; [|done]. unfold fault.
  by destruct (faults w); apply extends_same_trace.
Qed.

Lemma emits_getCluster P : emits P any getCluster.
Proof. intros w. split; [apply extends_refl|done]. Qed.

Lemma emits_setObjects P objs : emits P any (setObjects objs).
Proof. intros w. split; [by apply extends_same_trace|done]. Qed.

Lemma emits_logInfo (P : Event → Prop) msg : P (ELogInfo msg) → emits P any (logInfo msg).
Proof. apply emits_emit. Qed.

Lemma emits_logDebug (P : Event → Prop) msg : P (ELogDebug msg) → emits P any (logDebug msg).
Proof. apply emits_emit. Qed.

Lemma emits_logError (P : Event → Prop) err msg :
  P (ELogError err msg) → emits P any (logError err msg).
Proof. apply emits_emit. Qed.

(** Decompose a computation along its binds and case distinctions; what is
    left are the conditions on the events and on the results. *)
Ltac emits_base :=
  lazymatch goal with
  | |- emits _ ?Q (ret _) =>
      try (is_evar Q; refine (_ : emits _ any _)); apply emits_ret
  | |- emits _ _ (bind _ _) => eapply emits_bind; [|intros ? ?]
  | |- emits _ _ fault => apply emits_fault
  | |- emits _ _ getCluster => apply emits_getCluster
  | |- emits _ _ (setObjects _) => apply emits_setObjects
  | |- emits _ _ (emit _) => apply emits_emit
  | |- emits _ _ (logInfo _) => apply emits_logInfo
  | |- emits _ _ (logDebug _) => apply emits_logDebug
  | |- emits _ _ (logError _ _) => apply emits_logError
  | |- emits _ ?Q (match ?x with _ => _ end) =>
      try (is_evar Q; refine (_ : emits _ any _)); destruct x eqn:?
  end.

Lemma emits_Get P key obj :
  P (EGet key) →
  emits P (λ r, match r.1 with None => keyOf r.2 = key | Some _ => r.2 = obj end)
    (Get key obj).
Proof.
  intros HP. unfold Get.
  repeat emits_base; simpl; auto using keyOf_withIdentity.
Qed.

Lemma emits_Create P obj : P (ECreate obj) → emits P any (Create obj).
Proof. intros HP. unfold Create. repeat emits_base; done. Qed.

Lemma emits_Update P obj : P (EUpdate obj) → emits P any (Update obj).
Proof. intros HP. unfold Update. repeat emits_base; done. Qed.

Lemma emits_ListTiers P : P EListTiers → emits P any ListTiers.
Proof. intros HP. unfold ListTiers. repeat emits_base; done. Qed.

(** The same with the client calls taken as wholes. *)
Ltac emits_step :=
  lazymatch goal with
  | |- emits _ _ (Get _ _) => apply emits_Get
  | |- emits _ _ (Create _) => apply emits_Create
  | |- emits _ _ (Update _) => apply emits_Update
  | |- emits _ _ ListTiers => apply emits_ListTiers
  | |- _ => emits_base
  end.

(** ** The Tier controller *)

Lemma emits_updateTierConfigMap tiers maasPlatform :
  emits (λ e, touches configMapKey e ∨ isLog e) any (updateTierConfigMap tiers maasPlatform).
Proof.
  unfold updateTierConfigMap.
  repeat emits_step; simpl in *; auto; try done.
  all: left; destruct o0; [subst u1|done].
  all: assert (keyOf u0 = configMapKey) as Hu0
    by (destruct o as [e1|]; [destruct (IsNotFound e1)|]; by simplify_eq).
  all: by destruct (0 <? length tiers)%nat.
Qed.

Lemma emits_updatePolicy key what limits :
  emits (λ e, touches key e ∨ isLog e) any (updatePolicy key what limits).
Proof.
  unfold updatePolicy. destruct key as [[[av k] ns] n].
  repeat emits_step; simpl in *; auto; try done.
  all: left; destruct o0; [subst u1|done].
  all: destruct o as [e1|]; [destruct (IsNotFound e1)|]; by simplify_eq.
Qed.

Lemma emits_logged P (Q : option error → Prop) msg (step : M (option error)) :
  emits P Q step → (∀ err, P (ELogError err msg)) → emits P any (logged msg step).
Proof. intros Hs Hl. unfold logged. repeat emits_step; eauto; done. Qed.

(** Destruct the runs of a computation one after the other. *)
Ltac run_all :=
  repeat (cbn [fst snd];
          match goal with
          | |- context [let '(_, _) := ?m ?w in _] => destruct (m w) as [[?|] ?]
          end).

Lemma ListTiers_eq w :
  ListTiers w
  = (if hd false (faults w) then inl unavailable else inr (tiers (cluster w)),
     mkWorld (cluster w) (tl (faults w)) (trace w ++ [EListTiers])).
Proof.
  unfold ListTiers, bind, emit, fault, getCluster, ret; simpl.
  by destruct (faults w) as [|[] fs].
Qed.

Lemma reconcileMaasPlatformTiers_unfold maasPlatform w :
  reconcileMaasPlatformTiers maasPlatform w
  = match ListTiers w with
    | (inl err, w1) => (Some err, (logError err "Failed to list Tiers" w1).2)
    | (inr items, w1) =>
        let targetTiers := List.filter (targets maasPlatform) items in
        match targetTiers with
        | [] => (None, (logInfo "No Tiers found targeting this MaasPlatform" w1).2)
        | _ :: _ => runUntilFailure (tierSteps targetTiers maasPlatform) w1
        end
    end.
Proof.
  unfold reconcileMaasPlatformTiers, bind at 1.
  destruct (ListTiers w) as [[err|items] w1]; [done|]. cbn zeta.
  destruct (List.filter (targets maasPlatform) items) as [|t ts]; [done|].
  cbn [length Nat.eqb]. unfold tierSteps, runUntilFailure, logged, bind, ret.
  run_all; done.
Qed.

Lemma runUntilFailure_failed step rest err w :
  (step w).1 = Some err → runUntilFailure (step :: rest) w = (Some err, (step w).2).
Proof. simpl. unfold bind. destruct (step w) as [r w']. simpl. by intros ->. Qed.

Lemma runUntilFailure_passed step rest w :
  (step w).1 = None → runUntilFailure (step :: rest) w = runUntilFailure rest (step w).2.
Proof. simpl. unfold bind. destruct (step w) as [r w']. simpl. by intros ->. Qed.

Lemma logged_result msg step w : (logged msg step w).1 = (step w).1.
Proof. unfold logged, bind. destruct (step w) as [[e|] w']; done. Qed.

Lemma logged_passed msg step w : (step w).1 = None → (logged msg step w).2 = (step w).2.
Proof. unfold logged, bind. destruct (step w) as [[e|] w']; done. Qed.

Lemma keys_apart_configMap e :
  touches configMapKey e ∨ isLog e →
  ¬ touches rateLimitPolicyKey e ∧ ¬ touches tokenRateLimitPolicyKey e.
Proof.
  unfold touches, isLog.
  intros [H|H]; destruct e; try done; split; intros H'; first [done|by rewrite H in H'].
Qed.

Lemma keys_apart_rateLimitPolicy e :
  touches rateLimitPolicyKey e ∨ isLog e → ¬ touches tokenRateLimitPolicyKey e.
Proof.
  unfold touches, isLog.
  intros [H|H]; destruct e; try done; intros H'; first [done|by rewrite H in H'].
Qed.

(** The call that lists the tiers touches no object. *)
Lemma extends_ListTiers (P : Event → Prop) w : P EListTiers → extends P w (ListTiers w).2.
Proof.
  intros HP. rewrite ListTiers_eq. exists [EListTiers]. split; [done|].
  by apply Forall_singleton.
Qed.

(** C1, as the code has it: over a non-empty set of matching tiers the three
    artifacts are applied in the order tier ConfigMap, RateLimitPolicy,
    TokenRateLimitPolicy, and the first failure ends the pass. The pass
    returns the error of the first update that fails and nil when all three
    went through; when the ConfigMap update fails no call is made on either
    policy, and when the RateLimitPolicy update fails no call is made on the
    TokenRateLimitPolicy. *)
Theorem reconcileMaasPlatformTiers_stops_at_first_failure maasPlatform w :
  let targetTiers := List.filter (targets maasPlatform) (tiers (cluster w)) in
  let w1 := (ListTiers w).2 in
  let pass := reconcileMaasPlatformTiers maasPlatform w in
  hd false (faults w) = false →
  targetTiers ≠ [] →
  pass = runUntilFailure (tierSteps targetTiers maasPlatform) w1
  ∧ (∀ err, (updateTierConfigMap targetTiers maasPlatform w1).1 = Some err →
       pass.1 = Some err
       ∧ extends (λ e, ¬ touches rateLimitPolicyKey e ∧ ¬ touches tokenRateLimitPolicyKey e)
           w pass.2)
  ∧ (∀ err, let w2 := (updateTierConfigMap targetTiers maasPlatform w1).2 in
       (updateTierConfigMap targetTiers maasPlatform w1).1 = None →
       (updateRateLimitPolicy targetTiers maasPlatform w2).1 = Some err →
       pass.1 = Some err
       ∧ extends (λ e, ¬ touches tokenRateLimitPolicyKey e) w pass.2)
  ∧ (let w2 := (updateTierConfigMap targetTiers maasPlatform w1).2 in
     let w3 := (updateRateLimitPolicy targetTiers maasPlatform w2).2 in
     (updateTierConfigMap targetTiers maasPlatform w1).1 = None →
     (updateRateLimitPolicy targetTiers maasPlatform w2).1 = None →
     pass.1 = (updateTokenRateLimitPolicy targetTiers maasPlatform w3).1).
Proof.
  intros ts w1 pass Hf Hne.
  assert (pass = runUntilFailure (tierSteps ts maasPlatform) w1) as Hpass.
  { subst pass w1. rewrite reconcileMaasPlatformTiers_unfold, ListTiers_eq, Hf.
    fold ts. by destruct ts. }
  split; [done|]. rewrite Hpass. unfold tierSteps.
  split; [|split].
  - intros err Herr.
    rewrite (runUntilFailure_failed _ _ err) by (by rewrite logged_result).
    cbn [fst snd]. split; [done|].
    eapply extends_trans; [apply extends_ListTiers; simpl; tauto|]. fold w1.
    eapply extends_weaken; [apply keys_apart_configMap|].
    apply (emits_logged _ any); [apply emits_updateTierConfigMap|]. simpl; auto.
  - intros err H1 H2.
    rewrite runUntilFailure_passed by (by rewrite logged_result).
    rewrite logged_passed by done.
    rewrite (runUntilFailure_failed _ _ err) by (by rewrite logged_result).
    cbn [fst snd]. split; [done|].
    eapply extends_trans; [apply extends_ListTiers; simpl; tauto|]. fold w1.
    eapply extends_trans.
    { eapply extends_weaken; [|apply (emits_updateTierConfigMap ts maasPlatform w1)].
      intros e He. by apply keys_apart_configMap in He as [_ ?]. }
    eapply extends_weaken; [apply keys_apart_rateLimitPolicy|].
    apply (emits_logged _ any); [apply emits_updatePolicy|]. simpl; auto.
  - intros H1 H2.
    rewrite runUntilFailure_passed by (by rewrite logged_result).
    rewrite logged_passed by done.
    rewrite runUntilFailure_passed by (by rewrite logged_result).
    rewrite logged_passed by done.
    simpl. unfold bind.
    destruct (logged _ _ _) as [[e|] w4] eqn:E;
      apply (f_equal fst) in E; rewrite logged_result in E; simpl in *; done.
Qed.

(** The theorem at a cluster with two matching tiers, all calls going through. *)
Lemma reconcileMaasPlatformTiers_stops_at_first_failure_witness :
  reconcileMaasPlatformTiers Examples.platform (mkWorld Examples.clusterAB [] [])
  = runUntilFailure (tierSteps [Examples.tierA; Examples.tierB] Examples.platform)
      (ListTiers (mkWorld Examples.clusterAB [] [])).2.
Proof.
  apply (reconcileMaasPlatformTiers_stops_at_first_failure Examples.platform
           (mkWorld Examples.clusterAB [] [])); [reflexivity|discriminate].
Defined.

(** C1 as stated fails: with two matching tiers and the read of the tier
    ConfigMap failing, the pass ends there with that error, and neither
    policy is attempted. *)
Lemma reconcileMaasPlatformTiers_failure_blocks_later_artifacts :
  List.filter (targets Examples.platform) (tiers (cluster Examples.worldConfigMapDown))
  = [Examples.tierA; Examples.tierB]
  ∧ reconcileMaasPlatformTiers Examples.platform Examples.worldConfigMapDown
    = (Some (Wrapped "failed to get ConfigMap" unavailable),
       mkWorld Examples.clusterAB []
         [EListTiers; EGet configMapKey;
          ELogError (Wrapped "failed to get ConfigMap" unavailable)
            "Failed to update tier ConfigMap"])
  ∧ Forall (λ e, ¬ touches rateLimitPolicyKey e ∧ ¬ touches tokenRateLimitPolicyKey e)
      (trace (reconcileMaasPlatformTiers Examples.platform Examples.worldConfigMapDown).2).
Proof.
  assert (reconcileMaasPlatformTiers Examples.platform Examples.worldConfigMapDown
          = (Some (Wrapped "failed to get ConfigMap" unavailable),
             mkWorld Examples.clusterAB []
               [EListTiers; EGet configMapKey;
                ELogError (Wrapped "failed to get ConfigMap" unavailable)
                  "Failed to update tier ConfigMap"])) as H by reflexivity.
  split; [reflexivity|]. split; [exact H|]. rewrite H. cbn [snd trace].
  repeat (apply Forall_cons; split); [..|apply Forall_nil];
    (split; intros H'; simpl in H'; done).
Qed.



Lemma reconcileEach_RecomputedEach items w :
  RecomputedEach items w (reconcileEach items w).2.
Proof.
  revert w. induction items as [|mp rest IH]; intros w; [constructor|].
  simpl. unfold bind.
  destruct (reconcileMaasPlatformTiers mp w) as [[err|] w1] eqn:E.
  - eapply RecomputedEach_failed; [done|].
    destruct (logError err _ w1) as [[] w2] eqn:E2. simpl. apply IH.
  - eapply RecomputedEach_ok; [done|]. apply IH.
Qed.

Lemma GetTier_eq ns n w :
  GetTier ns n w
  = (if hd false (faults w) then inl unavailable
     else match List.find (λ t, String.eqb (tierNamespace t) ns && String.eqb (tierName t) n)
                  (tiers (cluster w)) with
          | Some t => inr t
          | None => inl NotFound
          end,
     mkWorld (cluster w) (tl (faults w)) (trace w ++ [EGetTier ns n])).
Proof.
  unfold GetTier, bind, emit, fault, getCluster, ret; simpl.
  destruct (faults w) as [|[] fs]; simpl; try done;
    by destruct (List.find _ _).
Qed.

Lemma ListPlatforms_eq w :
  ListPlatforms w
  = (if hd false (faults w) then inl unavailable else inr (platforms (cluster w)),
     mkWorld (cluster w) (tl (faults w)) (trace w ++ [EListPlatforms])).
Proof.
  unfold ListPlatforms, bind, emit, fault, getCluster, ret; simpl.
  by destruct (faults w) as [|[] fs].
Qed.



(** What the run of the witness logs and calls, in full: the failed pass for
    the first platform is followed by the pass for the second. *)
Example TierReconcile_deleted_tier_trace :
  trace (TierReconcile "maas-system" "gone" Examples.worldTierDeleted).2
  = [EGetTier "maas-system" "gone";
     ELogInfo "Tier was deleted, reconciling all MaasPlatforms";
     EListPlatforms;
     EListTiers; EGet configMapKey;
     ELogError (Wrapped "failed to get ConfigMap" unavailable) "Failed to update tier ConfigMap";
     ELogError (Wrapped "failed to get ConfigMap" unavailable)
       "Failed to reconcile Tiers for MaasPlatform";
     EListTiers; ELogInfo "No Tiers found targeting this MaasPlatform"].
Proof. reflexivity. Qed.

(** ** The limits of the two policies *)

Lemma rateLimits_snoc tiers t :
  rateLimits (tiers ++ [t])
  = match rateLimitOf t with
    | Some v => <[tierNameOf t := v]> (rateLimits tiers)
    | None => rateLimits tiers
    end.
Proof.
  unfold rateLimits, rateLimitOf. rewrite foldl_snoc.
  by destruct (RateLimits (Spec t)).
Qed.

Lemma tokenRateLimits_snoc tiers t :
  tokenRateLimits (tiers ++ [t])
  = match tokenRateLimitOf t with
    | Some v => <[tierNameOf t +:+ "-user-tokens" := v]> (tokenRateLimits tiers)
    | None => tokenRateLimits tiers
    end.
Proof.
  unfold tokenRateLimits, tokenRateLimitOf. rewrite foldl_snoc.
  by destruct (TokenRateLimits (Spec t)).
Qed.

Lemma lastNamed_snoc hasConfig k tiers t :
  lastNamed hasConfig k (tiers ++ [t])
  = if String.eqb (tierNameOf t) k && hasConfig t then Some t
    else lastNamed hasConfig k tiers.
Proof. unfold lastNamed. by rewrite rev_unit. Qed.

Lemma string_length_app (s t : string) :
  String.length (s +:+ t) = String.length s + String.length t.
Proof. induction s as [|c s IH]; simpl; [done|]. by rewrite IH. Qed.

Lemma string_app_inj_r (s1 s2 t : string) : s1 +:+ t = s2 +:+ t → s1 = s2.
Proof.
  intros H.
  assert (String.length s1 = String.length s2) as Hlen.
  { apply (f_equal String.length) in H. rewrite !string_length_app in H. lia. }
  revert s2 H Hlen. induction s1 as [|c s1 IH]; intros [|c2 s2] H Hlen; simpl in *;
    try done.
  injection H as -> H. f_equal. apply IH; [done|lia].
Qed.

Lemma rateLimits_lookup tiers k :
  rateLimits tiers !! k = lastNamed hasRateLimits k tiers ≫= rateLimitOf.
Proof.
  induction tiers as [|t tiers IH] using rev_ind; [done|].
  rewrite rateLimits_snoc, lastNamed_snoc.
  unfold hasRateLimits, rateLimitOf in *.
  destruct (RateLimits (Spec t)) as [cfg|] eqn:E; simpl.
  - rewrite andb_true_r. destruct (String.eqb_spec (tierNameOf t) k) as [Heq|Hne].
    + rewrite <- Heq, lookup_insert_eq. simpl. by rewrite E.
    + by rewrite lookup_insert_ne.
  - by rewrite andb_false_r.
Qed.

Lemma tokenRateLimits_lookup tiers k :
  tokenRateLimits tiers !! (k +:+ "-user-tokens")
  = lastNamed hasTokenRateLimits k tiers ≫= tokenRateLimitOf.
Proof.
  induction tiers as [|t tiers IH] using rev_ind; [done|].
  rewrite tokenRateLimits_snoc, lastNamed_snoc.
  unfold hasTokenRateLimits, tokenRateLimitOf in *.
  destruct (TokenRateLimits (Spec t)) as [cfg|] eqn:E; simpl.
  - rewrite andb_true_r. destruct (String.eqb_spec (tierNameOf t) k) as [Heq|Hne].
    + rewrite <- Heq, lookup_insert_eq. simpl. by rewrite E.
    + rewrite lookup_insert_ne; [done|]. intros H. by apply string_app_inj_r in H.
  - by rewrite andb_false_r.
Qed.

Lemma rateLimits_dom tiers :
  dom (rateLimits tiers) = list_to_set (tierNameOf <$> List.filter hasRateLimits tiers).
Proof.
  induction tiers as [|t tiers IH] using rev_ind; [apply dom_empty_L|].
  rewrite rateLimits_snoc, List.filter_app. simpl.
  unfold hasRateLimits, rateLimitOf in *.
  destruct (RateLimits (Spec t)) as [cfg|].
  - rewrite dom_insert_L, IH, fmap_app. simpl. rewrite list_to_set_snoc_L.
    apply (comm_L (∪)).
  - by rewrite app_nil_r.
Qed.

Lemma tokenRateLimits_dom tiers :
  dom (tokenRateLimits tiers)
  = list_to_set ((λ t, tierNameOf t +:+ "-user-tokens") <$> List.filter hasTokenRateLimits tiers).
Proof.
  induction tiers as [|t tiers IH] using rev_ind; [apply dom_empty_L|].
  rewrite tokenRateLimits_snoc, List.filter_app. simpl.
  unfold hasTokenRateLimits, tokenRateLimitOf in *.
  destruct (TokenRateLimits (Spec t)) as [cfg|].
  - rewrite dom_insert_L, IH, fmap_app. simpl. rewrite list_to_set_snoc_L.
    apply (comm_L (∪)).
  - by rewrite app_nil_r.
Qed.

Lemma NoDup_fmap_suffix (names : list string) (suffix : string) :
  NoDup names → NoDup ((λ s, s +:+ suffix) <$> names).
Proof.
  intros H. apply NoDup_fmap_2; [|done]. intros s1 s2. apply string_app_inj_r.
Qed.




(** ** Variable resolution and substitution *)

Lemma replaceFrom_skip old new k s :
  GoStrings.replaceFrom old new k s = GoStrings.replaceFrom old new 0 (dropString k s).
Proof.
  revert k. induction s as [|c r IH]; intros [|k]; try done.
  simpl. apply IH.
Qed.

Lemma expandFrom_skip value k s :
  expandFrom value k s = expandFrom value 0 (dropString k s).
Proof.
  revert k. induction s as [|c r IH]; intros [|k]; try done.
  simpl. apply IH.
Qed.

Lemma replaceFrom_plain old' new value rest :
  allChars (λ c, negb (isDollar c)) value = true →
  GoStrings.replaceFrom (String (Ascii.ascii_of_nat 36) old') new 0 (value +:+ rest)
  = value +:+ GoStrings.replaceFrom (String (Ascii.ascii_of_nat 36) old') new 0 rest.
Proof.
  induction value as [|c v IH]; intros Hv; [done|].
  simpl in Hv. apply andb_true_iff in Hv as [Hc Hv].
  change (String c v +:+ rest) with (String c (v +:+ rest)).
  cbn [GoStrings.replaceFrom GoStrings.HasPrefix].
  unfold isDollar in Hc. apply negb_true_iff in Hc. rewrite Hc. cbn [andb].
  by rewrite IH.
Qed.

(** A run of token letters found after the first pass was there before it:
    the value the first pass puts in starts with no token letter. *)
Lemma replaceFrom_keeps_letters value (letters s : string) :
  plainValue value = true →
  allChars (λ c, hasChar c "CLUSTER_DOMAIN") letters = true →
  GoStrings.HasPrefix (GoStrings.replaceFrom "${CLUSTER_DOMAIN}" value 0 s) letters = true →
  GoStrings.HasPrefix s letters = true.
Proof.
  intros Hv. revert s. induction letters as [|a W IH]; intros s HW Hp; [by destruct s|].
  cbn [allChars] in HW. apply andb_true_iff in HW as [Ha HW].
  destruct s as [|c r]; [done|].
  cbn [GoStrings.replaceFrom] in Hp.
  destruct (GoStrings.HasPrefix (String c r) "${CLUSTER_DOMAIN}").
  - unfold plainValue in Hv. apply andb_true_iff in Hv as [_ Hv].
    destruct value as [|v0 v]; [done|]. apply negb_true_iff in Hv.
    cbn [String.append GoStrings.HasPrefix] in Hp. apply andb_true_iff in Hp as [Hp _].
    apply Ascii.eqb_eq in Hp. subst v0. by rewrite Ha in Hv.
  - cbn [GoStrings.HasPrefix] in Hp |- *. apply andb_true_iff in Hp as [-> Hp].
    cbn [andb]. by apply IH.
Qed.

Lemma string_app_cons c (s t : string) : String c s +:+ t = String c (s +:+ t).
Proof. reflexivity. Qed.

Lemma HasPrefix_app (s old : string) :
  GoStrings.HasPrefix s old = true → s = old +:+ dropString (String.length old) s.
Proof.
  revert s. induction old as [|p old IH]; intros s H; [done|].
  destruct s as [|c r]; [done|]. simpl in H.
  apply andb_true_iff in H as [Hc H]. apply Ascii.eqb_eq in Hc as ->.
  cbn [String.length dropString]. rewrite string_app_cons. f_equal. by apply IH.
Qed.

Lemma dropString_length n s : (String.length (dropString n s) ≤ String.length s)%nat.
Proof.
  revert s. induction n as [|n IH]; intros [|c r]; simpl; try done. specialize (IH r). lia.
Qed.

Lemma HasPrefix_self (old rest : string) : GoStrings.HasPrefix (old +:+ rest) old = true.
Proof.
  induction old as [|p old IH]; [by destruct rest|].
  rewrite string_app_cons. cbn [GoStrings.HasPrefix]. by rewrite Ascii.eqb_refl.
Qed.

Lemma dropString_app (old rest : string) : dropString (String.length old) (old +:+ rest) = rest.
Proof. induction old as [|p old IH]; [done|]. by rewrite string_app_cons. Qed.

Lemma replaceFrom_token p old new rest :
  GoStrings.replaceFrom (String p old) new 0 (String p old +:+ rest)
  = new +:+ GoStrings.replaceFrom (String p old) new 0 rest.
Proof.
  rewrite string_app_cons. cbn [GoStrings.replaceFrom].
  rewrite <- string_app_cons, HasPrefix_self, replaceFrom_skip.
  cbn [String.length Nat.sub]. by rewrite Nat.sub_0_r, dropString_app.
Qed.

Lemma first_pass_bare value rest :
  GoStrings.replaceFrom "${CLUSTER_DOMAIN}" value 0 ("$CLUSTER_DOMAIN" +:+ rest)
  = "$CLUSTER_DOMAIN" +:+ GoStrings.replaceFrom "${CLUSTER_DOMAIN}" value 0 rest.
Proof. reflexivity. Qed.

Lemma expand_braced value rest :
  expandFrom value 0 ("${CLUSTER_DOMAIN}" +:+ rest) = value +:+ expandFrom value 0 rest.
Proof.
  rewrite string_app_cons. cbn [expandFrom].
  rewrite <- string_app_cons, HasPrefix_self, expandFrom_skip.
  by rewrite (dropString_app "{CLUSTER_DOMAIN}").
Qed.

Lemma expand_bare value rest :
  expandFrom value 0 ("$CLUSTER_DOMAIN" +:+ rest) = value +:+ expandFrom value 0 rest.
Proof.
  rewrite string_app_cons. cbn [expandFrom].
  rewrite <- string_app_cons, (HasPrefix_self "$CLUSTER_DOMAIN").
  replace (GoStrings.HasPrefix _ "${CLUSTER_DOMAIN}") with false by reflexivity.
  by rewrite expandFrom_skip, (dropString_app "CLUSTER_DOMAIN").
Qed.

Lemma replaceClusterDomain_expand_bounded value n content :
  plainValue value = true →
  (String.length content ≤ n)%nat →
  replaceClusterDomain content value = expandClusterDomain content value.
Proof.
  intros Hv. pose proof Hv as Hplain.
  unfold plainValue in Hv. apply andb_true_iff in Hv as [Hnd _].
  unfold replaceClusterDomain, expandClusterDomain, GoStrings.ReplaceAll.
  revert content. induction n as [|n IH]; intros content Hlen.
  { destruct content; [done|simpl in Hlen; lia]. }
  destruct (GoStrings.HasPrefix content "${CLUSTER_DOMAIN}") eqn:E1.
  { (* a braced token *)
    apply HasPrefix_app in E1. set (r' := dropString _ content) in E1.
    rewrite E1 in Hlen |- *.
    rewrite replaceFrom_token, expand_braced, replaceFrom_plain by done.
    f_equal. apply IH. rewrite string_length_app in Hlen. simpl in Hlen. lia. }
  destruct (GoStrings.HasPrefix content "$CLUSTER_DOMAIN") eqn:E2.
  { (* a bare token: the first pass copies it, the second replaces it *)
    apply HasPrefix_app in E2. set (r' := dropString _ content) in E2.
    rewrite E2 in Hlen |- *.
    rewrite first_pass_bare, replaceFrom_token, expand_bare.
    f_equal. apply IH. rewrite string_length_app in Hlen. simpl in Hlen. lia. }
  (* any other byte *)
  destruct content as [|c r]; [done|]. simpl in Hlen.
  cbn [GoStrings.replaceFrom expandFrom]. rewrite E1, E2.
  cbn [GoStrings.replaceFrom].
  assert (GoStrings.HasPrefix
            (String c (GoStrings.replaceFrom "${CLUSTER_DOMAIN}" value 0 r))
            "$CLUSTER_DOMAIN" = false) as ->.
  { cbn [GoStrings.HasPrefix] in E2 |- *.
    destruct (Ascii.eqb c _) eqn:Ec; [|done]. cbn [andb] in E2 |- *.
    destruct (GoStrings.HasPrefix (GoStrings.replaceFrom _ _ _ _) _) eqn:E3; [|done].
    apply replaceFrom_keeps_letters in E3; [congruence|done|done]. }
  f_equal. apply IH. lia.
Qed.

Lemma replaceClusterDomain_expand value content :
  plainValue value = true →
  replaceClusterDomain content value = expandClusterDomain content value.
Proof. intros Hv. by apply (replaceClusterDomain_expand_bounded value (String.length content)). Qed.

Lemma Get_eq key obj w :
  Get key obj w
  = (if hd false (faults w) then (Some unavailable, obj)
     else match objects (cluster w) !! key with
          | Some stored => (None, withIdentity key stored)
          | None => (Some NotFound, obj)
          end,
     mkWorld (cluster w) (tl (faults w)) (trace w ++ [EGet key])).
Proof.
  unfold Get, bind, emit, fault, getCluster, ret; simpl.
  destruct (faults w) as [|[] fs]; simpl; try done;
    by destruct (objects (cluster w) !! key).
Qed.

Lemma NestedString_withIdentity key o fields :
  NestedString (withIdentity key o) fields = NestedString o fields.
Proof. by destruct key as [[[? ?] ?] ?]. Qed.

(** The value [clusterDomain] settles on, and that it makes no change to the
    cluster. *)
Lemma clusterDomain_value h w :
  ∃ w',
    clusterDomain h w
    = (if String.eqb (CLUSTER_DOMAIN h) "" then
         match ingressDomain w with
         | Some domain => if String.eqb domain "" then "apps.example.com" else domain
         | None => "apps.example.com"
         end
       else CLUSTER_DOMAIN h, w')
    ∧ cluster w' = cluster w.
Proof.
  unfold clusterDomain, ingressDomain.
  destruct (String.eqb (CLUSTER_DOMAIN h) "") eqn:Eenv; [|by eexists].
  apply String.eqb_eq in Eenv. rewrite Eenv.
  unfold bind at 1. rewrite Get_eq.
  destruct (hd false (faults w)); [by eexists|].
  destruct (objects (cluster w) !! ingressKey) as [stored|]; [|by eexists].
  rewrite NestedString_withIdentity.
  destruct (NestedString stored ["spec"; "domain"]) as [domain|]; [|by eexists].
  unfold bind, logInfo, emit, ret.
  destruct (String.eqb domain ""); by eexists.
Qed.

(** C7, as the code has it. [substituteEnvVars] returns a string whatever
    the lookup does: the template with the two [ReplaceAll] passes made
    over it, for the value that is the configured [CLUSTER_DOMAIN] when that
    is not empty, else the [spec.domain] string of the cluster's ingress
    configuration when the lookup goes through and the string is not empty,
    else [apps.example.com]. The value is never empty and the cluster is
    left as it was. When the value holds no [$] and starts with a byte that
    does not occur in [CLUSTER_DOMAIN], the two passes amount to replacing
    every [${CLUSTER_DOMAIN}] and every bare [$CLUSTER_DOMAIN] of the
    template by the value in one pass, all other text verbatim. *)
Theorem substituteEnvVars_resolves_and_replaces (h : Host) (content : string) (w : World) :
  let domain := (clusterDomain h w).1 in
  (substituteEnvVars h content w).1 = replaceClusterDomain content domain
  ∧ domain
    = (if String.eqb (CLUSTER_DOMAIN h) "" then
         match ingressDomain w with
         | Some domain => if String.eqb domain "" then "apps.example.com" else domain
         | None => "apps.example.com"
         end
       else CLUSTER_DOMAIN h)
  ∧ domain ≠ ""
  ∧ cluster (substituteEnvVars h content w).2 = cluster w
  ∧ (plainValue domain = true →
     (substituteEnvVars h content w).1 = expandClusterDomain content domain).
Proof.
  intros domain. subst domain.
  destruct (clusterDomain_value h w) as (w' & Hvalue & Hcluster).
  assert ((substituteEnvVars h content w).1
          = replaceClusterDomain content (clusterDomain h w).1
          ∧ (substituteEnvVars h content w).2 = (clusterDomain h w).2) as [Hres Hw].
  { unfold substituteEnvVars, bind, ret. by destruct (clusterDomain h w). }
  split; [done|]. split; [by rewrite Hvalue|]. split.
  - rewrite Hvalue. cbn [fst].
    destruct (String.eqb (CLUSTER_DOMAIN h) "") eqn:Eenv.
    + destruct (ingressDomain w) as [d|]; [|done].
      destruct (String.eqb d "") eqn:Ed; [done|]. by apply String.eqb_neq in Ed.
    + by apply String.eqb_neq in Eenv.
  - split; [by rewrite Hw, Hvalue|]. intros Hplain.
    rewrite Hres. by apply replaceClusterDomain_expand.
Qed.

(** The theorem at a host without an override and a cluster without an
    ingress configuration: the default domain is put in for both spellings. *)
Lemma substituteEnvVars_resolves_and_replaces_witness :
  (substituteEnvVars (Examples.hostWithDomain "")
     "host: maas.${CLUSTER_DOMAIN} # not $HOME, $CLUSTER_DOMAIN" Examples.emptyWorld).1
  = expandClusterDomain "host: maas.${CLUSTER_DOMAIN} # not $HOME, $CLUSTER_DOMAIN"
      "apps.example.com".
Proof.
  apply (substituteEnvVars_resolves_and_replaces (Examples.hostWithDomain "")
           "host: maas.${CLUSTER_DOMAIN} # not $HOME, $CLUSTER_DOMAIN" Examples.emptyWorld).
  reflexivity.
Defined.

Example substituteEnvVars_default_domain :
  (substituteEnvVars (Examples.hostWithDomain "")
     "host: maas.${CLUSTER_DOMAIN} # not $HOME, $CLUSTER_DOMAIN" Examples.emptyWorld).1
  = "host: maas.apps.example.com # not $HOME, apps.example.com".
Proof. reflexivity. Qed.

(** C7 as stated fails for a value that holds the bare token: with
    [CLUSTER_DOMAIN] set to [x$CLUSTER_DOMAIN], the template
    [${CLUSTER_DOMAIN}] does not come out as that value, the second pass
    having replaced the token inside the value the first pass put in. *)
Lemma substituteEnvVars_rewrites_the_value :
  (clusterDomain (Examples.hostWithDomain "x$CLUSTER_DOMAIN") Examples.emptyWorld).1
  = "x$CLUSTER_DOMAIN"
  ∧ (substituteEnvVars (Examples.hostWithDomain "x$CLUSTER_DOMAIN")
       "${CLUSTER_DOMAIN}" Examples.emptyWorld).1
    = "xx$CLUSTER_DOMAIN"
  ∧ expandClusterDomain "${CLUSTER_DOMAIN}" "x$CLUSTER_DOMAIN" = "x$CLUSTER_DOMAIN"
  ∧ (substituteEnvVars (Examples.hostWithDomain "x$CLUSTER_DOMAIN")
       "${CLUSTER_DOMAIN}" Examples.emptyWorld).1
    ≠ expandClusterDomain "${CLUSTER_DOMAIN}" "x$CLUSTER_DOMAIN".
Proof. repeat split; try reflexivity. discriminate. Qed.

(** ** The MaasPlatform controller *)

Lemma GetPlatform_eq ns n w :
  GetPlatform ns n w
  = (if hd false (faults w) then inl unavailable
     else match List.find (λ p, String.eqb (platformNamespace p) ns
                                && String.eqb (platformName p) n) (platforms (cluster w)) with
          | Some p => inr p
          | None => inl NotFound
          end,
     mkWorld (cluster w) (tl (faults w)) (trace w ++ [EGetPlatform ns n])).
Proof.
  unfold GetPlatform, bind, emit, fault, getCluster, ret; simpl.
  destruct (faults w) as [|[] fs]; simpl; try done;
    by destruct (List.find _ _).
Qed.

Lemma emits_StatusUpdate (P : Event → Prop) p :
  P (EStatusUpdate p) → emits P any (StatusUpdate p).
Proof. intros HP. unfold StatusUpdate. repeat emits_base; done. Qed.

Lemma emits_runUntilFailure P steps :
  Forall (emits P any) steps → emits P any (runUntilFailure steps).
Proof.
  induction 1 as [|step rest Hstep _ IH]; simpl; [by apply emits_ret|].
  eapply emits_bind; [apply Hstep|]. intros [err|] _; [by apply emits_ret|done].
Qed.

Lemma runUntilFailure_app steps1 steps2 w :
  runUntilFailure (steps1 ++ steps2) w
  = match runUntilFailure steps1 w with
    | (Some err, w') => (Some err, w')
    | (None, w') => runUntilFailure steps2 w'
    end.
Proof.
  revert w. induction steps1 as [|step rest IH]; intros w; [done|].
  simpl. unfold bind. destruct (step w) as [[err|] w1]; [done|]. apply IH.
Qed.

Lemma SetResourceVersion_same o : SetResourceVersion (resourceVersion o) o = o.
Proof. by destruct o. Qed.

Lemma elem_of_upsertOwnerRef ref owners : ref ∈ upsertOwnerRef ref owners.
Proof.
  induction owners as [|r rest IH]; simpl; [apply list_elem_of_here|].
  destruct (referSameObject r ref); [apply list_elem_of_here|by apply list_elem_of_further].
Qed.

(** [SetControllerReference] changes the owner references only, and puts the
    platform's controller reference among them. *)
Lemma SetControllerReference_inr h maasPlatform obj owned :
  SetControllerReference h maasPlatform obj = inr owned →
  ∃ apiVersion kind,
    schemeGVK h = Some (apiVersion, kind)
    ∧ owned = SetOwnerReferences
                (upsertOwnerRef (controllerRef apiVersion kind maasPlatform)
                   (ownerReferences obj)) obj.
Proof.
  unfold SetControllerReference, controllerRef.
  destruct (_ && _); [done|].
  destruct (schemeGVK h) as [[apiVersion kind]|]; [|done].
  intros H. exists apiVersion, kind. split; [done|].
  destruct (List.find ownerController (ownerReferences obj)) as [existing|].
  - destruct (referSameObject existing _); by simplify_eq.
  - by simplify_eq.
Qed.

Lemma rendered_owned h maasPlatform doc obj rv :
  yamlUnmarshal h doc = Some obj →
  rendered h maasPlatform (SetResourceVersion rv (ownedObject h maasPlatform obj)).
Proof.
  intros Hdoc. exists doc, obj. split; [done|]. unfold ownedObject.
  destruct (negb (String.eqb (namespace obj) "")
            && String.eqb (namespace obj) (platformNamespace maasPlatform)) eqn:Ens.
  - apply andb_true_iff in Ens as [Hne Heq].
    apply negb_true_iff, String.eqb_neq in Hne. apply String.eqb_eq in Heq.
    destruct (SetControllerReference h maasPlatform obj) as [err|owned] eqn:Eset.
    + repeat split; try done; intros; tauto.
    + destruct (SetControllerReference_inr _ _ _ _ Eset) as (apiVersion & kind & Hgvk & ->).
      rewrite Hgvk. repeat split; try done; [intros [?|?]; done|].
      simpl. apply elem_of_upsertOwnerRef.
  - repeat split; try done. intros Hne Heq.
    apply andb_false_iff in Ens as [Hn|Hn].
    + apply negb_false_iff, String.eqb_eq in Hn. done.
    + apply String.eqb_neq in Hn. done.
Qed.

Section Deploy.
Context (P : Event → Prop) (h : Host) (maasPlatform : MaasPlatform).
Hypothesis HGet : ∀ key, P (EGet key).
Hypothesis HLog : ∀ e, isLog e → P e.
Hypothesis HWrite : ∀ o, rendered h maasPlatform o → P (ECreate o) ∧ P (EUpdate o).

Lemma emits_setOwner obj :
  emits P (λ o, o = ownedObject h maasPlatform obj) (setOwner h maasPlatform obj).
Proof.
  unfold setOwner, ownedObject.
  destruct (negb (String.eqb (namespace obj) "")
            && String.eqb (namespace obj) (platformNamespace maasPlatform)).
  - destruct (SetControllerReference h maasPlatform obj);
      repeat emits_step; solve [done | by apply HLog].
  - repeat emits_step; solve [done | by apply HLog].
Qed.

Lemma emits_applyUnstructured doc obj :
  yamlUnmarshal h doc = Some obj →
  emits P any (applyUnstructured (ownedObject h maasPlatform obj)).
Proof.
  intros Hdoc. unfold applyUnstructured.
  repeat emits_step; try done; try apply HGet.
  - apply HWrite. rewrite <- (SetResourceVersion_same (ownedObject _ _ _)).
    by eapply rendered_owned.
  - apply HWrite. by eapply rendered_owned.
Qed.

Lemma emits_deployDocuments skipConfigMap documents :
  emits P any (deployDocuments h maasPlatform skipConfigMap documents).
Proof.
  induction documents as [|doc rest IH]; simpl; [by apply emits_ret|].
  destruct (length doc =? 0)%nat; [done|].
  destruct (yamlUnmarshal h doc) as [obj|] eqn:Hdoc;
    [|eapply emits_bind; [by apply emits_logInfo, HLog|done]].
  assert (emits P any
            (let! obj0 := setOwner h maasPlatform obj in
             let! err := applyUnstructured obj0 in
             match err with
             | Some e =>
                 ret (Some (Wrapped ("failed to apply resource " +:+ kind obj0 +:+ "/"
                                     +:+ name obj0) e))
             | None =>
                 do! logInfo "Successfully deployed resource" in
                 deployDocuments h maasPlatform skipConfigMap rest
             end)) as Happly.
  { eapply emits_bind; [apply emits_setOwner|]. intros obj0 ->.
    eapply emits_bind; [by eapply emits_applyUnstructured|]. intros [e|] _.
    - by apply emits_ret.
    - eapply emits_bind; [by apply emits_logInfo, HLog|done]. }
  destruct (_ && _ && _).
  { eapply emits_bind; [by apply emits_logInfo, HLog|done]. }
  destruct (String.eqb (kind obj) "PersistentVolumeClaim"); [|exact Happly].
  eapply emits_bind; [apply emits_Get, HGet|]. intros [[e|] existing] _.
  - destruct (IsNotFound e); [exact Happly|by apply emits_ret].
  - eapply emits_bind; [by apply emits_logInfo, HLog|done].
Qed.

Lemma emits_clusterDomain : emits P any (clusterDomain h).
Proof.
  unfold clusterDomain.
  repeat emits_step; first [exact I | apply HGet | by apply HLog].
Qed.

Lemma emits_deployEmbeddedManifest path skipConfigMap :
  emits P any (deployEmbeddedManifest h path maasPlatform skipConfigMap).
Proof.
  unfold deployEmbeddedManifest, substituteEnvVars.
  destruct (manifestsFS h path) as [data|]; [|by apply emits_ret].
  eapply emits_bind.
  { eapply emits_bind; [apply emits_clusterDomain|]. intros d _. emits_step. exact I. }
  intros dataStr _.
  destruct (splitYAMLDocuments _) as [documents [err|]]; [by apply emits_ret|].
  apply emits_deployDocuments.
Qed.

End Deploy.

Lemma emits_ensureEach (P : Event → Prop) namespaces :
  (∀ e, ¬ isStatusUpdate e → P e) → emits P any (ensureEach namespaces).
Proof.
  intros HP. induction namespaces as [|ns rest IH]; simpl; [by apply emits_ret|].
  repeat emits_step; first [exact I | done | apply HP; intros []].
Qed.

(** Destruct the runs of a computation one after the other, whatever they
    return. *)
Ltac run_each :=
  repeat (cbn [fst snd];
          match goal with
          | |- context [let '(_, _) := ?m ?w in _] =>
              first [destruct (m w) as [[?|] ?] | destruct (m w) as [? ?]]
          end).



(** A run for a platform that is there, with a host whose third manifest
    group cannot be read: the first two groups are deployed and stay, the
    call returns the error, the status is not updated. *)
Example MaasPlatformReconcile_third_group_fails :
  let h := mkHost (λ path, if String.eqb path "manifests/policies/gateway-auth-policy.yaml"
                           then None else Examples.manifests path)
             "" Examples.decode (Some ("myapp.io.odh.maas/v1alpha1", "MaasPlatform")) in
  let run := MaasPlatformReconcile h "maas-system" "maas"
               (mkWorld Examples.clusterWithClaim [] []) in
  run.1 = Some (Wrapped "failed to read embedded manifest manifests/policies/gateway-auth-policy.yaml"
                  (Failure "file does not exist"))
  ∧ objects (cluster run.2) !! keyOf Examples.service
    = Some (SetResourceVersion 1 Examples.service)
  ∧ Forall (λ e, ¬ isStatusUpdate e) (trace run.2).
Proof.
  split; [reflexivity|]. split; [reflexivity|].
  vm_compute trace. repeat (apply Forall_cons; split); try (by apply Forall_nil); intros [].
Qed.



(** ** Claims that exist already *)

Lemma hoare_ret {A} (P : World → Prop) (Q : A → World → Prop) (a : A) :
  (∀ w, P w → Q a w) → hoare P (ret a) Q.
Proof. intros H w Hw. by apply H. Qed.

Lemma hoare_bind {A B} (P : World → Prop) (Q : A → World → Prop) (R : B → World → Prop)
    (m : M A) (k : A → M B) :
  hoare P m Q → (∀ a, hoare (Q a) (k a) R) → hoare P (bind m k) R.
Proof. intros Hm Hk w Hw. rewrite bind_eq. apply Hk, Hm, Hw. Qed.

Lemma hoare_weaken {A} (P P' : World → Prop) (Q Q' : A → World → Prop) (m : M A) :
  (∀ w, P' w → P w) → (∀ a w, Q a w → Q' a w) → hoare P m Q → hoare P' m Q'.
Proof. intros HP HQ Hm w Hw. apply HQ, Hm, HP, Hw. Qed.

(** A fact that does not depend on the world can be taken out of the
    precondition. *)
Lemma hoare_pure {A} (φ : Prop) (P : World → Prop) (Q : A → World → Prop) (m : M A) :
  (φ → hoare P m Q) → hoare (λ w, P w ∧ φ) m Q.
Proof. intros H w [Hw Hφ]. by apply H. Qed.

Lemma Create_eq obj w :
  Create obj w
  = (if hd false (faults w) then Some unavailable
     else match objects (cluster w) !! keyOf obj with
          | Some _ => Some AlreadyExists
          | None => None
          end,
     mkWorld
       (if hd false (faults w) then cluster w
        else match objects (cluster w) !! keyOf obj with
             | Some _ => cluster w
             | None =>
                 mkCluster (platforms (cluster w)) (tiers (cluster w))
                   (<[keyOf obj := SetResourceVersion 1 obj]> (objects (cluster w)))
             end)
       (tl (faults w)) (trace w ++ [ECreate obj])).
Proof.
  unfold Create, bind, emit, fault, getCluster, setObjects, ret; simpl.
  destruct (faults w) as [|[] fs]; simpl; try done;
    by destruct (objects (cluster w) !! keyOf obj).
Qed.

Lemma Update_eq obj w :
  Update obj w
  = (if hd false (faults w) then Some unavailable
     else match objects (cluster w) !! keyOf obj with
          | None => Some NotFound
          | Some stored =>
              if negb (resourceVersion obj =? 0)%nat
                 && negb (resourceVersion obj =? resourceVersion stored)%nat
              then Some Conflict else None
          end,
     mkWorld
       (if hd false (faults w) then cluster w
        else match objects (cluster w) !! keyOf obj with
             | None => cluster w
             | Some stored =>
                 if negb (resourceVersion obj =? 0)%nat
                    && negb (resourceVersion obj =? resourceVersion stored)%nat
                 then cluster w
                 else mkCluster (platforms (cluster w)) (tiers (cluster w))
                        (<[keyOf obj := SetResourceVersion (S (resourceVersion stored)) obj]>
                           (objects (cluster w)))
             end)
       (tl (faults w)) (trace w ++ [EUpdate obj])).
Proof.
  unfold Update, bind, emit, fault, getCluster, setObjects, ret; simpl.
  destruct (faults w) as [|[] fs]; simpl; try done;
    destruct (objects (cluster w) !! keyOf obj) as [stored|]; try done;
    by destruct (_ && _).
Qed.

Lemma keyOf_ownedObject h maasPlatform obj :
  keyOf (ownedObject h maasPlatform obj) = keyOf obj.
Proof.
  unfold ownedObject. destruct (_ && _); [|done].
  destruct (SetControllerReference h maasPlatform obj) as [|owned] eqn:E; [done|].
  by destruct (SetControllerReference_inr _ _ _ _ E) as (? & ? & _ & ->).
Qed.

Section ExistingClaim.
Context (h : Host) (maasPlatform : MaasPlatform).
Context (key : ObjectKey) (stored : Unstructured) (w0 : World).

Local Abbreviation kept := (claimKept key stored w0).

Lemma claimKept_step w evs c fs :
  kept w → Forall (λ e, ¬ writes key e) evs →
  objects c !! key = Some stored →
  kept (mkWorld c fs (trace w ++ evs)).
Proof.
  intros [Hobj Hext] Hevs Hc. split; [done|].
  eapply extends_trans; [done|]. by exists evs.
Qed.

Lemma claimKept_emit e : ¬ writes key e → hoare kept (emit e) (λ _, kept).
Proof.
  intros He w Hw. unfold emit. simpl.
  apply claimKept_step; [done|by apply Forall_singleton|apply Hw].
Qed.

Lemma claimKept_Get k obj :
  hoare kept (Get k obj)
    (λ r w, kept w ∧ (k = key → ∀ e, r.1 = Some e → IsNotFound e = false)).
Proof.
  intros w Hw. rewrite Get_eq. cbn [fst snd]. split.
  - apply claimKept_step; [done| |apply Hw]. apply Forall_singleton. by intros [].
  - intros -> e. destruct Hw as [Hobj _]. rewrite Hobj.
    destruct (hd false (faults w)); simpl; intros; by simplify_eq.
Qed.

Lemma claimKept_Create obj :
  keyOf obj ≠ key → hoare kept (Create obj) (λ _, kept).
Proof.
  intros Hk w Hw. rewrite Create_eq. cbn [fst snd].
  apply claimKept_step; [done|apply Forall_singleton; exact Hk|].
  destruct Hw as [Hobj _].
  destruct (hd false (faults w)); [done|].
  destruct (objects (cluster w) !! keyOf obj); [done|].
  simpl. by rewrite lookup_insert_ne.
Qed.

Lemma claimKept_Update obj :
  keyOf obj ≠ key → hoare kept (Update obj) (λ _, kept).
Proof.
  intros Hk w Hw. rewrite Update_eq. cbn [fst snd].
  apply claimKept_step; [done|apply Forall_singleton; exact Hk|].
  destruct Hw as [Hobj _].
  destruct (hd false (faults w)); [done|].
  destruct (objects (cluster w) !! keyOf obj); [|done].
  destruct (_ && _); [done|]. simpl. by rewrite lookup_insert_ne.
Qed.

Lemma claimKept_log msg : hoare kept (logInfo msg) (λ _, kept).
Proof. apply claimKept_emit. intros []. Qed.

Lemma claimKept_setOwner obj :
  hoare kept (setOwner h maasPlatform obj)
    (λ o w, kept w ∧ o = ownedObject h maasPlatform obj).
Proof.
  unfold setOwner, ownedObject.
  destruct (negb (String.eqb (namespace obj) "")
            && String.eqb (namespace obj) (platformNamespace maasPlatform)).
  - destruct (SetControllerReference h maasPlatform obj).
    + eapply hoare_bind; [by apply claimKept_log|]. intros ?. by apply hoare_ret.
    + by apply hoare_ret.
  - destruct (negb _).
    + eapply hoare_bind; [apply claimKept_emit; intros []|]. intros ?. by apply hoare_ret.
    + by apply hoare_ret.
Qed.

Lemma claimKept_applyUnstructured obj :
  keyOf obj ≠ key → hoare kept (applyUnstructured obj) (λ _, kept).
Proof.
  intros Hk. unfold applyUnstructured.
  eapply hoare_bind; [apply claimKept_Get|]. intros [[e|] current]; simpl.
  - destruct (IsNotFound e).
    + eapply hoare_weaken; [| |by apply claimKept_Create]; [intros w Hw; apply Hw|done].
    + apply hoare_ret. intros w Hw; apply Hw.
  - eapply hoare_weaken; [| |by apply claimKept_Update]; [intros w Hw; apply Hw|done].
Qed.

Lemma claimKept_clusterDomain : hoare kept (clusterDomain h) (λ _, kept).
Proof.
  unfold clusterDomain. destruct (String.eqb (CLUSTER_DOMAIN h) ""); [|by apply hoare_ret].
  eapply hoare_bind; [apply claimKept_Get|]. intros [err ingressConfig]; simpl.
  apply (hoare_bind _ (λ _, kept)).
  - destruct err as [e|]; [apply hoare_ret; intros w Hw; apply Hw|].
    destruct (NestedString ingressConfig ["spec"; "domain"]).
    + apply (hoare_bind _ (λ _, kept)); [|intros ?; by apply hoare_ret].
      eapply hoare_weaken; [| |apply claimKept_log]; [intros w Hw; apply Hw|done].
    + apply hoare_ret. intros w Hw; apply Hw.
  - intros d. destruct (String.eqb d ""); [|by apply hoare_ret].
    eapply hoare_bind; [by apply claimKept_log|]. intros ?. by apply hoare_ret.
Qed.

Hypothesis Hkind : key.1.1.2 = "PersistentVolumeClaim".

Lemma claimKept_deployDocuments skipConfigMap documents :
  hoare kept (deployDocuments h maasPlatform skipConfigMap documents) (λ _, kept).
Proof.
  induction documents as [|doc rest IH]; simpl; [by apply hoare_ret|].
  destruct (length doc =? 0)%nat; [done|].
  destruct (yamlUnmarshal h doc) as [obj|] eqn:Hdoc;
    [|eapply hoare_bind; [by apply claimKept_log|done]].
  assert (keyOf obj ≠ key →
          hoare kept
            (let! obj0 := setOwner h maasPlatform obj in
             let! err := applyUnstructured obj0 in
             match err with
             | Some e =>
                 ret (Some (Wrapped ("failed to apply resource " +:+ kind obj0 +:+ "/"
                                     +:+ name obj0) e))
             | None =>
                 do! logInfo "Successfully deployed resource" in
                 deployDocuments h maasPlatform skipConfigMap rest
             end) (λ _, kept)) as Happly.
  { intros Hk. eapply hoare_bind; [apply claimKept_setOwner|]. intros obj0.
    apply hoare_pure. intros ->.
    eapply hoare_bind;
      [apply claimKept_applyUnstructured; by rewrite keyOf_ownedObject|].
    intros [e|]; [by apply hoare_ret|].
    eapply hoare_bind; [by apply claimKept_log|done]. }
  destruct (_ && _ && _).
  { eapply hoare_bind; [by apply claimKept_log|done]. }
  destruct (String.eqb (kind obj) "PersistentVolumeClaim") eqn:Ekind.
  - eapply hoare_bind; [apply claimKept_Get|]. intros [[e|] existing]; simpl.
    + destruct (IsNotFound e) eqn:Enf.
      * intros w [Hw Hnf]. apply Happly; [|done].
        intros Hk. specialize (Hnf Hk e eq_refl). congruence.
      * apply hoare_ret. intros w Hw; apply Hw.
    + apply (hoare_bind _ (λ _, kept)); [|intros ?; exact IH].
      eapply hoare_weaken; [| |apply claimKept_log]; [intros w Hw; apply Hw|done].
  - apply Happly. intros Hk. apply String.eqb_neq in Ekind. apply Ekind.
    rewrite <- Hkind, <- Hk. by destruct obj.
Qed.

Lemma claimKept_deployEmbeddedManifest path skipConfigMap :
  hoare kept (deployEmbeddedManifest h path maasPlatform skipConfigMap)
    (λ _, kept).
Proof.
  unfold deployEmbeddedManifest, substituteEnvVars.
  destruct (manifestsFS h path) as [data|]; [|by apply hoare_ret].
  apply (hoare_bind _ (λ _, kept)).
  { eapply hoare_bind; [apply claimKept_clusterDomain|]. intros d.
    apply hoare_ret. intros w Hw. exact Hw. }
  intros dataStr.
  destruct (splitYAMLDocuments _) as [documents [err|]]; [by apply hoare_ret|].
  apply claimKept_deployDocuments.
Qed.

End ExistingClaim.

Lemma setOwner_eq h maasPlatform obj w :
  ∃ logs,
    setOwner h maasPlatform obj w
    = (ownedObject h maasPlatform obj, mkWorld (cluster w) (faults w) (trace w ++ logs)).
Proof.
  unfold setOwner, ownedObject.
  destruct (negb (String.eqb (namespace obj) "")
            && String.eqb (namespace obj) (platformNamespace maasPlatform)).
  - destruct (SetControllerReference h maasPlatform obj).
    + by eexists [_].
    + exists []. rewrite app_nil_r. by destruct w.
  - destruct (negb _).
    + by eexists [_].
    + exists []. rewrite app_nil_r. by destruct w.
Qed.



(** The same group on a cluster without the claim: the claim is created. *)
Example deployEmbeddedManifest_creates_missing_claim :
  objects (cluster (deployEmbeddedManifest Examples.host "manifests/maas-api/resources.yaml"
                      Examples.platform true
                      (mkWorld (mkCluster [Examples.platform] [] ∅) [] [])).2)
    !! keyOf Examples.claim
  = Some (SetResourceVersion 1 Examples.claim).
Proof. reflexivity. Qed.

(** ** What the policy updates store *)

(** With no policy in the cluster and the calls going through, the policy is
    created with the fixed target and the limits as its [spec]. *)
Lemma updatePolicy_creates key what limits w :
  faults w = [] → objects (cluster w) !! key = None →
  let policy :=
    SetNestedMap (policySpec limits) "spec"
      (withIdentity key (newObject "" "")) in
  updatePolicy key what limits w
  = (None,
     mkWorld (mkCluster (platforms (cluster w)) (tiers (cluster w))
                (<[key := SetResourceVersion 1 policy]> (objects (cluster w))))
       [] (trace w ++ [EGet key; EGet key; ECreate policy; ELogInfo ("Created " +:+ what)]))
  ∧ content policy !! "spec" = Some (VMap (policySpec limits)).
Proof.
  intros Hf Hnone policy. subst policy. destruct key as [[[av k] ns] n].
  split; [|unfold SetNestedMap; simpl; by rewrite lookup_insert_eq].
  unfold updatePolicy. unfold bind at 1. rewrite Get_eq, Hf, Hnone.
  cbn [hd tl IsNotFound]. unfold bind at 1. rewrite Get_eq.
  cbn [cluster faults trace hd tl]. rewrite Hnone. cbn [IsNotFound].
  unfold bind at 1. rewrite Create_eq. cbn [cluster faults trace hd tl].
  change (keyOf (SetNestedMap (policySpec limits) "spec"
                   (SetNamespace ns (SetName n (newObject av k)))))
    with (av, k, ns, n).
  rewrite Hnone. unfold bind, logInfo, emit, ret. cbn [cluster faults trace].
  rewrite <- !app_assoc. reflexivity.
Qed.

(** With the policy in the cluster and the calls going through, the object
    that goes to [Update] is the one the second [Get] read back: the policy
    keeps the content it had, under the next resource version. *)
Lemma updatePolicy_existing key what limits w stored :
  faults w = [] → objects (cluster w) !! key = Some stored →
  updatePolicy key what limits w
  = (None,
     mkWorld (mkCluster (platforms (cluster w)) (tiers (cluster w))
                (<[key := SetResourceVersion (S (resourceVersion stored))
                            (withIdentity key stored)]> (objects (cluster w))))
       [] (trace w ++ [EGet key; EGet key; EUpdate (withIdentity key stored);
                       ELogInfo ("Updated " +:+ what)])).
Proof.
  intros Hf Hstored.
  destruct key as [[[av k] ns] n].
  unfold updatePolicy. unfold bind at 1. rewrite Get_eq, Hf, Hstored.
  cbn [hd tl]. unfold bind at 1. rewrite Get_eq.
  cbn [cluster faults trace hd tl]. rewrite Hstored.
  unfold bind at 1. rewrite Update_eq. cbn [cluster faults trace hd tl].
  rewrite keyOf_withIdentity, Hstored.
  change (resourceVersion (withIdentity (av, k, ns, n) stored)) with (resourceVersion stored).
  rewrite Nat.eqb_refl, andb_false_r.
  unfold bind, logInfo, emit, ret. cbn [cluster faults trace].
  rewrite <- !app_assoc. reflexivity.
Qed.

(** The aggregation scenario on a cluster without the artifacts: the pass
    goes through and leaves the two policies with the limits of the two
    tiers, and the tier ConfigMap with their mapping. *)
Example reconcileMaasPlatformTiers_first_pass :
  let pass := reconcileMaasPlatformTiers Examples.platform (mkWorld Examples.clusterAB [] []) in
  pass.1 = None
  ∧ (objects (cluster pass.2) !! rateLimitPolicyKey) ≫= (λ p, content p !! "spec")
    = Some (VMap (policySpec (rateLimits [Examples.tierA; Examples.tierB])))
  ∧ (objects (cluster pass.2) !! tokenRateLimitPolicyKey) ≫= (λ p, content p !! "spec")
    = Some (VMap (policySpec (tokenRateLimits [Examples.tierA; Examples.tierB])))
  ∧ (objects (cluster pass.2) !! configMapKey) ≫= (λ p, content p !! "data")
    = Some (VMap {[ "tiers" := VString (tierMappings [Examples.tierA; Examples.tierB]) ]}).
Proof. vm_compute. repeat split; reflexivity. Qed.

(** * Further properties *)

(** ** What a call changes *)

Lemma journaled_ret {A} (a : A) : journaled (ret a).
Proof.
  intros w. exists []. simpl. rewrite app_nil_r. repeat split; done.
Qed.

Lemma journaled_bind {A B} (m : M A) (k : A → M B) :
  journaled m → (∀ a, journaled (k a)) → journaled (bind m k).
Proof.
  intros Hm Hk w. rewrite bind_eq.
  destruct (Hm w) as (evs1 & Ht1 & Hp1 & Hti1 & Ho1 & Hs1).
  destruct (Hk (m w).1 (m w).2) as (evs2 & Ht2 & Hp2 & Hti2 & Ho2 & Hs2).
  exists (evs1 ++ evs2). rewrite Ht2, Ht1, Hp2, Hp1, Hti2, Hti1, app_assoc.
  repeat split; try done.
  - intros key Hk'. apply Forall_app in Hk' as [H1 H2].
    by rewrite Ho2, Ho1.
  - intros key Hsome. by apply Hs2, Hs1.
Qed.

Lemma journaled_emit e : journaled (emit e).
Proof. intros w. exists [e]. repeat split; done. Qed.

Lemma journaled_fault : journaled fault.
Proof.
  intros w. exists []. rewrite app_nil_r. unfold fault.
  destruct (faults w); repeat split; done.
Qed.

Lemma journaled_getCluster : journaled getCluster.
Proof. apply (journaled_ret (A := unit) tt). Qed.

Lemma journaled_Create obj : journaled (Create obj).
Proof.
  intros w. exists [ECreate obj]. rewrite Create_eq. cbn [fst snd trace cluster].
  split; [done|].
  destruct (hd false (faults w)); [repeat split; done|].
  destruct (objects (cluster w) !! keyOf obj) eqn:E; [repeat split; done|].
  cbn [platforms tiers objects]. repeat split; try done.
  - intros k Hk. rewrite Forall_singleton in Hk. unfold writes in Hk.
    by rewrite lookup_insert_ne.
  - intros k Hk. destruct (decide (keyOf obj = k)) as [<-|Hne].
    + by rewrite lookup_insert_eq.
    + by rewrite lookup_insert_ne.
Qed.

Lemma journaled_Update obj : journaled (Update obj).
Proof.
  intros w. exists [EUpdate obj]. rewrite Update_eq. cbn [fst snd trace cluster].
  split; [done|].
  destruct (hd false (faults w)); [repeat split; done|].
  destruct (objects (cluster w) !! keyOf obj) eqn:E; [|repeat split; done].
  destruct (_ && _); [repeat split; done|].
  cbn [platforms tiers objects]. repeat split; try done.
  - intros k Hk. rewrite Forall_singleton in Hk. unfold writes in Hk.
    by rewrite lookup_insert_ne.
  - intros k Hk. destruct (decide (keyOf obj = k)) as [<-|Hne].
    + by rewrite lookup_insert_eq.
    + by rewrite lookup_insert_ne.
Qed.

(** Decompose a computation along its binds and case distinctions, the
    calls that write taken as wholes. *)
Ltac journal :=
  repeat lazymatch goal with
    | |- journaled (ret _) => apply journaled_ret
    | |- journaled (bind _ _) => apply journaled_bind; [|intros ?]
    | |- journaled fault => apply journaled_fault
    | |- journaled getCluster => apply journaled_getCluster
    | |- journaled (emit _) => apply journaled_emit
    | |- journaled (logInfo _) => apply journaled_emit
    | |- journaled (logDebug _) => apply journaled_emit
    | |- journaled (logError _ _) => apply journaled_emit
    | |- journaled (Create _) => apply journaled_Create
    | |- journaled (Update _) => apply journaled_Update
    | |- journaled (match ?x with _ => _ end) => destruct x
    end.

Lemma journaled_Get key obj : journaled (Get key obj).
Proof. unfold Get. journal. Qed.

Lemma journaled_GetTier ns n : journaled (GetTier ns n).
Proof. unfold GetTier. journal. Qed.

Lemma journaled_GetPlatform ns n : journaled (GetPlatform ns n).
Proof. unfold GetPlatform. journal. Qed.

Lemma journaled_ListTiers : journaled ListTiers.
Proof. unfold ListTiers. journal. Qed.

Lemma journaled_ListPlatforms : journaled ListPlatforms.
Proof. unfold ListPlatforms. journal. Qed.

Lemma journaled_StatusUpdate p : journaled (StatusUpdate p).
Proof. unfold StatusUpdate. journal. Qed.

(** The same with the reads taken as wholes. *)
Ltac journal_calls :=
  repeat lazymatch goal with
    | |- journaled (Get _ _) => apply journaled_Get
    | |- journaled (GetTier _ _) => apply journaled_GetTier
    | |- journaled (GetPlatform _ _) => apply journaled_GetPlatform
    | |- journaled ListTiers => apply journaled_ListTiers
    | |- journaled ListPlatforms => apply journaled_ListPlatforms
    | |- journaled (StatusUpdate _) => apply journaled_StatusUpdate
    | |- journaled (ret _) => apply journaled_ret
    | |- journaled (bind _ _) => apply journaled_bind; [|intros ?]
    | |- journaled (logInfo _) => apply journaled_emit
    | |- journaled (logDebug _) => apply journaled_emit
    | |- journaled (logError _ _) => apply journaled_emit
    | |- journaled (Create _) => apply journaled_Create
    | |- journaled (Update _) => apply journaled_Update
    | |- journaled (match ?x with _ => _ end) => destruct x
    end.

(** What the events of a call rule out, the cluster is spared. *)
Lemma journaled_frame {A} (P : Event → Prop) (Q : A → Prop) (m : M A) k w :
  journaled m → emits P Q m → (∀ e, P e → ¬ writes k e) →
  objects (cluster (m w).2) !! k = objects (cluster w) !! k.
Proof.
  intros Hj He HP.
  destruct (Hj w) as (evs & Ht & _ & _ & Ho & _).
  destruct (He w) as [(evs' & Ht' & HF) _].
  rewrite Ht in Ht'. apply app_inv_head in Ht'. subst evs'.
  apply Ho. eapply Forall_impl; eauto.
Qed.

Lemma journaled_updateTierConfigMap tiers maasPlatform :
  journaled (updateTierConfigMap tiers maasPlatform).
Proof. unfold updateTierConfigMap. journal_calls. Qed.

Lemma journaled_updatePolicy key what limits : journaled (updatePolicy key what limits).
Proof. unfold updatePolicy. destruct key as [[[av k] ns] n]. journal_calls. Qed.

Lemma journaled_reconcileMaasPlatformTiers maasPlatform :
  journaled (reconcileMaasPlatformTiers maasPlatform).
Proof.
  unfold reconcileMaasPlatformTiers.
  repeat first [ apply journaled_updateTierConfigMap
               | apply journaled_updatePolicy
               | progress journal_calls ].
Qed.

Lemma journaled_reconcileEach items : journaled (reconcileEach items).
Proof.
  induction items as [|mp rest IH]; simpl; [apply journaled_ret|].
  apply journaled_bind; [apply journaled_reconcileMaasPlatformTiers|]. intros err.
  apply journaled_bind; [|done]. destruct err; [apply journaled_emit|apply journaled_ret].
Qed.

Lemma journaled_TierReconcile ns n : journaled (TierReconcile ns n).
Proof.
  unfold TierReconcile, reconcileAllMaasPlatforms.
  repeat first [ apply journaled_reconcileMaasPlatformTiers
               | apply journaled_reconcileEach
               | progress journal_calls ].
Qed.

(** ** The Tier controller and the rest of the cluster *)

Lemma tierEvent_touches key e : isArtifact key → touches key e ∨ isLog e → tierEvent e.
Proof.
  intros Hkey [H|H]; destruct e; simpl in *; try done; by subst.
Qed.

Lemma emits_tierEvent_reconcileMaasPlatformTiers maasPlatform :
  emits tierEvent any (reconcileMaasPlatformTiers maasPlatform).
Proof.
  unfold reconcileMaasPlatformTiers.
  eapply emits_bind; [by apply emits_ListTiers|]. intros [err|items] _.
  { repeat emits_step; done. }
  destruct (length _ =? 0)%nat; [repeat emits_step; done|].
  eapply emits_bind.
  { eapply emits_weaken; [|done|apply emits_updateTierConfigMap].
    intros e. apply tierEvent_touches. by left. }
  intros [err|] _; [repeat emits_step; done|].
  eapply emits_bind.
  { eapply emits_weaken; [|done|apply emits_updatePolicy].
    intros e. apply tierEvent_touches. right. by left. }
  intros [err|] _; [repeat emits_step; done|].
  eapply emits_bind.
  { eapply emits_weaken; [|done|apply emits_updatePolicy].
    intros e. apply tierEvent_touches. right. by right. }
  intros [err|] _; repeat emits_step; done.
Qed.

Lemma emits_tierEvent_reconcileEach items : emits tierEvent any (reconcileEach items).
Proof.
  induction items as [|mp rest IH]; simpl; [by apply emits_ret|].
  eapply emits_bind; [apply emits_tierEvent_reconcileMaasPlatformTiers|]. intros err _.
  eapply emits_bind; [|done]. destruct err; repeat emits_step; done.
Qed.

Lemma emits_tierEvent_TierReconcile ns n : emits tierEvent any (TierReconcile ns n).
Proof.
  unfold TierReconcile.
  eapply emits_bind; [unfold GetTier; repeat emits_base; done|]. intros [err|tier] _.
  - destruct (IsNotFound err); [|repeat emits_step; done].
    eapply emits_bind; [by apply emits_logInfo|]. intros _ _.
    unfold reconcileAllMaasPlatforms.
    eapply emits_bind; [unfold ListPlatforms; repeat emits_base; done|].
    intros [err'|items] _; [repeat emits_step; done|].
    eapply emits_bind; [apply emits_tierEvent_reconcileEach|]. intros _ _.
    by apply emits_ret.
  - eapply emits_bind; [unfold GetPlatform; repeat emits_base; done|].
    intros [err|maasPlatform] _; [repeat emits_step; done|].
    apply emits_tierEvent_reconcileMaasPlatformTiers.
Qed.

(** X1: Whatever the request and whichever calls fail, [Reconcile] of the Tier
    controller makes no call on an object other than the tier ConfigMap and
    the two policies, and it leaves the rest of the cluster as it is: the
    platforms, the tiers and every other object. It removes no object. *)
Theorem TierReconcile_only_artifacts ns n w :
  let w' := (TierReconcile ns n w).2 in
  extends tierEvent w w'
  ∧ platforms (cluster w') = platforms (cluster w)
  ∧ tiers (cluster w') = tiers (cluster w)
  ∧ (∀ k, ¬ isArtifact k → objects (cluster w') !! k = objects (cluster w) !! k)
  ∧ (∀ k, is_Some (objects (cluster w) !! k) → is_Some (objects (cluster w') !! k)).
Proof.
  intros w'. subst w'.
  destruct (journaled_TierReconcile ns n w) as (evs & Ht & Hp & Hti & _ & Hs).
  split; [apply emits_tierEvent_TierReconcile|].
  split; [done|]. split; [done|]. split; [|done].
  intros k Hk.
  apply (journaled_frame tierEvent any);
    [apply journaled_TierReconcile|apply emits_tierEvent_TierReconcile|].
  intros e He Hw. destruct e; simpl in *; try done; by subst.
Qed.

(** ** A request for a tier that is there *)

(** X2: For a tier that is there (the two lookups going through), [Reconcile]
    looks the platform up under the tier's target name, in the target
    namespace or, when that is empty, in the tier's own. When there is no
    such platform the call returns the not-found error after logging it,
    with nothing written. When there is one, the call is the pass for this
    platform, and the filter of the pass resolves the target the same way:
    the tier is among the tiers the pass aggregates. *)
Theorem TierReconcile_existing_tier ns n w tier :
  List.find (λ t, String.eqb (tierNamespace t) ns && String.eqb (tierName t) n)
    (tiers (cluster w)) = Some tier →
  hd false (faults w) = false →
  hd false (tl (faults w)) = false →
  let platformNs :=
    if String.eqb (targetNamespace (TargetRef (Spec tier))) "" then tierNamespace tier
    else targetNamespace (TargetRef (Spec tier)) in
  let target := targetName (TargetRef (Spec tier)) in
  let w2 := mkWorld (cluster w) (tl (tl (faults w)))
              (trace w ++ [EGetTier ns n; EGetPlatform platformNs target]) in
  match List.find (λ p, String.eqb (platformNamespace p) platformNs
                        && String.eqb (platformName p) target) (platforms (cluster w)) with
  | None =>
      TierReconcile ns n w
      = (Some NotFound,
         mkWorld (cluster w) (tl (tl (faults w)))
           (trace w ++ [EGetTier ns n; EGetPlatform platformNs target;
                        ELogError NotFound "Failed to get target MaasPlatform"]))
  | Some maasPlatform =>
      TierReconcile ns n w = reconcileMaasPlatformTiers maasPlatform w2
      ∧ tier ∈ List.filter (targets maasPlatform) (tiers (cluster w2))
  end.
Proof.
  intros Htier Hf1 Hf2 platformNs target w2.
  assert (TierReconcile ns n w
          = match GetPlatform platformNs target (GetTier ns n w).2 with
            | (inl err, w') =>
                (Some err, (logError err "Failed to get target MaasPlatform" w').2)
            | (inr maasPlatform, w') => reconcileMaasPlatformTiers maasPlatform w'
            end) as ->.
  { unfold TierReconcile, bind at 1. rewrite GetTier_eq, Hf1, Htier.
    fold platformNs target. unfold bind at 1. cbn [snd].
    by destruct (GetPlatform _ _ _) as [[err|maasPlatform] w']. }
  rewrite GetTier_eq, GetPlatform_eq. cbn [snd cluster faults trace]. rewrite Hf2.
  rewrite <- app_assoc. cbn [app]. fold w2.
  destruct (List.find _ (platforms (cluster w))) as [maasPlatform|] eqn:Hp.
  - split; [done|].
    apply list_elem_of_In, List.filter_In.
    apply List.find_some in Htier as [Hin _].
    apply List.find_some in Hp as [_ Hp].
    apply andb_true_iff in Hp as [Hns Hname].
    apply String.eqb_eq in Hns, Hname.
    split; [done|]. unfold targets. fold platformNs target.
    rewrite Hns, Hname, !String.eqb_refl. done.
  - unfold logError, emit, w2. cbn [snd cluster faults trace].
    by rewrite <- !app_assoc.
Qed.

(** The theorem at tier A of the example cluster, which names no target
    namespace: the platform is looked up in the tier's namespace. *)
Lemma TierReconcile_existing_tier_witness :
  TierReconcile "maas-system" "A" (mkWorld Examples.clusterAB [] [])
  = reconcileMaasPlatformTiers Examples.platform
      (mkWorld Examples.clusterAB []
         [EGetTier "maas-system" "A"; EGetPlatform "maas-system" "maas"])
  ∧ Examples.tierA
    ∈ List.filter (targets Examples.platform)
        (tiers (cluster (mkWorld Examples.clusterAB []
                           [EGetTier "maas-system" "A"; EGetPlatform "maas-system" "maas"]))).
Proof.
  exact (TierReconcile_existing_tier "maas-system" "A" (mkWorld Examples.clusterAB [] [])
           Examples.tierA eq_refl eq_refl eq_refl).
Defined.


(** ** The tier mapping *)

Lemma ltb_lt (s t : string) : String.ltb s t = true ↔ OrderedTypeEx.String_as_OT.lt s t.
Proof.
  unfold String.ltb. rewrite <- OrderedTypeEx.String_as_OT.cmp_lt.
  unfold OrderedTypeEx.String_as_OT.cmp. by destruct (String.compare s t).
Qed.

Lemma ltb_trans (s t u : string) :
  String.ltb s t = true → String.ltb t u = true → String.ltb s u = true.
Proof. rewrite !ltb_lt. apply OrderedTypeEx.String_as_OT.lt_trans. Qed.

Lemma ltb_asym (s t : string) : String.ltb s t = true → String.ltb t s = false.
Proof.
  unfold String.ltb. rewrite (String.compare_antisym t s).
  by destruct (String.compare s t).
Qed.

Lemma ltb_total (s t : string) :
  String.ltb s t = false → String.ltb t s = false → s = t.
Proof.
  unfold String.ltb. rewrite (String.compare_antisym t s).
  destruct (String.compare s t) eqn:E; try done.
  intros _ _. by apply String.compare_eq_iff.
Qed.

Lemma nameLe_trans t u v : nameLe t u → nameLe u v → nameLe t v.
Proof.
  unfold nameLe. intros H1 H2.
  destruct (String.ltb (tierName v) (tierName t)) eqn:E; [|done].
  destruct (String.ltb (tierName u) (tierName v)) eqn:E2.
  - by rewrite (ltb_trans _ _ _ E2 E) in H1.
  - rewrite (ltb_total _ _ E2 H2) in H1. congruence.
Qed.

Lemma insertTier_Permutation t sorted : insertTier t sorted ≡ₚ t :: sorted.
Proof.
  induction sorted as [|u rest IH]; simpl; [done|].
  destruct (String.ltb (tierName t) (tierName u)); [done|].
  rewrite IH. apply Permutation_swap.
Qed.

Lemma sortTiers_Permutation tiers : sortTiers tiers ≡ₚ tiers.
Proof.
  induction tiers as [|t tiers IH]; simpl; [done|].
  by rewrite insertTier_Permutation, IH.
Qed.

Lemma insertTier_sorted t sorted :
  StronglySorted nameLe sorted → StronglySorted nameLe (insertTier t sorted).
Proof.
  induction 1 as [|u rest Hrest IH Hu]; simpl; [by repeat constructor|].
  destruct (String.ltb (tierName t) (tierName u)) eqn:E.
  - constructor; [by constructor|].
    assert (nameLe t u) as Htu by (by apply ltb_asym).
    apply Forall_cons; split; [done|].
    eapply Forall_impl; [exact Hu|]. intros v Hv. by eapply nameLe_trans.
  - constructor; [done|].
    rewrite insertTier_Permutation. by apply Forall_cons.
Qed.

Lemma sortTiers_sorted tiers : StronglySorted nameLe (sortTiers tiers).
Proof.
  induction tiers as [|t tiers IH]; simpl; [constructor|].
  by apply insertTier_sorted.
Qed.

(** Two lists in name order with the same tiers, no two of one name, are the
    same list. *)
Lemma sorted_by_name_unique l1 l2 :
  StronglySorted nameLe l1 → StronglySorted nameLe l2 → l1 ≡ₚ l2 →
  NoDup (tierName <$> l1) → l1 = l2.
Proof.
  intros H1. revert l2. induction H1 as [|x l1 Hl1 IH Hx]; intros l2 H2 Hperm Hnd.
  { by apply Permutation_nil_l in Hperm. }
  destruct H2 as [|y l2 Hl2 Hy]; [by apply Permutation_nil_r in Hperm|].
  rewrite fmap_cons in Hnd. apply NoDup_cons in Hnd as [Hxn Hnd].
  assert (x = y) as ->.
  { assert (x ∈ y :: l2) as Hxin by (rewrite <- Hperm; apply list_elem_of_here).
    assert (y ∈ x :: l1) as Hyin by (rewrite Hperm; apply list_elem_of_here).
    apply elem_of_cons in Hxin as [?|Hxin]; [done|].
    apply elem_of_cons in Hyin as [?|Hyin]; [done|].
    rewrite Forall_forall in Hx, Hy.
    pose proof (ltb_total _ _ (Hx y Hyin) (Hy x Hxin)) as Hname.
    destruct Hxn. rewrite <- Hname. by apply list_elem_of_fmap_2. }
  f_equal. apply IH; [done| |done]. by apply Permutation_cons_inv in Hperm.
Qed.

(** X3: The mapping text does not depend on the order the tiers are listed in,
    as long as no two of them have the same name. *)
Theorem tierMappings_order_independent tiers1 tiers2 :
  tiers1 ≡ₚ tiers2 → NoDup (tierName <$> tiers1) →
  tierMappings tiers1 = tierMappings tiers2.
Proof.
  intros Hperm Hnd. unfold tierMappings. f_equal.
  apply sorted_by_name_unique; try apply sortTiers_sorted.
  - by rewrite !sortTiers_Permutation.
  - by rewrite sortTiers_Permutation.
Qed.

Lemma tierMappings_order_independent_witness :
  tierMappings [Examples.tierA; Examples.tierB] = tierMappings [Examples.tierB; Examples.tierA].
Proof.
  apply tierMappings_order_independent.
  - apply Permutation_swap.
  - compute_done.
Defined.

(** ** The level of a tier *)

Lemma ToLower_app (s t : string) :
  GoStrings.ToLower (s +:+ t) = GoStrings.ToLower s +:+ GoStrings.ToLower t.
Proof. induction s as [|c s IH]; [done|]. rewrite !string_app_cons. simpl. by rewrite IH. Qed.

Lemma Contains_prefix (s rest : string) : GoStrings.Contains (s +:+ rest) s = true.
Proof.
  destruct s as [|c s]; [by destruct rest|].
  rewrite string_app_cons. cbn [GoStrings.Contains]. rewrite <- string_app_cons.
  by rewrite HasPrefix_self.
Qed.

Lemma Contains_app_l (a s sub : string) :
  GoStrings.Contains s sub = true → GoStrings.Contains (a +:+ s) sub = true.
Proof.
  intros H. induction a as [|c a IH]; [done|].
  rewrite string_app_cons. cbn [GoStrings.Contains]. rewrite IH. apply orb_true_r.
Qed.

Lemma Contains_lowered (a p b lowered : string) :
  GoStrings.ToLower p = lowered →
  GoStrings.Contains (GoStrings.ToLower (a +:+ p +:+ b)) lowered = true.
Proof.
  intros <-. rewrite !ToLower_app. apply Contains_app_l, Contains_prefix.
Qed.

(** X4: The level is read off the name without regard to the case of ASCII
    letters, and [premium] is looked for first: a name that holds
    [premium] in any letter case has level 1, whatever else it holds (so
    also when it holds [enterprise]); a name that holds [enterprise] in any
    letter case has level 1 or 2, never 0. *)
Theorem tierLevel_of_name (a b : string) :
  (∀ p, GoStrings.ToLower p = "premium" → tierLevel (a +:+ p +:+ b) = 1)
  ∧ (∀ p, GoStrings.ToLower p = "enterprise" →
          tierLevel (a +:+ p +:+ b) = 1 ∨ tierLevel (a +:+ p +:+ b) = 2).
Proof.
  split; intros p Hp; unfold tierLevel.
  - by rewrite (Contains_lowered a p b "premium").
  - rewrite (Contains_lowered a p b "enterprise") by done.
    destruct (GoStrings.Contains _ "premium"); [by left|by right].
Qed.

Example tierLevel_premium_enterprise :
  tierLevel "Enterprise-PREMIUM" = 1 ∧ tierLevel "ENTERPRISE" = 2 ∧ tierLevel "free" = 0.
Proof. repeat split; reflexivity. Qed.

(** ** What a pass leaves of the artifacts *)

Lemma updateTierConfigMap_eq tiers maasPlatform w :
  faults w = [] →
  updateTierConfigMap tiers maasPlatform w
  = (None, artifactWritten configMapKey (newTierConfigMap tiers maasPlatform)
             "tier ConfigMap" w).
Proof.
  intros Hf. unfold updateTierConfigMap, artifactWritten, artifactLeft.
  unfold bind at 1. rewrite Get_eq, Hf. cbn [hd tl].
  destruct (objects (cluster w) !! configMapKey) as [stored|] eqn:Hcm.
  - unfold bind at 1. rewrite Get_eq. cbn [cluster faults trace hd tl]. rewrite Hcm.
    unfold bind at 1. rewrite Update_eq. cbn [cluster faults trace hd tl].
    rewrite keyOf_withIdentity, Hcm.
    change (resourceVersion (withIdentity configMapKey stored)) with (resourceVersion stored).
    rewrite Nat.eqb_refl, andb_false_r.
    unfold bind, logInfo, emit, ret. cbn [cluster faults trace].
    by rewrite <- !app_assoc.
  - cbn [IsNotFound]. unfold bind at 1. rewrite Get_eq.
    cbn [cluster faults trace hd tl]. rewrite Hcm. cbn [IsNotFound].
    match goal with
    | |- context [Create ?o] =>
        assert (o = newTierConfigMap tiers maasPlatform) as ->
          by (unfold newTierConfigMap; by destruct (0 <? length tiers)%nat)
    end.
    unfold bind at 1. rewrite Create_eq. cbn [cluster faults trace hd tl].
    change (keyOf (newTierConfigMap tiers maasPlatform)) with configMapKey.
    rewrite Hcm. unfold bind, logInfo, emit, ret. cbn [cluster faults trace].
    by rewrite <- !app_assoc.
Qed.

Lemma updatePolicy_eq key what limits w :
  faults w = [] →
  updatePolicy key what limits w
  = (None, artifactWritten key (newPolicy key limits) what w).
Proof.
  intros Hf. unfold artifactWritten, artifactLeft.
  destruct (objects (cluster w) !! key) as [stored|] eqn:Hkey.
  - by apply updatePolicy_existing.
  - destruct (updatePolicy_creates key what limits w Hf Hkey) as [-> _].
    by destruct key as [[[av k] ns] n].
Qed.

Lemma artifactWritten_faults key desired what w : faults (artifactWritten key desired what w) = [].
Proof. done. Qed.

Lemma artifactWritten_lookup key desired what w :
  objects (cluster (artifactWritten key desired what w)) !! key
  = Some (artifactLeft key desired (objects (cluster w) !! key)).
Proof. unfold artifactWritten. cbn [cluster objects]. apply lookup_insert_eq. Qed.

Lemma artifactWritten_lookup_ne key desired what w k :
  key ≠ k →
  objects (cluster (artifactWritten key desired what w)) !! k = objects (cluster w) !! k.
Proof. intros Hne. unfold artifactWritten. cbn [cluster objects]. by apply lookup_insert_ne. Qed.




(** ** The splitter, for use below *)

Lemma splitYAMLDocuments_of_Documents data docs :
  Documents data docs → fst (splitYAMLDocuments data) = docs.
Proof. intros H. rewrite splitYAMLDocuments_finish. by apply Documents_finish. Qed.

Lemma Documents_of_splitYAMLDocuments data : Documents data (fst (splitYAMLDocuments data)).
Proof.
  rewrite splitYAMLDocuments_finish. rewrite <- (Join_Split data nl) at 1.
  apply (splitLoop_Documents (Split data nl) []);
    [apply Split_not_nil|apply Split_lines_no_sep|by left].
Qed.

Lemma Documents_wellFormed data docs : Documents data docs → Forall wellFormedDoc docs.
Proof.
  induction 1; [done|by apply Forall_singleton|by apply Forall_singleton|].
  by apply Forall_cons.
Qed.

Lemma splitYAMLDocuments_no_error data : snd (splitYAMLDocuments data) = None.
Proof. unfold splitYAMLDocuments. by destruct (splitLoop _ _ _). Qed.

Lemma splitYAMLDocuments_nonempty data :
  Forall (λ doc, doc ≠ []) (fst (splitYAMLDocuments data)).
Proof.
  eapply Forall_impl; [apply (Documents_wellFormed data), Documents_of_splitYAMLDocuments|].
  by intros doc [? _].
Qed.

(** ** Applying one object *)

Lemma SetResourceVersion_twice rv rv' o :
  SetResourceVersion rv (SetResourceVersion rv' o) = SetResourceVersion rv o.
Proof. done. Qed.

Lemma applyUnstructured_outcome obj w :
  let run := applyUnstructured obj w in
  platforms (cluster run.2) = platforms (cluster w)
  ∧ tiers (cluster run.2) = tiers (cluster w)
  ∧ match run.1 with
    | None =>
        ∃ rv, objects (cluster run.2)
              = <[keyOf obj := SetResourceVersion rv obj]> (objects (cluster w))
    | Some _ => objects (cluster run.2) = objects (cluster w)
    end
  ∧ (faults w = [] → run.1 = None).
Proof.
  intros run. subst run. unfold applyUnstructured, bind.
  rewrite Get_eq.
  destruct (faults w) as [|f1 fs] eqn:Hf; [|destruct f1]; cbn [hd tl].
  - destruct (objects (cluster w) !! keyOf obj) as [stored|] eqn:Hobj.
    + rewrite Update_eq. cbn [cluster faults trace hd tl fst snd].
      change (keyOf (SetResourceVersion (resourceVersion (withIdentity (keyOf obj) stored)) obj))
        with (keyOf obj).
      rewrite Hobj.
      change (resourceVersion
                (SetResourceVersion (resourceVersion (withIdentity (keyOf obj) stored)) obj))
        with (resourceVersion stored).
      rewrite Nat.eqb_refl, andb_false_r. cbn [platforms tiers objects].
      repeat split; try done. by eexists.
    + cbn [IsNotFound]. rewrite Create_eq. cbn [cluster faults trace hd tl fst snd].
      rewrite Hobj. cbn [platforms tiers objects]. repeat split; try done. by eexists.
  - cbn [IsNotFound unavailable ret fst snd cluster]. repeat split; done.
  - destruct (objects (cluster w) !! keyOf obj) as [stored|] eqn:Hobj.
    + rewrite Update_eq. cbn [cluster faults trace hd tl fst snd].
      change (keyOf (SetResourceVersion (resourceVersion (withIdentity (keyOf obj) stored)) obj))
        with (keyOf obj).
      rewrite Hobj.
      change (resourceVersion
                (SetResourceVersion (resourceVersion (withIdentity (keyOf obj) stored)) obj))
        with (resourceVersion stored).
      rewrite Nat.eqb_refl, andb_false_r.
      destruct (hd false fs); cbn [platforms tiers objects];
        repeat split; try done. by eexists.
    + cbn [IsNotFound]. rewrite Create_eq. cbn [cluster faults trace hd tl fst snd].
      rewrite Hobj.
      destruct (hd false fs); cbn [platforms tiers objects];
        repeat split; try done. by eexists.
Qed.


(** ** The required namespaces *)

Lemma ensureEach_cons ns rest w :
  ensureEach (ns :: rest) w
  = let w1 := mkWorld (cluster w) (tl (faults w)) (trace w ++ [EGet (namespaceKey ns)]) in
    if hd false (faults w)
    then (Some (Wrapped ("failed to check namespace " +:+ ns) unavailable), w1)
    else
      match objects (cluster w) !! namespaceKey ns with
      | Some _ => ensureEach rest w1
      | None =>
          if hd false (tl (faults w))
          then (Some (Wrapped ("failed to create namespace " +:+ ns) unavailable),
                mkWorld (cluster w) (tl (tl (faults w)))
                  (trace w ++ [EGet (namespaceKey ns); ECreate (namespaceObject ns)]))
          else
            ensureEach rest
              (mkWorld
                 (mkCluster (platforms (cluster w)) (tiers (cluster w))
                    (<[namespaceKey ns := SetResourceVersion 1 (namespaceObject ns)]>
                       (objects (cluster w))))
                 (tl (tl (faults w)))
                 (trace w ++ [EGet (namespaceKey ns); ECreate (namespaceObject ns);
                              ELogInfo "Created namespace"]))
      end.
Proof.
  cbn [ensureEach]. unfold bind at 1. rewrite Get_eq. fold (namespaceKey ns). cbn zeta.
  destruct (hd false (faults w)); [done|].
  destruct (objects (cluster w) !! namespaceKey ns) as [stored|] eqn:Hns; [done|].
  cbn [IsNotFound]. unfold bind at 1. rewrite Create_eq.
  change (keyOf (namespaceObject ns)) with (namespaceKey ns).
  cbn [cluster faults trace fst snd]. rewrite Hns.
  destruct (hd false (tl (faults w))).
  - cbn [ret]. by rewrite <- app_assoc.
  - unfold bind, logInfo, emit. cbn [cluster faults trace]. by rewrite <- !app_assoc.
Qed.

Lemma ensureEach_spec namespaces w :
  let run := ensureEach namespaces w in
  platforms (cluster run.2) = platforms (cluster w)
  ∧ tiers (cluster run.2) = tiers (cluster w)
  ∧ (∀ k o, objects (cluster w) !! k = Some o → objects (cluster run.2) !! k = Some o)
  ∧ (run.1 = None →
     ∀ ns, ns ∈ namespaces → is_Some (objects (cluster run.2) !! namespaceKey ns))
  ∧ (faults w = [] → run.1 = None).
Proof.
  revert w. induction namespaces as [|ns rest IH]; intros w run; subst run.
  { simpl. repeat split; try done. intros _ ns Hns. by apply elem_of_nil in Hns. }
  rewrite ensureEach_cons. cbn zeta.
  destruct (hd false (faults w)) eqn:Hf1.
  { cbn [fst snd cluster]. repeat split; try done. intros Hf. by rewrite Hf in Hf1. }
  destruct (objects (cluster w) !! namespaceKey ns) as [stored|] eqn:Hns.
  - match goal with
    | |- context [ensureEach rest ?w1] => destruct (IH w1) as (Hp & Ht & Hkeep & Hall & Hok)
    end.
    cbn [cluster faults] in *.
    split; [done|]. split; [done|]. split; [done|]. split.
    + intros Hnone ns' Hin. apply elem_of_cons in Hin as [->|Hin]; [|by apply Hall].
      eexists. by apply Hkeep.
    + intros Hf. apply Hok. by rewrite Hf.
  - destruct (hd false (tl (faults w))) eqn:Hf2.
    { cbn [fst snd cluster]. repeat split; try done. intros Hf. by rewrite Hf in Hf2. }
    match goal with
    | |- context [ensureEach rest ?w2] => destruct (IH w2) as (Hp & Ht & Hkeep & Hall & Hok)
    end.
    cbn [cluster platforms tiers objects faults] in *.
    split; [done|]. split; [done|]. split; [|split].
    + intros k o Hk. apply Hkeep. rewrite lookup_insert_ne; [done|].
      intros <-. by rewrite Hns in Hk.
    + intros Hnone ns' Hin. apply elem_of_cons in Hin as [->|Hin]; [|by apply Hall].
      eexists. apply Hkeep. apply lookup_insert_eq.
    + intros Hf. apply Hok. by rewrite Hf.
Qed.

(** X7: [ensureNamespaces] only adds: every object of the cluster is left as it
    is, and so are the platforms and the tiers. When it returns nil, the
    namespaces [maas-api] and [kuadrant-system] are in the cluster; and it
    returns nil when no call fails for a reason of its own. *)
Theorem ensureNamespaces_only_adds w :
  let run := ensureNamespaces w in
  platforms (cluster run.2) = platforms (cluster w)
  ∧ tiers (cluster run.2) = tiers (cluster w)
  ∧ (∀ k o, objects (cluster w) !! k = Some o → objects (cluster run.2) !! k = Some o)
  ∧ (run.1 = None →
     is_Some (objects (cluster run.2) !! namespaceKey "maas-api")
     ∧ is_Some (objects (cluster run.2) !! namespaceKey "kuadrant-system"))
  ∧ (faults w = [] → run.1 = None).
Proof.
  intros run. subst run. unfold ensureNamespaces.
  destruct (ensureEach_spec ["maas-api"; "kuadrant-system"] w) as (Hp & Ht & Hkeep & Hall & Hok).
  split; [done|]. split; [done|]. split; [done|]. split; [|done].
  intros Hnone. split; apply Hall; try done.
  - apply list_elem_of_here.
  - apply list_elem_of_further, list_elem_of_here.
Qed.

(** ** A manifest group and the rest of the cluster *)

Lemma journaled_clusterDomain h : journaled (clusterDomain h).
Proof.
  unfold clusterDomain. destruct (String.eqb (CLUSTER_DOMAIN h) ""); journal_calls.
Qed.

Lemma journaled_applyUnstructured obj : journaled (applyUnstructured obj).
Proof. unfold applyUnstructured. journal_calls. Qed.

Lemma journaled_setOwner h maasPlatform obj : journaled (setOwner h maasPlatform obj).
Proof.
  unfold setOwner. destruct (_ && _); [journal_calls|].
  destruct (negb _); journal_calls.
Qed.

Lemma journaled_deployDocuments h maasPlatform skipConfigMap documents :
  journaled (deployDocuments h maasPlatform skipConfigMap documents).
Proof.
  induction documents as [|doc rest IH]; simpl; [apply journaled_ret|].
  destruct (length doc =? 0)%nat; [done|].
  destruct (yamlUnmarshal h doc) as [obj|]; [|by journal_calls].
  destruct (_ && _ && _); [by journal_calls|].
  destruct (String.eqb (kind obj) "PersistentVolumeClaim").
  - repeat first [ apply journaled_setOwner | apply journaled_applyUnstructured
                 | progress journal_calls | exact IH ].
  - repeat first [ apply journaled_setOwner | apply journaled_applyUnstructured
                 | progress journal_calls | exact IH ].
Qed.

Lemma journaled_deployEmbeddedManifest h path maasPlatform skipConfigMap :
  journaled (deployEmbeddedManifest h path maasPlatform skipConfigMap).
Proof.
  unfold deployEmbeddedManifest, substituteEnvVars.
  destruct (manifestsFS h path) as [data|]; [|apply journaled_ret].
  apply journaled_bind.
  { apply journaled_bind; [apply journaled_clusterDomain|]. intros d. apply journaled_ret. }
  intros dataStr. destruct (splitYAMLDocuments _) as [documents [err|]];
    [apply journaled_ret|apply journaled_deployDocuments].
Qed.

Lemma emits_spares_applyUnstructured obj :
  ¬ isTierConfigMap obj → emits sparesTierConfigMap any (applyUnstructured obj).
Proof. intros Hobj. unfold applyUnstructured. repeat emits_step; done. Qed.

Lemma isTierConfigMap_ownedObject h maasPlatform obj :
  isTierConfigMap (ownedObject h maasPlatform obj) ↔ isTierConfigMap obj.
Proof.
  pose proof (keyOf_ownedObject h maasPlatform obj) as H.
  unfold keyOf in H. injection H as _ Hkind _ Hname.
  unfold isTierConfigMap. by rewrite Hkind, Hname.
Qed.

Lemma emits_spares_deployDocuments h maasPlatform documents :
  emits sparesTierConfigMap any (deployDocuments h maasPlatform true documents).
Proof.
  assert (∀ e, isLog e → sparesTierConfigMap e) as HLog by (by intros []).
  induction documents as [|doc rest IH]; simpl; [by apply emits_ret|].
  destruct (length doc =? 0)%nat; [done|].
  destruct (yamlUnmarshal h doc) as [obj|] eqn:Hdoc;
    [|eapply emits_bind; [by apply emits_logInfo|done]].
  destruct (String.eqb (kind obj) "ConfigMap" && String.eqb (name obj) "tier-to-group-mapping")
    eqn:Eskip.
  { eapply emits_bind; [by apply emits_logInfo|done]. }
  assert (¬ isTierConfigMap obj) as Hobj.
  { intros [Hk Hn]. by rewrite Hk, Hn in Eskip. }
  assert (emits sparesTierConfigMap any
            (let! obj0 := setOwner h maasPlatform obj in
             let! err := applyUnstructured obj0 in
             match err with
             | Some e =>
                 ret (Some (Wrapped ("failed to apply resource " +:+ kind obj0 +:+ "/"
                                     +:+ name obj0) e))
             | None =>
                 do! logInfo "Successfully deployed resource" in
                 deployDocuments h maasPlatform true rest
             end)) as Happly.
  { eapply emits_bind; [by apply emits_setOwner|]. intros obj0 ->.
    eapply emits_bind.
    { apply emits_spares_applyUnstructured. by rewrite isTierConfigMap_ownedObject. }
    intros [e|] _; [by apply emits_ret|].
    eapply emits_bind; [by apply emits_logInfo|done]. }
  destruct (String.eqb (kind obj) "PersistentVolumeClaim"); [|exact Happly].
  eapply emits_bind; [by apply emits_Get|]. intros [[e|] existing] _.
  - destruct (IsNotFound e); [exact Happly|by apply emits_ret].
  - eapply emits_bind; [by apply emits_logInfo|done].
Qed.

(** X8: A manifest group deployed with [skipConfigMap] makes no create or
    update call on a ConfigMap named [tier-to-group-mapping], whatever the
    manifest holds and in whatever namespace: the ConfigMap of the Tier
    controller is left as it is. *)
Theorem deployEmbeddedManifest_spares_tier_ConfigMap h path maasPlatform w :
  let w' := (deployEmbeddedManifest h path maasPlatform true w).2 in
  extends sparesTierConfigMap w w'
  ∧ (∀ apiVersion ns,
       objects (cluster w') !! (apiVersion, "ConfigMap", ns, "tier-to-group-mapping")
       = objects (cluster w) !! (apiVersion, "ConfigMap", ns, "tier-to-group-mapping")).
Proof.
  assert (emits sparesTierConfigMap any (deployEmbeddedManifest h path maasPlatform true))
    as Hemits.
  { unfold deployEmbeddedManifest, substituteEnvVars.
    destruct (manifestsFS h path) as [data|]; [|by apply emits_ret].
    eapply emits_bind.
    { eapply emits_bind; [apply emits_clusterDomain; by intros []|]. intros d _.
      emits_step. exact I. }
    intros dataStr _.
    destruct (splitYAMLDocuments _) as [documents [err|]]; [by apply emits_ret|].
    apply emits_spares_deployDocuments. }
  intros w'. subst w'. split; [apply Hemits|].
  intros apiVersion ns.
  apply (journaled_frame sparesTierConfigMap any);
    [apply journaled_deployEmbeddedManifest|exact Hemits|].
  intros e He Hw. destruct e; simpl in *; try done;
    apply He; unfold keyOf in Hw; by simplify_eq.
Qed.

(** ** A manifest group that went through *)

Lemma hoare_and {A} (P P' : World → Prop) (Q Q' : A → World → Prop) (m : M A) :
  hoare P m Q → hoare P' m Q' → hoare (λ w, P w ∧ P' w) m (λ a w, Q a w ∧ Q' a w).
Proof. intros H H' w [Hw Hw']. split; [by apply H|by apply H']. Qed.

Lemma hoare_present {A} (m : M A) k : journaled m → hoare (present k) m (λ _, present k).
Proof. intros Hj w Hw. destruct (Hj w) as (_ & _ & _ & _ & _ & Hs). by apply Hs. Qed.

Lemma hoare_logInfo (P : World → Prop) msg :
  (∀ w, P w → P (mkWorld (cluster w) (faults w) (trace w ++ [ELogInfo msg]))) →
  hoare P (logInfo msg) (λ _, P).
Proof. intros H w Hw. by apply H. Qed.

Lemma hoare_Get_present key obj :
  hoare (λ _, True) (Get key obj) (λ r w, r.1 = None → present key w).
Proof.
  intros w _. rewrite Get_eq. cbn [fst snd]. unfold present. cbn [cluster].
  destruct (hd false (faults w)); [done|].
  by destruct (objects (cluster w) !! key).
Qed.

Lemma hoare_applyUnstructured_present obj :
  hoare (λ _, True) (applyUnstructured obj) (λ err w, err = None → present (keyOf obj) w).
Proof.
  intros w _ Hnone.
  destruct (applyUnstructured_outcome obj w) as (_ & _ & H & _).
  rewrite Hnone in H. destruct H as [rv H]. unfold present. rewrite H.
  rewrite lookup_insert_eq. by eexists.
Qed.

Lemma hoare_setOwner_owned h maasPlatform obj :
  hoare (λ _, True) (setOwner h maasPlatform obj)
    (λ o _, o = ownedObject h maasPlatform obj).
Proof. intros w _. by destruct (setOwner_eq h maasPlatform obj w) as [logs ->]. Qed.

Lemma deployDocuments_success h maasPlatform skipConfigMap documents :
  hoare (λ _, True) (deployDocuments h maasPlatform skipConfigMap documents)
    (λ r w, r = None →
            ∀ doc obj, doc ∈ documents → deploys h skipConfigMap doc obj →
                       present (keyOf obj) w).
Proof.
  induction documents as [|doc rest IH].
  { apply hoare_ret. intros w _ _ doc obj Hin. by apply elem_of_nil in Hin. }
  set (R := λ (r : option error) (w : World),
              r = None →
              ∀ doc' obj', doc' ∈ doc :: rest → deploys h skipConfigMap doc' obj' →
                           present (keyOf obj') w).
  assert ((∀ obj, ¬ deploys h skipConfigMap doc obj) →
          hoare (λ _, True) (deployDocuments h maasPlatform skipConfigMap rest) R) as Hskip.
  { intros Hno. eapply hoare_weaken; [| |exact IH]; [done|].
    intros r w HR Hr doc' obj' Hin Hd. apply elem_of_cons in Hin as [->|Hin].
    - by destruct (Hno obj').
    - by eapply HR. }
  assert (∀ obj, yamlUnmarshal h doc = Some obj →
          hoare (present (keyOf obj)) (deployDocuments h maasPlatform skipConfigMap rest) R)
    as Hdone.
  { intros obj Hobj.
    eapply hoare_weaken;
      [| |apply (hoare_and _ _ _ _ _
                   (hoare_present _ (keyOf obj)
                      (journaled_deployDocuments h maasPlatform skipConfigMap rest)) IH)].
    - intros w Hw. by split.
    - intros r w [Hp HR] Hr doc' obj' Hin Hd. apply elem_of_cons in Hin as [->|Hin].
      + destruct Hd as (_ & Hd & _). by simplify_eq.
      + by eapply HR. }
  assert (∀ (P : World → Prop) e, hoare P (ret (Some e)) R) as Hfail.
  { intros P e. by apply hoare_ret. }
  cbn [deployDocuments].
  destruct (length doc =? 0)%nat eqn:Elen.
  { apply Hskip. intros obj (Hne & _). apply Nat.eqb_eq in Elen. by destruct doc. }
  destruct (yamlUnmarshal h doc) as [obj|] eqn:Hdoc.
  2: { eapply hoare_bind; [by apply (hoare_logInfo (λ _, True))|]. intros ?.
       apply Hskip. intros obj' (_ & Hobj' & _). congruence. }
  destruct (skipConfigMap && String.eqb (kind obj) "ConfigMap"
            && String.eqb (name obj) "tier-to-group-mapping") eqn:Eskip.
  { eapply hoare_bind; [by apply (hoare_logInfo (λ _, True))|]. intros ?.
    apply Hskip. intros obj' (_ & Hobj' & Hno). simplify_eq. apply Hno.
    apply andb_true_iff in Eskip as [Eskip Hname].
    apply andb_true_iff in Eskip as [Hs Hkind].
    apply String.eqb_eq in Hname, Hkind. done. }
  assert (hoare (λ _, True)
            (let! obj0 := setOwner h maasPlatform obj in
             let! err := applyUnstructured obj0 in
             match err with
             | Some e =>
                 ret (Some (Wrapped ("failed to apply resource " +:+ kind obj0 +:+ "/"
                                     +:+ name obj0) e))
             | None =>
                 do! logInfo "Successfully deployed resource" in
                 deployDocuments h maasPlatform skipConfigMap rest
             end) R) as Happly.
  { eapply hoare_bind; [apply hoare_setOwner_owned|]. intros obj0.
    apply (hoare_weaken (λ w, True ∧ obj0 = ownedObject h maasPlatform obj) _ R R);
      [done|done|].
    apply hoare_pure. intros ->.
    eapply hoare_bind; [apply hoare_applyUnstructured_present|]. intros [e|]; [apply Hfail|].
    rewrite keyOf_ownedObject.
    eapply hoare_bind.
    { eapply hoare_weaken; [| |apply (hoare_logInfo (present (keyOf obj)))]; [|done|done].
      intros w Hw. by apply Hw. }
    intros ?. by apply Hdone. }
  destruct (String.eqb (kind obj) "PersistentVolumeClaim"); [|exact Happly].
  eapply hoare_bind; [apply hoare_Get_present|]. intros [[e|] existing].
  - destruct (IsNotFound e); [|apply Hfail].
    eapply hoare_weaken; [| |exact Happly]; done.
  - eapply hoare_bind.
    { eapply hoare_weaken; [| |apply (hoare_logInfo (present (keyOf obj)))]; [|done|done].
      intros w Hw. by apply Hw. }
    intros ?. by apply Hdone.
Qed.

(** X9: When a manifest group is deployed and the call returns nil, every
    object the documents of the manifest decode to is in the cluster (the
    ConfigMap left out under [skipConfigMap] apart): none was passed over,
    and what an earlier document put there a later one did not remove. *)
Theorem deployEmbeddedManifest_success_present h path maasPlatform skipConfigMap w data :
  let run := deployEmbeddedManifest h path maasPlatform skipConfigMap w in
  manifestsFS h path = Some data →
  run.1 = None →
  ∀ doc obj,
    doc ∈ documentsOf data (clusterDomain h w).1 →
    yamlUnmarshal h doc = Some obj →
    ¬ (skipConfigMap = true ∧ isTierConfigMap obj) →
    is_Some (objects (cluster run.2) !! keyOf obj).
Proof.
  intros run Hdata Hnone doc obj Hin Hdoc Hskip. subst run.
  unfold deployEmbeddedManifest in *. rewrite Hdata in *.
  unfold substituteEnvVars, bind, ret in *. unfold documentsOf in Hin.
  destruct (clusterDomain h w) as [domain w1]. cbn [fst] in Hin.
  pose proof (splitYAMLDocuments_no_error
                (String.list_byte_of_string
                   (replaceClusterDomain (String.string_of_list_byte data) domain))) as Herr.
  pose proof (splitYAMLDocuments_nonempty
                (String.list_byte_of_string
                   (replaceClusterDomain (String.string_of_list_byte data) domain)))
    as Hnonempty.
  destruct (splitYAMLDocuments _) as [documents err]. cbn [fst snd] in *. subst err.
  apply (deployDocuments_success h maasPlatform skipConfigMap documents w1 I Hnone doc obj Hin).
  split; [|done]. rewrite Forall_forall in Hnonempty. by apply Hnonempty.
Qed.

(** The theorem at the first manifest group of the example host, on a
    cluster with the platform and nothing else: the Service of the group is
    in the cluster afterwards. *)
Lemma deployEmbeddedManifest_success_present_witness :
  is_Some (objects (cluster (deployEmbeddedManifest Examples.host
                               "manifests/maas-api/resources.yaml" Examples.platform true
                               (mkWorld (mkCluster [Examples.platform] [] ∅) [] [])).2)
             !! keyOf Examples.service).
Proof.
  refine (deployEmbeddedManifest_success_present Examples.host
            "manifests/maas-api/resources.yaml" Examples.platform true
            (mkWorld (mkCluster [Examples.platform] [] ∅) [] [])
            (lit (Examples.serviceDoc +:+ "---" +:+ LF +:+ Examples.claimDoc))
            _ _ (lit Examples.serviceDoc) Examples.service _ _ _).
  - reflexivity.
  - vm_compute. reflexivity.
  - vm_compute. apply list_elem_of_here.
  - reflexivity.
  - intros [_ [H _]]. discriminate H.
Defined.

(** ** [Reconcile] and the rest of the cluster *)

Lemma journaled_ensureEach namespaces : journaled (ensureEach namespaces).
Proof.
  induction namespaces as [|ns rest IH]; simpl; [apply journaled_ret|].
  repeat first [ exact IH | progress journal_calls ].
Qed.

Lemma journaled_MaasPlatformReconcile h ns n : journaled (MaasPlatformReconcile h ns n).
Proof.
  unfold MaasPlatformReconcile, ensureNamespaces, updateStatus.
  repeat first [ apply journaled_ensureEach | apply journaled_deployEmbeddedManifest
               | progress journal_calls ].
Qed.

Lemma emits_reconcileEvent_ensureNamespaces h : emits (reconcileEvent h) any ensureNamespaces.
Proof.
  unfold ensureNamespaces, ensureEach.
  repeat emits_step; try done; simpl in *; subst; unfold reconcileWrite; auto.
Qed.

Lemma emits_reconcileEvent_MaasPlatformReconcile h ns n :
  emits (reconcileEvent h) any (MaasPlatformReconcile h ns n).
Proof.
  assert (∀ e, isLog e → reconcileEvent h e) as HLog by (by intros []).
  assert (∀ maasPlatform path skipConfigMap,
            emits (reconcileEvent h) any
              (deployEmbeddedManifest h path maasPlatform skipConfigMap)) as Hdeploy.
  { intros maasPlatform path skipConfigMap.
    apply emits_deployEmbeddedManifest; [done|done|].
    intros o Ho. split; left; by exists maasPlatform. }
  unfold MaasPlatformReconcile, updateStatus.
  eapply emits_bind; [unfold GetPlatform; repeat emits_base; done|].
  intros [err|maasPlatform] _.
  { destruct (IsNotFound err); repeat emits_step; done. }
  eapply emits_bind; [by apply emits_logInfo|]. intros _ _.
  eapply emits_bind; [apply emits_reconcileEvent_ensureNamespaces|].
  intros [err|] _; [repeat emits_step; done|].
  eapply emits_bind; [by apply emits_logInfo|]. intros _ _.
  eapply emits_bind; [apply Hdeploy|]. intros [err|] _; [repeat emits_step; done|].
  eapply emits_bind; [by apply emits_logInfo|]. intros _ _.
  eapply emits_bind; [apply Hdeploy|]. intros [err|] _; [repeat emits_step; done|].
  eapply emits_bind; [by apply emits_logInfo|]. intros _ _.
  eapply emits_bind; [apply Hdeploy|]. intros [err|] _; [repeat emits_step; done|].
  eapply emits_bind; [by apply emits_StatusUpdate|].
  intros [err|] _; repeat emits_step; done.
Qed.



(** ** Text without the cluster-domain tokens *)

Lemma replaceFrom_not_contained old new s :
  GoStrings.Contains s old = false → GoStrings.replaceFrom old new 0 s = s.
Proof.
  induction s as [|c r IH]; intros H; [done|].
  cbn [GoStrings.Contains] in H. apply orb_false_iff in H as [Hp Hr].
  cbn [GoStrings.replaceFrom]. rewrite Hp. f_equal. by apply IH.
Qed.

Lemma ReplaceAll_not_contained s old new :
  GoStrings.Contains s old = false → GoStrings.ReplaceAll s old new = s.
Proof.
  intros H. unfold GoStrings.ReplaceAll. destruct old; [done|].
  by apply replaceFrom_not_contained.
Qed.

(** X11: A text that holds neither [${CLUSTER_DOMAIN}] nor [$CLUSTER_DOMAIN] is
    rendered as it is, whatever the value: other [$] tokens and lone [$]
    signs are left alone. *)
Theorem replaceClusterDomain_without_tokens content clusterDomain :
  GoStrings.Contains content "${CLUSTER_DOMAIN}" = false →
  GoStrings.Contains content "$CLUSTER_DOMAIN" = false →
  replaceClusterDomain content clusterDomain = content.
Proof.
  intros H1 H2. unfold replaceClusterDomain.
  rewrite (ReplaceAll_not_contained _ _ _ H1). by apply ReplaceAll_not_contained.
Qed.

Lemma replaceClusterDomain_without_tokens_witness :
  replaceClusterDomain "home: $HOME/${CLUSTER}/$CLUSTER_DOMAI costs 5$" "apps.example.com"
  = "home: $HOME/${CLUSTER}/$CLUSTER_DOMAI costs 5$".
Proof. apply replaceClusterDomain_without_tokens; reflexivity. Defined.

(** ** Splitting what was split, and what was joined *)

Lemma splitYAMLDocuments_wellFormedDoc d :
  wellFormedDoc d → fst (splitYAMLDocuments d) = [d].
Proof. intros Hd. by apply splitYAMLDocuments_of_Documents, Documents_last. Qed.

(** X12: A block the splitter returned is not split further: split again, it
    comes back as the one document. *)
Theorem splitYAMLDocuments_blocks_are_whole data d :
  d ∈ fst (splitYAMLDocuments data) → fst (splitYAMLDocuments d) = [d].
Proof.
  intros Hd. apply splitYAMLDocuments_wellFormedDoc.
  pose proof (Documents_wellFormed _ _ (Documents_of_splitYAMLDocuments data)) as H.
  rewrite Forall_forall in H. by apply H.
Qed.

Lemma splitYAMLDocuments_blocks_are_whole_witness :
  fst (splitYAMLDocuments (lit ("---" +:+ LF +:+ "b: 2")))
  = [lit ("---" +:+ LF +:+ "b: 2")].
Proof.
  apply (splitYAMLDocuments_blocks_are_whole
           (lit ("a: 1" +:+ LF +:+ "---" +:+ LF +:+ "---" +:+ LF +:+ "b: 2"))).
  vm_compute. apply list_elem_of_further, list_elem_of_here.
Defined.

Lemma separatorLine_dashes : separatorLine (lit "---").
Proof.
  split; [|reflexivity]. intros H.
  repeat (apply elem_of_cons in H as [H|H]; [discriminate H|]).
  by apply elem_of_nil in H.
Qed.

Lemma Documents_joinDocuments docs :
  joinable docs → Documents (joinDocuments docs) docs.
Proof.
  induction docs as [|d rest IH]; intros H; [constructor|].
  destruct rest as [|d2 rest].
  - by apply Documents_last.
  - destruct H as (Hd & Hend & Hrest).
    change (joinDocuments (d :: d2 :: rest))
      with (d ++ lit "---" ++ nl :: joinDocuments (d2 :: rest)).
    apply Documents_sep; [done|done|apply separatorLine_dashes|by apply IH].
Qed.

(** X13: Splitting undoes joining: documents none of which has a separator line
    after its first line, each but the last ending its last line, joined
    with a line [---] between them, are split into these documents again. *)
Theorem splitYAMLDocuments_joinDocuments docs :
  joinable docs → fst (splitYAMLDocuments (joinDocuments docs)) = docs.
Proof. intros H. by apply splitYAMLDocuments_of_Documents, Documents_joinDocuments. Qed.

(** The theorem at two documents of one line each. *)
Lemma splitYAMLDocuments_joinDocuments_witness :
  fst (splitYAMLDocuments (joinDocuments [lit ("a: 1" +:+ LF); lit ("b: 2" +:+ LF)]))
  = [lit ("a: 1" +:+ LF); lit ("b: 2" +:+ LF)].
Proof.
  apply splitYAMLDocuments_joinDocuments.
  split; [|split].
  - split; [discriminate|]. vm_compute. repeat constructor.
  - by exists (lit "a: 1").
  - split; [discriminate|]. vm_compute. repeat constructor.
Defined.


(** ** The controller that deploys from files on disk *)

Lemma string_app_assoc (s t u : string) : (s +:+ t) +:+ u = s +:+ t +:+ u.
Proof. induction s as [|c s IH]; [done|]. rewrite !string_app_cons. by rewrite IH. Qed.

Lemma string_app_nil_r (s : string) : s +:+ "" = s.
Proof. induction s as [|c s IH]; [done|]. rewrite string_app_cons. by rewrite IH. Qed.

Lemma reversed_app (s t : string) acc :
  OnDisk.reversed (s +:+ t) acc = OnDisk.reversed t (OnDisk.reversed s acc).
Proof. revert acc. induction s as [|c s IH]; intros acc; [done|]. apply IH. Qed.

Lemma unreversed_reversed (s : string) acc after :
  OnDisk.unreversed (OnDisk.reversed s acc) after = OnDisk.unreversed acc (s +:+ after).
Proof.
  revert acc. induction s as [|c s IH]; intros acc; [done|].
  cbn [OnDisk.reversed]. by rewrite IH.
Qed.

Lemma unreversed_app before (after : string) :
  OnDisk.unreversed before after = OnDisk.unreversed before "" +:+ after.
Proof.
  revert after. induction before as [|c before IH]; intros after; [done|].
  cbn [OnDisk.unreversed]. rewrite (IH (String c after)), (IH (String c "")).
  by rewrite string_app_assoc.
Qed.

Lemma extScan_suffix before after :
  OnDisk.extScan before after = ""
  ∨ ∃ stem, OnDisk.unreversed before after = stem +:+ OnDisk.extScan before after.
Proof.
  revert after. induction before as [|c before IH]; intros after; [by left|].
  cbn [OnDisk.extScan OnDisk.unreversed].
  destruct (Ascii.eqb c _); [by left|].
  destruct (Ascii.eqb c _); [|apply IH].
  right. exists (OnDisk.unreversed before ""). apply unreversed_app.
Qed.

(** [filepath.Ext] of a name is [.yaml] exactly when the name ends in
    [.yaml]: a file [x.yml], [x.yaml.bak] or [yaml] is passed over by
    [deployDirectoryYAMLs], a file named [.yaml] is not. *)
Lemma Ext_yaml (entryName : string) :
  OnDisk.Ext entryName = ".yaml" ↔ ∃ stem, entryName = stem +:+ ".yaml".
Proof.
  unfold OnDisk.Ext. split.
  - intros H. destruct (extScan_suffix (OnDisk.reversed entryName []) "") as [E|[stem E]].
    + by rewrite E in H.
    + exists stem. rewrite H, unreversed_reversed in E. cbn [OnDisk.unreversed] in E.
      by rewrite string_app_nil_r in E.
  - intros [stem ->]. by rewrite reversed_app.
Qed.

Example Ext_examples :
  OnDisk.Ext "gateway.yaml" = ".yaml" ∧ OnDisk.Ext "gateway.yml" = ".yml"
  ∧ OnDisk.Ext "a.yaml/gateway" = "" ∧ OnDisk.Ext "gateway.yaml.bak" = ".bak"
  ∧ OnDisk.Ext ".yaml" = ".yaml".
Proof. repeat split; reflexivity. Qed.

(** X14: An entry that is a directory, or whose name does not end in [.yaml], is
    passed over by [deployDirectoryYAMLs]: no file is read for it, no call
    made, nothing logged. *)
Theorem deployEntries_passes_over d h dir maasPlatform skipConfigMap entryName entryIsDir rest :
  entryIsDir = true ∨ ¬ (∃ stem, entryName = stem +:+ ".yaml") →
  OnDisk.deployEntries d h dir maasPlatform skipConfigMap ((entryName, entryIsDir) :: rest)
  = OnDisk.deployEntries d h dir maasPlatform skipConfigMap rest.
Proof.
  intros H. cbn [OnDisk.deployEntries].
  destruct H as [->|H]; [done|]. rewrite orb_comm.
  destruct (String.eqb_spec (OnDisk.Ext entryName) ".yaml") as [E|E]; [|done].
  apply Ext_yaml in E. done.
Qed.

Lemma deployEntries_passes_over_witness :
  OnDisk.deployEntries DiskExamples.selfListed Examples.host "base" Examples.platform false
    [("notes.yml", false)]
  = OnDisk.deployEntries DiskExamples.selfListed Examples.host "base" Examples.platform false [].
Proof.
  apply deployEntries_passes_over. right. intros [stem H].
  apply (f_equal (λ s, OnDisk.reversed s [])) in H. rewrite reversed_app in H.
  discriminate H.
Defined.

Lemma deployEachResource_no_error deploy d h path maasPlatform skipConfigMap resources w err :
  (OnDisk.deployEachResource deploy d h path maasPlatform skipConfigMap resources w).1
  ≠ OnDisk.Returned (Some err).
Proof.
  revert w. induction resources as [|resource rest IH]; intros w; [done|].
  cbn [OnDisk.deployEachResource].
  destruct (OnDisk.Stat d _) as [e|[]].
  - unfold bind. destruct (logInfo _ w). apply IH.
  - unfold bind at 1. destruct (deploy _ w) as [[[e|]|] w1]; [|apply IH|done].
    unfold bind. destruct (logError _ _ w1). apply IH.
  - unfold bind at 1. destruct (OnDisk.deploySingleResource _ _ _ _ _ w) as [[e|] w1];
      unfold bind, logError, emit, ret; apply IH.
Qed.

(** X15: Once [kustomization.yaml] is read and parsed, [deployKustomizeDirectory]
    returns no error, whatever becomes of the resources it lists: a
    resource that is missing is passed over, one that fails is logged. *)
Theorem deployKustomizeDirectory_no_error deploy d h path maasPlatform skipConfigMap w
    data resources err :
  OnDisk.ReadFile d (OnDisk.Join d [path; "kustomization.yaml"]) = inr data →
  OnDisk.kustomizationResources d data = inr resources →
  (OnDisk.deployKustomizeDirectory deploy d h path maasPlatform skipConfigMap w).1
  ≠ OnDisk.Returned (Some err).
Proof.
  intros Hread Hparse. unfold OnDisk.deployKustomizeDirectory. rewrite Hread, Hparse.
  apply deployEachResource_no_error.
Qed.

(** The theorem at the example disk, with a [deployResourcesFromPath] that
    fails for every directory. *)
Lemma deployKustomizeDirectory_no_error_witness :
  (OnDisk.deployKustomizeDirectory (λ _, ret (OnDisk.Returned (Some NotFound)))
     DiskExamples.selfListed Examples.host "base" Examples.platform true
     Examples.emptyWorld).1
  ≠ OnDisk.Returned (Some NotFound).
Proof.
  apply (deployKustomizeDirectory_no_error _ DiskExamples.selfListed Examples.host "base"
           Examples.platform true Examples.emptyWorld (lit "resources: [.]") ["."]);
    reflexivity.
Defined.

Lemma deployEachResource_cycle deploy d h path maasPlatform skipConfigMap resources resource w :
  resource ∈ resources →
  OnDisk.Stat d (OnDisk.Join d [path; resource]) = inr true →
  (∀ w, (deploy (OnDisk.Join d [path; resource]) w).1 = OnDisk.OutOfFuel) →
  (OnDisk.deployEachResource deploy d h path maasPlatform skipConfigMap resources w).1
  = OnDisk.OutOfFuel.
Proof.
  intros Hin Hstat Hdeploy. revert w.
  induction resources as [|r rest IH]; intros w; [by apply elem_of_nil in Hin|].
  cbn [OnDisk.deployEachResource].
  assert (r = resource ∨ (r ≠ resource ∧ resource ∈ rest)) as [->|[Hne Hrest]].
  { apply elem_of_cons in Hin as [->|Hin]; [by left|].
    destruct (decide (r = resource)); [by left|by right]. }
  { rewrite Hstat. unfold bind. specialize (Hdeploy w).
    destruct (deploy _ w) as [out w1]. simpl in Hdeploy. by subst out. }
  specialize (IH Hrest).
  destruct (OnDisk.Stat d (OnDisk.Join d [path; r])) as [err|[]].
  - unfold bind. destruct (logInfo _ w). apply IH.
  - unfold bind at 1. destruct (deploy _ w) as [[[err|]|] w1]; [|apply IH|done].
    unfold bind. destruct (logError _ _ w1). apply IH.
  - unfold bind at 1. destruct (OnDisk.deploySingleResource _ _ _ _ _ w) as [[err|] w1];
      unfold bind, logError, emit, ret; apply IH.
Qed.

(** X16: A kustomization that lists its own directory (a resource that
    [filepath.Join] takes back to the directory, such as [.]) sends
    [deployResourcesFromPath] round in a circle: whatever the depth allowed,
    the call does not return. *)
Theorem deployResourcesFromPath_cycle d h path maasPlatform skipConfigMap
    isDir data resources resource :
  OnDisk.Stat d path = inr true →
  OnDisk.Stat d (OnDisk.Join d [path; "kustomization.yaml"]) = inr isDir →
  OnDisk.ReadFile d (OnDisk.Join d [path; "kustomization.yaml"]) = inr data →
  OnDisk.kustomizationResources d data = inr resources →
  resource ∈ resources →
  OnDisk.Join d [path; resource] = path →
  ∀ fuel w,
    (OnDisk.deployResourcesFromPath fuel d h path maasPlatform skipConfigMap w).1
    = OnDisk.OutOfFuel.
Proof.
  intros Hdir Hk Hread Hparse Hin Hjoin fuel.
  induction fuel as [|fuel IH]; intros w; [done|].
  cbn [OnDisk.deployResourcesFromPath]. rewrite Hdir. cbn [negb]. rewrite Hk.
  unfold OnDisk.deployKustomizeDirectory. rewrite Hread, Hparse.
  apply (deployEachResource_cycle _ d h path maasPlatform skipConfigMap resources resource);
    [done|by rewrite Hjoin|].
  intros w'. rewrite Hjoin. apply IH.
Qed.

(** The theorem at a directory whose kustomization lists [.]. *)
Lemma deployResourcesFromPath_cycle_witness :
  (OnDisk.deployResourcesFromPath 1000 DiskExamples.selfListed Examples.host "base"
     Examples.platform true Examples.emptyWorld).1
  = OnDisk.OutOfFuel.
Proof.
  apply (deployResourcesFromPath_cycle DiskExamples.selfListed Examples.host "base"
           Examples.platform true false (lit "resources: [.]") ["."] ".");
    try reflexivity.
  apply list_elem_of_here.
Defined.

Lemma firstDirectory_none d paths :
  Forall (λ path, OnDisk.Stat d path ≠ inr true) paths → OnDisk.firstDirectory d paths = "".
Proof.
  induction 1 as [|path rest Hpath _ IH]; [done|]. cbn [OnDisk.firstDirectory].
  destruct (OnDisk.Stat d path) as [err|[]]; done.
Qed.

(** X17: With [MAAS_DEPLOYMENT_BASE] unset and none of the three places a
    directory, [Reconcile] for a platform that is there returns the error
    that names the missing base directory: nothing is deployed, no call is
    made but the read of the platform, and nothing is logged. *)
Theorem Reconcile_without_deployment_base fuel d h ns n w maasPlatform :
  hd false (faults w) = false →
  List.find (λ p, String.eqb (platformNamespace p) ns && String.eqb (platformName p) n)
    (platforms (cluster w)) = Some maasPlatform →
  OnDisk.MAAS_DEPLOYMENT_BASE d = "" →
  Forall (λ path, OnDisk.Stat d path ≠ inr true) (OnDisk.possiblePaths d) →
  OnDisk.Reconcile fuel d h ns n w
  = (OnDisk.Returned (Some OnDisk.noDeploymentBase),
     mkWorld (cluster w) (tl (faults w)) (trace w ++ [EGetPlatform ns n])).
Proof.
  intros Hf Hfind Henv Hpaths.
  unfold OnDisk.Reconcile, bind at 1. rewrite GetPlatform_eq, Hf, Hfind.
  unfold OnDisk.deploymentBase. rewrite Henv. cbn [String.eqb].
  rewrite (firstDirectory_none d _ Hpaths). reflexivity.
Qed.

(** The theorem at a disk that holds nothing. *)
Lemma Reconcile_without_deployment_base_witness :
  OnDisk.Reconcile 10
    (OnDisk.mkDisk "" (λ _, inl NotFound) (λ _, inl NotFound) (λ _, inl NotFound)
       (λ _, "somewhere") (λ _, inl NotFound))
    Examples.host "maas-system" "maas" (mkWorld Examples.clusterAB [] [])
  = (OnDisk.Returned (Some OnDisk.noDeploymentBase),
     mkWorld Examples.clusterAB [] [EGetPlatform "maas-system" "maas"]).
Proof.
  apply (Reconcile_without_deployment_base 10 _ Examples.host "maas-system" "maas"
           (mkWorld Examples.clusterAB [] []) Examples.platform); try reflexivity.
  repeat constructor; discriminate.
Defined.


(** ** A [Reconcile] in which no call fails *)

Lemma hoare_false {A} (P : World → Prop) (Q : A → World → Prop) (m : M A) :
  (∀ w, ¬ P w) → hoare P m Q.
Proof. intros H w Hw. by destruct (H w). Qed.

Lemma hoare_platforms {A} (m : M A) ps :
  journaled m →
  hoare (λ w, platforms (cluster w) = ps) m (λ _ w, platforms (cluster w) = ps).
Proof. intros Hj w Hw. destruct (Hj w) as (_ & _ & Hp & _). by rewrite Hp. Qed.

(** The worlds in which no call is going to fail for a reason of its own. *)
Lemma hoare_calm_logInfo msg :
  hoare (λ w, faults w = []) (logInfo msg) (λ _ w, faults w = []).
Proof. by apply hoare_logInfo. Qed.

Lemma hoare_calm_Get key obj :
  hoare (λ w, faults w = []) (Get key obj)
    (λ r w, faults w = [] ∧ (r.1 = None ∨ r.1 = Some NotFound)).
Proof.
  intros w Hw. rewrite Get_eq, Hw. cbn [hd tl fst snd faults].
  split; [done|]. destruct (objects (cluster w) !! key); [by left|by right].
Qed.

Lemma hoare_calm_Create obj :
  hoare (λ w, faults w = []) (Create obj) (λ _ w, faults w = []).
Proof. intros w Hw. rewrite Create_eq, Hw. done. Qed.

Lemma hoare_calm_Update obj :
  hoare (λ w, faults w = []) (Update obj) (λ _ w, faults w = []).
Proof. intros w Hw. rewrite Update_eq, Hw. done. Qed.

Lemma hoare_calm_applyUnstructured obj :
  hoare (λ w, faults w = []) (applyUnstructured obj) (λ r w, faults w = [] ∧ r = None).
Proof.
  eapply hoare_weaken; [| |apply (hoare_and (λ w, faults w = []) (λ w, faults w = []))].
  - intros w Hw. by split.
  - intros r w H. exact H.
  - unfold applyUnstructured.
    eapply hoare_bind; [apply hoare_calm_Get|]. intros [[e|] current].
    + destruct (IsNotFound e).
      * eapply hoare_weaken; [| |apply hoare_calm_Create]; [by intros w [? _]|done].
      * apply hoare_ret. by intros w [? _].
    + eapply hoare_weaken; [| |apply hoare_calm_Update]; [by intros w [? _]|done].
  - intros w Hw. by apply applyUnstructured_outcome.
Qed.

Lemma hoare_calm_setOwner h maasPlatform obj :
  hoare (λ w, faults w = []) (setOwner h maasPlatform obj) (λ _ w, faults w = []).
Proof. intros w Hw. by destruct (setOwner_eq h maasPlatform obj w) as [logs ->]. Qed.

Lemma hoare_calm_deployDocuments h maasPlatform skipConfigMap documents :
  hoare (λ w, faults w = []) (deployDocuments h maasPlatform skipConfigMap documents)
    (λ r w, faults w = [] ∧ r = None).
Proof.
  induction documents as [|doc rest IH]; [by apply hoare_ret|].
  cbn [deployDocuments].
  destruct (length doc =? 0)%nat; [done|].
  destruct (yamlUnmarshal h doc) as [obj|];
    [|eapply hoare_bind; [apply hoare_calm_logInfo|]; by intros ?].
  destruct (_ && _ && _);
    [eapply hoare_bind; [apply hoare_calm_logInfo|]; by intros ?|].
  assert (hoare (λ w, faults w = [])
            (let! obj0 := setOwner h maasPlatform obj in
             let! err := applyUnstructured obj0 in
             match err with
             | Some e =>
                 ret (Some (Wrapped ("failed to apply resource " +:+ kind obj0 +:+ "/"
                                     +:+ name obj0) e))
             | None =>
                 do! logInfo "Successfully deployed resource" in
                 deployDocuments h maasPlatform skipConfigMap rest
             end) (λ r w, faults w = [] ∧ r = None)) as Happly.
  { eapply hoare_bind; [apply hoare_calm_setOwner|]. intros obj0.
    eapply hoare_bind; [apply hoare_calm_applyUnstructured|]. intros [e|].
    - apply hoare_false. by intros w [_ ?].
    - eapply hoare_bind.
      { eapply hoare_weaken; [| |apply hoare_calm_logInfo]; [by intros w [? _]|done]. }
      by intros ?. }
  destruct (String.eqb (kind obj) "PersistentVolumeClaim"); [|exact Happly].
  eapply hoare_bind; [apply hoare_calm_Get|]. intros [[e|] existing].
  - destruct (IsNotFound e) eqn:E.
    + eapply hoare_weaken; [| |exact Happly]; [by intros w [? _]|done].
    + apply hoare_false. intros w [_ [H|H]]; simpl in H; [done|].
      injection H as ->. done.
  - eapply hoare_bind.
    { eapply hoare_weaken; [| |apply hoare_calm_logInfo]; [by intros w [? _]|done]. }
    by intros ?.
Qed.

Lemma hoare_calm_clusterDomain h :
  hoare (λ w, faults w = []) (clusterDomain h) (λ _ w, faults w = []).
Proof.
  unfold clusterDomain. destruct (String.eqb (CLUSTER_DOMAIN h) ""); [|by apply hoare_ret].
  eapply hoare_bind; [apply hoare_calm_Get|]. intros [err ingressConfig].
  eapply hoare_bind.
  { instantiate (1 := λ _ w, faults w = []).
    destruct err; [apply hoare_ret; by intros w [? _]|].
    destruct (NestedString _ _); [|apply hoare_ret; by intros w [? _]].
    eapply hoare_bind.
    - eapply hoare_weaken; [| |apply hoare_calm_logInfo]; [by intros w [? _]|done].
    - intros ?. by apply hoare_ret. }
  intros d. destruct (String.eqb d ""); [|by apply hoare_ret].
  eapply hoare_bind; [apply hoare_calm_logInfo|]. intros ?. by apply hoare_ret.
Qed.

Lemma hoare_calm_deployEmbeddedManifest h path maasPlatform skipConfigMap :
  is_Some (manifestsFS h path) →
  hoare (λ w, faults w = []) (deployEmbeddedManifest h path maasPlatform skipConfigMap)
    (λ r w, faults w = [] ∧ r = None).
Proof.
  intros [data Hdata]. unfold deployEmbeddedManifest, substituteEnvVars. rewrite Hdata.
  eapply hoare_bind.
  { eapply hoare_bind; [apply hoare_calm_clusterDomain|]. intros d.
    instantiate (1 := λ _ w, faults w = []). by apply hoare_ret. }
  intros dataStr.
  pose proof (splitYAMLDocuments_no_error (String.list_byte_of_string dataStr)) as Herr.
  destruct (splitYAMLDocuments _) as [documents err]. simpl in Herr. subst err.
  apply hoare_calm_deployDocuments.
Qed.

Lemma ensureEach_calm namespaces w :
  faults w = [] →
  (ensureEach namespaces w).1 = None ∧ faults (ensureEach namespaces w).2 = [].
Proof.
  revert w. induction namespaces as [|ns rest IH]; intros w Hf; [done|].
  rewrite ensureEach_cons, Hf. cbn zeta. cbn [hd tl].
  destruct (objects (cluster w) !! namespaceKey ns); by apply IH.
Qed.

Lemma hoare_calm_ensureNamespaces :
  hoare (λ w, faults w = []) ensureNamespaces (λ r w, faults w = [] ∧ r = None).
Proof. intros w Hw. by destruct (ensureEach_calm ["maas-api"; "kuadrant-system"] w Hw). Qed.




(** ** Applying an object again *)



(** ** The limits and the order of the tiers *)

Lemma NoDup_fmap_eq {A B} (f : A → B) l x y :
  NoDup (f <$> l) → x ∈ l → y ∈ l → f x = f y → x = y.
Proof.
  induction l as [|a l IH]; intros Hnd Hx Hy Hf; [by apply elem_of_nil in Hx|].
  rewrite fmap_cons in Hnd. apply NoDup_cons in Hnd as [Ha Hnd].
  apply elem_of_cons in Hx as [->|Hx]; apply elem_of_cons in Hy as [->|Hy]; try done.
  - destruct Ha. rewrite Hf. by apply list_elem_of_fmap_2.
  - destruct Ha. rewrite <- Hf. by apply list_elem_of_fmap_2.
  - by apply IH.
Qed.

Lemma find_elem_of {A} (p : A → bool) l x : List.find p l = Some x → x ∈ l ∧ p x = true.
Proof. intros H. apply List.find_some in H as [H ?]. by apply list_elem_of_In in H. Qed.

Lemma find_is_Some {A} (p : A → bool) l x : x ∈ l → p x = true → is_Some (List.find p l).
Proof.
  intros Hx Hp. destruct (List.find p l) eqn:E; [by eexists|].
  apply list_elem_of_In in Hx. pose proof (List.find_none _ _ E _ Hx). congruence.
Qed.

Lemma elem_of_rev {A} (x : A) l : x ∈ rev l ↔ x ∈ l.
Proof. rewrite !list_elem_of_In. symmetry. apply List.in_rev. Qed.

Lemma elem_of_List_filter {A} (p : A → bool) l x :
  x ∈ List.filter p l ↔ x ∈ l ∧ p x = true.
Proof. rewrite !list_elem_of_In. apply List.filter_In. Qed.

Lemma lastNamed_Permutation hasConfig k tiers1 tiers2 :
  tiers1 ≡ₚ tiers2 → NoDup (tierNameOf <$> tiers1) →
  lastNamed hasConfig k tiers1 = lastNamed hasConfig k tiers2.
Proof.
  intros Hperm Hnd. unfold lastNamed.
  set (p := λ t, String.eqb (tierNameOf t) k && hasConfig t).
  destruct (List.find p (rev tiers1)) as [x|] eqn:E1.
  - apply find_elem_of in E1 as [Hx Hpx]. rewrite elem_of_rev in Hx.
    destruct (find_is_Some p (rev tiers2) x) as [y E2]; [|done|].
    { rewrite elem_of_rev. by rewrite <- Hperm. }
    rewrite E2. apply find_elem_of in E2 as [Hy Hpy]. rewrite elem_of_rev in Hy.
    f_equal. apply (NoDup_fmap_eq tierNameOf tiers1); [done|done|by rewrite Hperm|].
    unfold p in *. apply andb_true_iff in Hpx as [Hx' _], Hpy as [Hy' _].
    apply String.eqb_eq in Hx', Hy'. congruence.
  - destruct (List.find p (rev tiers2)) as [y|] eqn:E2; [|done].
    apply find_elem_of in E2 as [Hy Hpy]. rewrite elem_of_rev in Hy.
    destruct (find_is_Some p (rev tiers1) y) as [x E]; [|done|congruence].
    rewrite elem_of_rev. by rewrite Hperm.
Qed.

(** X20: The limits of the two policies do not depend on the order the tiers
    are listed in, as long as no two of them go by the same name. *)
Theorem limits_order_independent tiers1 tiers2 :
  tiers1 ≡ₚ tiers2 → NoDup (tierNameOf <$> tiers1) →
  rateLimits tiers1 = rateLimits tiers2 ∧ tokenRateLimits tiers1 = tokenRateLimits tiers2.
Proof.
  intros Hperm Hnd. split; apply map_eq; intros k.
  - rewrite !rateLimits_lookup. by rewrite (lastNamed_Permutation _ _ _ _ Hperm Hnd).
  - assert (dom (tokenRateLimits tiers1) = dom (tokenRateLimits tiers2)) as Hdom.
    { rewrite !tokenRateLimits_dom. apply set_eq. intros x.
      rewrite !elem_of_list_to_set, !list_elem_of_fmap.
      split; intros (t & -> & Ht); exists t; (split; [done|]);
        apply elem_of_List_filter in Ht as [Ht ?]; apply elem_of_List_filter;
        (split; [|done]); [by rewrite <- Hperm|by rewrite Hperm]. }
    destruct (decide (k ∈ dom (tokenRateLimits tiers1))) as [Hin|Hout].
    + rewrite tokenRateLimits_dom, elem_of_list_to_set in Hin.
      apply list_elem_of_fmap in Hin as (t & -> & _).
      rewrite !tokenRateLimits_lookup. by rewrite (lastNamed_Permutation _ _ _ _ Hperm Hnd).
    + pose proof Hout as Hout2. rewrite Hdom in Hout2.
      apply not_elem_of_dom in Hout, Hout2. by rewrite Hout, Hout2.
Qed.

Lemma limits_order_independent_witness :
  rateLimits [Examples.tierA; Examples.tierB] = rateLimits [Examples.tierB; Examples.tierA]
  ∧ tokenRateLimits [Examples.tierA; Examples.tierB]
    = tokenRateLimits [Examples.tierB; Examples.tierA].
Proof.
  apply limits_order_independent.
  - apply Permutation_swap.
  - compute_done.
Defined.
